(** * coscout: a shallow embedding of the collector's core and its properties

    The Python sources are embedded module by module:
    - [Py]: exceptions, outcomes, JSON values and the state-and-exception
      monad used to thread mutable state and raised exceptions;
    - [Codes]: [cos/collector/codes.py], the event-code limiter;
    - [RemoteConfig]: [cos/collector/remote_config.py];
    - [Uploader]: [cos/utils/uploader.py] with the counters of
      [cos/core/request_hook.py];
    - [Models]: [cos/core/models.py];
    - [Files]: [cos/utils/files.py] and [FileInfo.complete];
    - [Names]: [cos/name/record_name.py] and [cos/name/project_name.py];
    - [Collector]: [cos/collector/collector.py];
    - [FileState]: [cos/mods/common/default/file_state_handler.py] and the
      handlers' [update_path_state];
    - [DefaultMod]: [cos/mods/common/default/mod.py];
    - [LogUtils]: [cos/mods/common/default/log_utils.py].

    Integers are Python's unbounded [int]s, so they are [Z]; [//] on [int]
    is floor division, which is [Z.div], except that Python raises
    [ZeroDivisionError] where [Z.div] returns 0.  What the code receives
    from outside (the platform, the object store, the file system, the
    clock, other threads) is an explicit argument of the embedded
    function. *)

From Stdlib Require Import ZArith List String Ascii Bool Lia DecimalString.
From stdpp Require Import base option gmap strings list.

Local Open Scope string_scope.
Local Open Scope Z_scope.

(** ** Python runtime conventions *)

Module Py.

(** Instances of [Exception] that the embedded code raises or catches.
    Signals deriving from [BaseException] only (KeyboardInterrupt,
    SystemExit) are not modelled. *)
Inductive exn : Type :=
| ZeroDivisionError
| FileNotFoundError
| FileExistsError
| AttributeError (attr : string)
| KeyError (key : string)
| TypeError
| ValueError
| ValidationError
| EndpointConnectionError
| ConnectionError
| OtherError (msg : string).

Inductive outcome (A : Type) : Type :=
| Ret (a : A)
| Raise (e : exn).

Arguments Ret {A} a.
Arguments Raise {A} e.

(** A computation over a mutable state [S] that may raise: the state
    reached is reported in both cases, since Python keeps the side effects
    performed before an exception. *)
Definition M (S A : Type) : Type := S -> outcome A * S.

Definition ret {S A : Type} (a : A) : M S A := fun s => (Ret a, s).

Definition raise {S A : Type} (e : exn) : M S A := fun s => (Raise e, s).

Definition bind {S A B : Type} (m : M S A) (k : A -> M S B) : M S B :=
  fun s => match m s with
           | (Ret a, s') => k a s'
           | (Raise e, s') => (Raise e, s')
           end.

Definition get {S : Type} : M S S := fun s => (Ret s, s).

Definition put {S : Type} (s : S) : M S unit := fun _ => (Ret tt, s).

Definition modify {S : Type} (f : S -> S) : M S unit := fun s => (Ret tt, f s).

(** [try: m except Exception: h] *)
Definition try_except {S A : Type} (m : M S A) (h : exn -> M S A) : M S A :=
  fun s => match m s with
           | (Ret a, s') => (Ret a, s')
           | (Raise e, s') => h e s'
           end.

(** [str(n)] for an [int]. *)
Definition str_of_int (z : Z) : string := NilZero.string_of_int (Z.to_int z).

(** JSON values, as [json.loads] returns them and [json.dumps] accepts
    them; an object keeps its members in order. *)
#[warnings="-register-all"]
Inductive json : Type :=
| JNull
| JBool (b : bool)
| JInt (z : Z)
| JStr (s : string)
| JList (l : list json)
| JObj (members : list (string * json)).

(** [bool(v)] *)
Definition truthy (v : json) : bool :=
  match v with
  | JNull => false
  | JBool b => b
  | JInt z => negb (z =? 0)
  | JStr s => negb (String.eqb s "")
  | JList l => negb (bool_decide (l = []))
  | JObj o => negb (bool_decide (o = []))
  end.

(** [s.endswith(suffix)] *)
Definition endswith (s suffix : string) : bool :=
  bool_decide (String.length suffix <= String.length s)%nat
  && String.eqb suffix
       (String.substring (String.length s - String.length suffix)
          (String.length suffix) s).

(** [d.get(k)] on the members of a dict. *)
Fixpoint assoc (k : string) (o : list (string * json)) : option json :=
  match o with
  | [] => None
  | (k', v) :: o' => if String.eqb k k' then Some v else assoc k o'
  end.

End Py.

Export Py.

Declare Scope py_scope.
Delimit Scope py_scope with py.
Notation "x <- m ;; k" := (bind m (fun x => k))
  (at level 100, m at next level, right associativity) : py_scope.
Notation "m ;;; k" := (bind m (fun _ => k))
  (at level 100, right associativity) : py_scope.

(** ** cos/collector/codes.py *)

Module Codes.

Local Open Scope py_scope.

(** [class EventCodeConfig(BaseModel)] *)
Record EventCodeConfig : Type := {
  enabled : bool;
  whitelist : gmap string Z;
  reset_interval_in_secs : Z;
  code_json_url : string
}.

(** The value passed as [code]: the callers pass [None], an [int] or a
    [str]. *)
Inductive code : Type :=
| CodeNone
| CodeInt (z : Z)
| CodeStr (s : string).

(** [not code] is [negb (code_truthy code)]. *)
Definition code_truthy (c : code) : bool :=
  match c with
  | CodeNone => false
  | CodeInt z => negb (z =? 0)
  | CodeStr s => negb (String.eqb s "")
  end.

(** [str(code)] *)
Definition code_str (c : code) : string :=
  match c with
  | CodeNone => "None"
  | CodeInt z => str_of_int z
  | CodeStr s => s
  end.

(** The JSON object held by the state file.  A reset writes only
    [last_reset_timestamp]; [hit] adds the [counters] object. *)
Record state_file : Type := {
  file_last_reset_timestamp : option Z;
  file_counters : option (gmap string Z)
}.

(** [class EventCodeManager]: the configuration, the attribute
    [last_reset_timestamp] (class default 0) and the file at
    [self._state_path] ([None] when the path does not exist). *)
Record manager : Type := {
  conf : EventCodeConfig;
  last_reset_timestamp : Z;
  state_path : option state_file
}.

Definition set_last_reset_timestamp (v : Z) (m : manager) : manager :=
  {| conf := conf m; last_reset_timestamp := v; state_path := state_path m |}.

Definition set_state_path (f : option state_file) (m : manager) : manager :=
  {| conf := conf m; last_reset_timestamp := last_reset_timestamp m;
     state_path := f |}.

(** [EventCodeManager.__init__]: the limiter is switched off unless it is
    enabled and has a code table url.  [load_event_codes] only fills the
    message table, which the limiter does not read. *)
Definition init (c : EventCodeConfig) (file : option state_file) : manager :=
  let c' :=
    if enabled c && negb (String.eqb (code_json_url c) "") then c
    else {| enabled := false; whitelist := whitelist c;
            reset_interval_in_secs := reset_interval_in_secs c;
            code_json_url := code_json_url c |} in
  {| conf := c'; last_reset_timestamp := 0; state_path := file |}.

(** [a // b] on [int]s. *)
Definition floordiv {S : Type} (a b : Z) : M S Z :=
  if b =? 0 then raise ZeroDivisionError else ret (a / b).

(** [json.load(fp).get("last_reset_timestamp", 0)] *)
Definition load_last_reset_timestamp (f : state_file) : Z :=
  default 0 (file_last_reset_timestamp f).

(** [EventCodeManager._create_or_reset_state], with [now = int(time.time())]. *)
Definition _create_or_reset_state (now : Z) : M manager unit :=
  m <- get ;;
  (match state_path m with
   | Some f =>
       if last_reset_timestamp m =? 0
       then modify (set_last_reset_timestamp (load_last_reset_timestamp f))
       else ret tt
   | None => ret tt
   end) ;;;
  m <- get ;;
  let reset_due_time := last_reset_timestamp m + reset_interval_in_secs (conf m) in
  if (now >? reset_due_time) || negb (bool_decide (is_Some (state_path m))) then
    n <- floordiv (now - last_reset_timestamp m) (reset_interval_in_secs (conf m)) ;;
    modify (set_last_reset_timestamp
              (last_reset_timestamp m + n * reset_interval_in_secs (conf m))) ;;;
    modify (set_state_path
              (Some {| file_last_reset_timestamp := Some now;
                       file_counters := None |}))
  else ret tt.

(** [open(self._state_path, ...)] followed by [json.load]. *)
Definition open_state : M manager state_file :=
  m <- get ;;
  match state_path m with
  | Some f => ret f
  | None => raise FileNotFoundError
  end.

(** [EventCodeManager.hit] *)
Definition hit (c : code) (now : Z) : M manager unit :=
  m <- get ;;
  if negb (enabled (conf m)) then ret tt
  else if negb (code_truthy c) then ret tt
  else
    _create_or_reset_state now ;;;
    let c := code_str c in
    states <- open_state ;;
    let counters := default ∅ (file_counters states) in
    let counters := <[c := default 0 (counters !! c) + 1]> counters in
    modify (set_state_path
              (Some {| file_last_reset_timestamp := file_last_reset_timestamp states;
                       file_counters := Some counters |})).

(** [EventCodeManager.is_over_limit] *)
Definition is_over_limit (c : code) (now : Z) : M manager bool :=
  m <- get ;;
  if negb (enabled (conf m)) then ret false
  else
    _create_or_reset_state now ;;;
    if negb (code_truthy c) then ret true
    else
      let c := code_str c in
      match whitelist (conf m) !! c with
      | None => ret true
      | Some limit =>
          if limit =? -1 then ret false
          else
            result <- open_state ;;
            let counters := default ∅ (file_counters result) in
            ret (default 0 (counters !! c) >=? limit)
      end.

(** A run of [hit] calls, each with the clock value it reads. *)
Fixpoint hits (l : list (code * Z)) : M manager unit :=
  match l with
  | [] => ret tt
  | (c, now) :: l' => hit c now ;;; hits l'
  end.

(** *** Specification-side notions for the limiter *)

(** The value [last_reset_timestamp] takes at the start of the next call:
    the attribute, or the file's value when the attribute is still 0. *)
Definition epoch (m : manager) : Z :=
  match state_path m with
  | Some f =>
      if last_reset_timestamp m =? 0 then load_last_reset_timestamp f
      else last_reset_timestamp m
  | None => last_reset_timestamp m
  end.

(** A call at [now] finds the state file and is not past the due time, so
    it stays within the current reset interval. *)
Definition within_interval (m : manager) (now : Z) : Prop :=
  is_Some (state_path m) /\ now <= epoch m + reset_interval_in_secs (conf m).

(** The counter the state file holds for a code, 0 when absent. *)
Definition counter (s : string) (m : manager) : Z :=
  match state_path m with
  | Some f => default 0 (default ∅ (file_counters f) !! s)
  | None => 0
  end.

(** The number of calls in a run of [hit]s that count for the code [s]. *)
Fixpoint hit_count (s : string) (l : list (code * Z)) : Z :=
  match l with
  | [] => 0
  | (c, _) :: l' =>
      (if code_truthy c && String.eqb (code_str c) s then 1 else 0)
      + hit_count s l'
  end.

(** The decision table of the specification, for [k] recorded hits. *)
Definition over_limit_spec (cf : EventCodeConfig) (c : code) (k : Z) : bool :=
  if negb (enabled cf) then false
  else if negb (code_truthy c) then true
  else match whitelist cf !! code_str c with
       | None => true
       | Some limit => if limit =? -1 then false else k >=? limit
       end.

(** The state file as a reset leaves it. *)
Definition just_reset (m : manager) : Prop :=
  exists t0, state_path m =
    Some {| file_last_reset_timestamp := Some t0; file_counters := None |}.

(** The whitelist of scenario S-4 and a manager built on it. *)
Definition s4_whitelist : gmap string Z :=
  <["200" := 2]> (<["404" := -1]> (<["500" := 2]> ∅)).

Definition s4_conf : EventCodeConfig :=
  {| enabled := true; whitelist := s4_whitelist;
     reset_interval_in_secs := 86400; code_json_url := "code.json" |}.

Definition s4_after_hits : manager :=
  snd (hits [(CodeInt 200, 1700000000); (CodeInt 200, 1700000001);
             (CodeInt 404, 1700000002)] (init s4_conf None)).

(** *** Properties of the limiter *)

Lemma gtb_le_false (a b : Z) : a <= b -> (a >? b) = false.
Proof. intros H. rewrite Z.gtb_ltb. apply Z.ltb_ge. exact H. Qed.

Lemma create_or_reset_returns (now : Z) (m : manager) :
  reset_interval_in_secs (conf m) <> 0 ->
  exists m', _create_or_reset_state now m = (Ret tt, m')
             /\ conf m' = conf m /\ is_Some (state_path m').
Proof.
  intros Hi. apply Z.eqb_neq in Hi.
  unfold _create_or_reset_state, bind, get, modify, ret, floordiv, raise.
  destruct (state_path m) as [f|] eqn:Hf; simpl.
  - destruct (last_reset_timestamp m =? 0); simpl; rewrite ?Hf; simpl;
      rewrite ?Hi; destruct (_ >? _); simpl; rewrite ?Hi; simpl;
      eexists; (split; [reflexivity|]); simpl; rewrite ?Hf; eauto.
  - rewrite Hf. simpl. rewrite orb_true_r, Hi. simpl.
    eexists; split; [reflexivity|]; simpl; eauto.
Qed.

Lemma create_or_reset_quiet (now : Z) (m : manager) :
  within_interval m now ->
  _create_or_reset_state now m = (Ret tt, set_last_reset_timestamp (epoch m) m).
Proof.
  intros [[f Hf] Hle]. unfold epoch in *. rewrite Hf in *.
  unfold _create_or_reset_state, bind, get, modify, ret.
  rewrite Hf. destruct (last_reset_timestamp m =? 0) eqn:H0; simpl; rewrite Hf; simpl.
  - replace (now >? _) with false by (symmetry; apply gtb_le_false; lia).
    reflexivity.
  - replace (now >? _) with false by (symmetry; apply gtb_le_false; lia).
    simpl. destruct m; reflexivity.
Qed.

Lemma epoch_set_epoch (m : manager) :
  epoch (set_last_reset_timestamp (epoch m) m) = epoch m.
Proof.
  unfold epoch; simpl. destruct (state_path m) as [f|]; [|reflexivity].
  destruct (last_reset_timestamp m =? 0) eqn:H0.
  - destruct (load_last_reset_timestamp f =? 0); reflexivity.
  - rewrite H0. reflexivity.
Qed.

Lemma hit_quiet (c : code) (now : Z) (m : manager) :
  enabled (conf m) = true ->
  within_interval m now ->
  exists m', hit c now m = (Ret tt, m')
    /\ conf m' = conf m /\ epoch m' = epoch m /\ is_Some (state_path m')
    /\ forall s, counter s m' = counter s m + hit_count s [(c, now)].
Proof.
  intros He Hq. unfold hit, bind, get. rewrite He. simpl.
  destruct (code_truthy c) eqn:Hc; simpl.
  - rewrite (create_or_reset_quiet _ _ Hq). destruct Hq as [[f Hf] Hle].
    unfold open_state, bind, get, modify, ret. simpl. rewrite Hf.
    eexists; split; [reflexivity|]. simpl.
    split; [reflexivity|]. split; [|split; [eauto|]].
    + pose proof (epoch_set_epoch m) as E. unfold epoch in *. simpl in *.
      rewrite Hf in *. exact E.
    + intros s. unfold counter. simpl. rewrite Hf. simpl.
      destruct (String.eqb_spec (code_str c) s) as [->|Hne].
      * rewrite lookup_insert_eq. simpl. lia.
      * rewrite lookup_insert_ne by done. lia.
  - exists m. unfold ret. destruct Hq as [Hf _].
    split; [reflexivity|]. split; [reflexivity|]. split; [reflexivity|].
    split; [exact Hf|]. intros s. simpl. lia.
Qed.

Lemma hits_quiet (l : list (code * Z)) (m : manager) :
  enabled (conf m) = true ->
  is_Some (state_path m) ->
  Forall (fun ct => snd ct <= epoch m + reset_interval_in_secs (conf m)) l ->
  exists m', hits l m = (Ret tt, m')
    /\ conf m' = conf m /\ epoch m' = epoch m /\ is_Some (state_path m')
    /\ forall s, counter s m' = counter s m + hit_count s l.
Proof.
  revert m. induction l as [|[c t] l IH]; intros m He Hf Hall.
  - exists m. split; [reflexivity|]. split; [reflexivity|].
    split; [reflexivity|]. split; [exact Hf|]. intros s; simpl; lia.
  - apply Forall_cons in Hall as [Ht Hall]. simpl in Ht.
    destruct (hit_quiet c t m He (conj Hf Ht)) as (m1 & H1 & Hc1 & He1 & Hf1 & Hn1).
    destruct (IH m1) as (m2 & H2 & Hc2 & He2 & Hf2 & Hn2).
    + congruence.
    + exact Hf1.
    + rewrite He1, Hc1. exact Hall.
    + exists m2. simpl. unfold bind. rewrite H1. split; [exact H2|].
      split; [congruence|]. split; [congruence|]. split; [exact Hf2|].
      intros s. rewrite Hn2, Hn1. simpl. lia.
Qed.

Lemma is_over_limit_decides (c : code) (now : Z) (m : manager) :
  reset_interval_in_secs (conf m) <> 0 ->
  exists m', (enabled (conf m) = true ->
              _create_or_reset_state now m = (Ret tt, m'))
    /\ fst (is_over_limit c now m)
       = Ret (over_limit_spec (conf m) c (counter (code_str c) m')).
Proof.
  intros Hi. destruct (create_or_reset_returns now m Hi) as (m' & Hm' & Hc & [f Hf]).
  exists m'. split; [auto|].
  unfold is_over_limit, over_limit_spec, bind, get.
  destruct (enabled (conf m)); simpl; [|reflexivity].
  rewrite Hm'. destruct (code_truthy c); simpl; [|reflexivity].
  destruct (whitelist (conf m) !! code_str c) as [limit|]; [|reflexivity].
  destruct (limit =? -1); [reflexivity|].
  unfold open_state, bind, get, ret, counter. rewrite Hf. reflexivity.
Qed.

(** C8. [is_over_limit(c)] follows the decision table: false when the
    limiter is disabled, true for an empty code, true for a code missing
    from the whitelist, false for a whitelist entry of -1, and otherwise
    true exactly when the number of [hit(c)] calls made since the last
    reset, all within the reset interval, reaches the whitelist entry; in
    scenario S-4 the four answers are true, false, false, true. *)
Theorem is_over_limit_spec_holds :
  (forall (m : manager) (l : list (code * Z)) (c : code) (now : Z),
      reset_interval_in_secs (conf m) <> 0 ->
      just_reset m ->
      Forall (fun ct => snd ct <= epoch m + reset_interval_in_secs (conf m)) l ->
      now <= epoch m + reset_interval_in_secs (conf m) ->
      fst (is_over_limit c now (snd (hits l m)))
      = Ret (over_limit_spec (conf m) c (hit_count (code_str c) l)))
  /\ (forall (m : manager) (c : code) (now : Z),
         reset_interval_in_secs (conf m) <> 0 ->
         (enabled (conf m) = false -> fst (is_over_limit c now m) = Ret false)
         /\ (enabled (conf m) = true -> code_truthy c = false ->
             fst (is_over_limit c now m) = Ret true)
         /\ (enabled (conf m) = true ->
             whitelist (conf m) !! code_str c = None ->
             fst (is_over_limit c now m) = Ret true)
         /\ (enabled (conf m) = true -> code_truthy c = true ->
             whitelist (conf m) !! code_str c = Some (-1) ->
             fst (is_over_limit c now m) = Ret false))
  /\ (fst (is_over_limit (CodeInt 200) 1700000003 s4_after_hits) = Ret true
      /\ fst (is_over_limit (CodeInt 404) 1700000003 s4_after_hits) = Ret false
      /\ fst (is_over_limit (CodeInt 500) 1700000003 s4_after_hits) = Ret false
      /\ fst (is_over_limit (CodeInt 999) 1700000003 s4_after_hits) = Ret true).
Proof.
  split; [|split].
  - intros m l c now Hi [t0 Hj] Hall Hnow.
    destruct (enabled (conf m)) eqn:He.
    + destruct (hits_quiet l m He) as (m1 & H1 & Hc1 & He1 & Hf1 & Hn1);
        [rewrite Hj; eauto | exact Hall |].
      rewrite H1. simpl.
      destruct (is_over_limit_decides c now m1) as (m2 & H2 & ->);
        [congruence|].
      rewrite create_or_reset_quiet in H2
        by (split; [exact Hf1 | rewrite He1, Hc1; exact Hnow]).
      assert (m2 = set_last_reset_timestamp (epoch m1) m1) as ->
        by (symmetry; specialize (H2 ltac:(congruence)); congruence).
      rewrite Hc1. f_equal. f_equal.
      transitivity (counter (code_str c) m1); [reflexivity|].
      rewrite Hn1. unfold counter. rewrite Hj. simpl.
      rewrite lookup_empty. simpl. lia.
    + assert (Hh : forall l', hits l' m = (Ret tt, m)).
      { induction l' as [|[c' t'] l' IH]; [reflexivity|].
        simpl. unfold bind, hit at 1, bind, get. rewrite He. simpl. exact IH. }
      rewrite Hh. simpl. unfold is_over_limit, over_limit_spec, bind, get.
      rewrite He. reflexivity.
  - intros m c now Hi.
    destruct (is_over_limit_decides c now m Hi) as (m' & _ & ->).
    unfold over_limit_spec. repeat split.
    + intros ->. reflexivity.
    + intros -> ->. reflexivity.
    + intros -> ->. destruct (code_truthy c); reflexivity.
    + intros -> -> ->. reflexivity.
  - repeat split; vm_compute; reflexivity.
Qed.

(** The hypotheses of C8 hold for the manager of S-4 right after its first
    reset, with two hits of code 200 in the interval. *)
Lemma is_over_limit_spec_witness :
  fst (is_over_limit (CodeInt 200) 1700000003
         (snd (hits [(CodeInt 200, 1700000001); (CodeInt 200, 1700000002)]
                 (snd (_create_or_reset_state 1700000000 (init s4_conf None))))))
  = Ret true.
Proof.
  refine (proj1 is_over_limit_spec_holds
            (snd (_create_or_reset_state 1700000000 (init s4_conf None)))
            [(CodeInt 200, 1700000001); (CodeInt 200, 1700000002)]
            (CodeInt 200) 1700000003 _ _ _ _).
  - vm_compute. discriminate.
  - exists 1700000000. vm_compute. reflexivity.
  - repeat constructor; vm_compute; discriminate.
  - vm_compute. discriminate.
Defined.

(** What a reset does: the attribute moves from the value the call started
    with by a whole number of intervals, while the state file receives the
    clock value itself. *)
Lemma reset_effect (now : Z) (m : manager) :
  reset_interval_in_secs (conf m) <> 0 ->
  state_path m = None \/ now > epoch m + reset_interval_in_secs (conf m) ->
  let m' := snd (_create_or_reset_state now m) in
  last_reset_timestamp m'
  = epoch m + (now - epoch m) / reset_interval_in_secs (conf m)
              * reset_interval_in_secs (conf m)
  /\ state_path m'
     = Some {| file_last_reset_timestamp := Some now; file_counters := None |}.
Proof.
  intros Hi Hdue. apply Z.eqb_neq in Hi.
  unfold _create_or_reset_state, bind, get, modify, ret, floordiv, raise, epoch in *.
  destruct (state_path m) as [f|] eqn:Hf; simpl.
  - destruct Hdue as [?|Hdue]; [discriminate|].
    destruct (last_reset_timestamp m =? 0); simpl; rewrite ?Hf; simpl;
      (replace (now >? _) with true by (symmetry; apply Z.gtb_lt; lia));
      simpl; rewrite Hi; simpl; split; reflexivity.
  - rewrite Hf. simpl. rewrite orb_true_r, Hi. simpl. split; reflexivity.
Qed.

(** The manager of a process started on the state file [file], with the
    default interval of one day. *)
Definition daily_manager (file : option state_file) : manager :=
  init {| enabled := true; whitelist := ∅; reset_interval_in_secs := 86400;
          code_json_url := "code.json" |} file.

(** C5, on the code: a first reset at clock 1700000000 leaves the attribute
    on the boundary 1699920000 but writes 1700000000 to the state file; a
    process started afterwards on that file reloads 1700000000, which lies
    80000 seconds, not a whole number of days, after the boundary. *)
Theorem reset_persists_clock_not_boundary :
  let m1 := snd (_create_or_reset_state 1700000000 (daily_manager None)) in
  let m2 := snd (_create_or_reset_state 1700000001 (daily_manager (state_path m1))) in
  last_reset_timestamp m1 = 1699920000
  /\ state_path m1 = Some {| file_last_reset_timestamp := Some 1700000000;
                            file_counters := None |}
  /\ last_reset_timestamp m2 = 1700000000
  /\ (last_reset_timestamp m2 - last_reset_timestamp m1) mod 86400 = 80000.
Proof. vm_compute. repeat split; reflexivity. Qed.

(** *** Further properties of the limiter *)

(** X1. A reset leaves the attribute [last_reset_timestamp] on the
    boundary of the interval that holds the clock: a whole number of
    intervals from where it was, not after [now], and less than one
    interval before it. *)
Theorem reset_lands_in_current_interval :
  forall (now : Z) (m : manager),
    0 < reset_interval_in_secs (conf m) ->
    state_path m = None \/ now > epoch m + reset_interval_in_secs (conf m) ->
    let m' := snd (_create_or_reset_state now m) in
    (exists n, last_reset_timestamp m'
               = epoch m + n * reset_interval_in_secs (conf m))
    /\ last_reset_timestamp m' <= now
    /\ now < last_reset_timestamp m' + reset_interval_in_secs (conf m).
Proof.
  intros now m Hi Hdue m'.
  destruct (reset_effect now m ltac:(lia) Hdue) as [Hlast _].
  fold m' in Hlast. rewrite Hlast.
  set (i := reset_interval_in_secs (conf m)) in *.
  set (e := epoch m) in *.
  pose proof (Z.div_mod (now - e) i ltac:(lia)) as Hdm.
  pose proof (Z.mod_pos_bound (now - e) i Hi) as Hb.
  split; [eexists; reflexivity|]. split; nia.
Qed.

Lemma reset_lands_in_current_interval_witness :
  let m' := snd (_create_or_reset_state 1700000000 (daily_manager None)) in
  (exists n, last_reset_timestamp m' = 0 + n * 86400)
  /\ last_reset_timestamp m' <= 1700000000
  /\ 1700000000 < last_reset_timestamp m' + 86400.
Proof.
  apply (reset_lands_in_current_interval 1700000000 (daily_manager None)).
  - reflexivity.
  - left. reflexivity.
Defined.

(** X2. A call past the due time forgets every counter: whatever was
    counted before, [is_over_limit] answers false for a code whose
    whitelist entry is positive. *)
Theorem reset_clears_counters :
  forall (now : Z) (m : manager) (c : code) (limit : Z),
    enabled (conf m) = true ->
    reset_interval_in_secs (conf m) <> 0 ->
    now > epoch m + reset_interval_in_secs (conf m) ->
    code_truthy c = true ->
    whitelist (conf m) !! code_str c = Some limit ->
    0 < limit ->
    (forall s, counter s (snd (_create_or_reset_state now m)) = 0)
    /\ fst (is_over_limit c now m) = Ret false.
Proof.
  intros now m c limit He Hi Hdue Hc Hw Hl.
  destruct (reset_effect now m Hi (or_intror Hdue)) as [_ Hfile].
  assert (Hzero : forall s, counter s (snd (_create_or_reset_state now m)) = 0).
  { intros s. unfold counter. cbn zeta in Hfile. rewrite Hfile. cbn.
    rewrite lookup_empty. reflexivity. }
  split; [exact Hzero|].
  destruct (is_over_limit_decides c now m Hi) as (m' & Hm' & ->).
  specialize (Hm' He). unfold over_limit_spec. rewrite He, Hc, Hw. cbn.
  replace (limit =? -1) with false by (symmetry; apply Z.eqb_neq; lia).
  specialize (Hzero (code_str c)). rewrite Hm' in Hzero. cbn in Hzero.
  rewrite Hzero. f_equal. rewrite Z.geb_leb. apply Z.leb_gt. exact Hl.
Qed.

(** A limiter that counted three hits of code 200 a day and more ago. *)
Definition stale_manager : manager :=
  {| conf := s4_conf; last_reset_timestamp := 0;
     state_path := Some {| file_last_reset_timestamp := Some 1699900000;
                           file_counters := Some {[ "200" := 3 ]} |} |}.

Lemma reset_clears_counters_witness :
  (forall s, counter s (snd (_create_or_reset_state 1700000000 stale_manager)) = 0)
  /\ fst (is_over_limit (CodeInt 200) 1700000000 stale_manager) = Ret false.
Proof.
  apply (reset_clears_counters 1700000000 stale_manager (CodeInt 200) 2).
  - reflexivity.
  - discriminate.
  - reflexivity.
  - reflexivity.
  - reflexivity.
  - reflexivity.
Defined.

(** X3. With [reset_interval_in_secs = 0] and no state file, the first
    call of an enabled limiter raises [ZeroDivisionError] and creates no
    state file, for [is_over_limit] on any code and for [hit] on a code
    that is not empty. *)
Theorem zero_interval_raises :
  forall (now : Z) (m : manager) (c : code),
    enabled (conf m) = true ->
    reset_interval_in_secs (conf m) = 0 ->
    state_path m = None ->
    is_over_limit c now m = (Raise ZeroDivisionError, m)
    /\ (code_truthy c = true -> hit c now m = (Raise ZeroDivisionError, m)).
Proof.
  intros now m c He Hi Hf.
  assert (Hreset : _create_or_reset_state now m = (Raise ZeroDivisionError, m)).
  { unfold _create_or_reset_state, bind, get, ret, floordiv, raise.
    rewrite Hf. cbn. rewrite Hf, Hi. cbn. rewrite orb_true_r. reflexivity. }
  split.
  - unfold is_over_limit, bind, get. rewrite He. simpl. rewrite Hreset. reflexivity.
  - intros Hc. unfold hit, bind, get. rewrite He, Hc. simpl. rewrite Hreset.
    reflexivity.
Qed.

Lemma zero_interval_raises_witness :
  fst (is_over_limit (CodeInt 200) 1700000000
         (init {| enabled := true; whitelist := s4_whitelist;
                  reset_interval_in_secs := 0; code_json_url := "code.json" |}
            None))
  = Raise ZeroDivisionError.
Proof.
  refine (f_equal fst (proj1 (zero_interval_raises 1700000000 _ (CodeInt 200) _ _ _)));
    reflexivity.
Defined.

End Codes.

(** ** cos/collector/remote_config.py *)

Module RemoteConfig.

Local Open Scope py_scope.

(** The remote calls a subclass implements ([get_config_version],
    [get_config]), recorded when they are made. *)
Inductive call : Type :=
| CallGetConfigVersion
| CallGetConfig.

Global Instance call_eq_dec : EqDecision call.
Proof. solve_decision. Defined.

(** What the two abstract methods do when called: return a value or raise. *)
Record remote : Type := {
  get_config_version : outcome json;
  get_config : outcome json
}.

(** The cache file [COS_CACHE_PATH / f"{cache_key}.json"] ([None] when it
    does not exist) and the log of remote calls. *)
Record state : Type := {
  cache_file : option json;
  calls : list call
}.

Definition log_call (c : call) (s : state) : state :=
  {| cache_file := cache_file s; calls := calls s ++ [c] |}.

Definition write_cache (data : json) (s : state) : state :=
  {| cache_file := Some data; calls := calls s |}.

(** [content.get(key, default)]: only a dict has [get]. *)
Definition dict_get (content : json) (key : string) (dflt : json) : M state json :=
  match content with
  | JObj o => ret (default dflt (assoc key o))
  | _ => raise (AttributeError "get")
  end.

(** Calling an abstract method: the call is logged and its outcome handed
    to the caller, who decides whether a raise is caught. *)
Definition invoke (c : call) (result : outcome json) : M state (outcome json) :=
  modify (log_call c) ;;; ret result.

Section ReadConfig.

(** Python's [str()] on the version values. *)
Variable py_str : json -> string.

Variable enable_cache : bool.
Variable r : remote.

(** Lines 60-71: the fetch, with the cached [content] and the
    [current_version] reached so far. *)
Definition fetch (content current_version : json) : M state json :=
  got <- invoke CallGetConfig (get_config r) ;;
  match got with
  | Raise _ => dict_get content "value" (JObj [])
  | Ret content =>
      (if enable_cache && truthy content
       then modify (write_cache
                      (JObj [("version", current_version); ("value", content)]))
       else ret tt) ;;;
      ret content
  end.

(** [RemoteConfig.read_config] *)
Definition read_config : M state json :=
  let current_version := JStr "-1" in
  let content := JObj [] in
  if enable_cache then
    s <- get ;;
    let content := default content (cache_file s) in
    got <- invoke CallGetConfigVersion (get_config_version r) ;;
    match got with
    | Raise _ => dict_get content "value" (JObj [])
    | Ret current_version =>
        cache_version <- dict_get content "version" (JStr "") ;;
        if String.eqb (py_str cache_version) (py_str current_version)
        then dict_get content "value" (JObj [])
        else fetch content current_version
    end
  else fetch content current_version.

End ReadConfig.

(** *** Specification-side notions for the cache *)

(** The cache file is absent or holds a JSON object, as [read_config]
    writes it. *)
Definition cache_wf (c : option json) : Prop :=
  match c with
  | None => True
  | Some (JObj _) => True
  | Some _ => False
  end.

(** The last cached value, the empty map when there is none. *)
Definition cached_value (c : option json) : json :=
  match c with
  | Some (JObj o) => default (JObj []) (assoc "value" o)
  | _ => JObj []
  end.

(** The cached version, the empty string when there is none. *)
Definition cached_version (c : option json) : json :=
  match c with
  | Some (JObj o) => default (JStr "") (assoc "version" o)
  | _ => JStr ""
  end.

(** *** Properties of [read_config] *)

Lemma dict_get_cached (c : option json) (key : string) (dflt : json) (s : state) :
  cache_wf c ->
  dict_get (default (JObj []) c) key dflt s
  = (Ret (match c with
          | Some (JObj o) => default dflt (assoc key o)
          | _ => dflt
          end), s).
Proof.
  destruct c as [[]|]; simpl; intros H; try contradiction; reflexivity.
Qed.

(** Every write keeps the cache file a JSON object. *)
Lemma read_config_keeps_cache_wf py_str enable_cache r (s : state) :
  cache_wf (cache_file s) ->
  cache_wf (cache_file (snd (read_config py_str enable_cache r s))).
Proof.
  intros Hwf.
  assert (Hfetch : forall c v s0, cache_wf (cache_file s0) ->
            (exists o, c = JObj o) ->
            cache_wf (cache_file (snd (fetch enable_cache r c v s0)))).
  { intros c v s0 H0 [o ->].
    unfold fetch, invoke, bind, modify, ret, dict_get. simpl.
    destruct (get_config r) as [a|e]; simpl; [|exact H0].
    destruct (enable_cache && truthy a); simpl; [exact I|exact H0]. }
  unfold read_config. destruct enable_cache.
  - unfold bind, get, invoke, modify, ret. simpl.
    destruct (get_config_version r) as [v|e]; simpl.
    + rewrite (dict_get_cached _ _ _ _ Hwf).
      destruct (String.eqb _ _).
      * rewrite (dict_get_cached _ _ _ _ Hwf). exact Hwf.
      * apply Hfetch; [exact Hwf|].
        destruct (cache_file s) as [[]|]; simpl in *; try contradiction; eauto.
    + rewrite (dict_get_cached _ _ _ _ Hwf). exact Hwf.
  - apply Hfetch; [exact Hwf|eauto].
Qed.

(** C6. On a cache file that is absent or as [read_config] writes it,
    [read_config()] returns a value whatever the two remote calls do; with
    the cache enabled, a raising [get_config_version()] yields the cached
    value (the empty map without a cache) and [get_config()] is not called;
    a server version equal to the cached one yields the cached value and
    [get_config()] is not called; and a raising [get_config()] after a
    successful version check yields the cached value. *)
Theorem read_config_never_raises :
  forall (py_str : json -> string) (r : remote) (s : state),
    cache_wf (cache_file s) ->
    calls s = [] ->
    (forall enable_cache,
        exists v, fst (read_config py_str enable_cache r s) = Ret v)
    /\ (forall e, get_config_version r = Raise e ->
          fst (read_config py_str true r s) = Ret (cached_value (cache_file s))
          /\ CallGetConfig ∉ calls (snd (read_config py_str true r s)))
    /\ (forall v, get_config_version r = Ret v ->
          py_str (cached_version (cache_file s)) = py_str v ->
          fst (read_config py_str true r s) = Ret (cached_value (cache_file s))
          /\ CallGetConfig ∉ calls (snd (read_config py_str true r s)))
    /\ (forall v e, get_config_version r = Ret v ->
          get_config r = Raise e ->
          fst (read_config py_str true r s) = Ret (cached_value (cache_file s))).
Proof.
  intros py_str r s Hwf Hcalls.
  assert (Hfetch : forall ec c v s0, (exists o, c = JObj o) ->
            exists w, fst (fetch ec r c v s0) = Ret w).
  { intros ec c v s0 [o ->].
    unfold fetch, invoke, bind, modify, ret, dict_get. simpl.
    destruct (get_config r) as [a|e]; simpl; [|eauto].
    destruct (ec && truthy a); simpl; eauto. }
  assert (Hobj : exists o, default (JObj []) (cache_file s) = JObj o).
  { destruct (cache_file s) as [[]|]; simpl in *; try contradiction; eauto. }
  split; [|split; [|split]].
  - intros [|]; unfold read_config; [|apply Hfetch; eauto].
    unfold bind, get, invoke, modify, ret. simpl.
    destruct (get_config_version r) as [v|e]; simpl;
      rewrite (dict_get_cached _ _ _ _ Hwf); [|eauto].
    destruct (String.eqb _ _); [rewrite (dict_get_cached _ _ _ _ Hwf); eauto|].
    apply Hfetch, Hobj.
  - intros e He. unfold read_config, bind, get, invoke, modify, ret. simpl.
    rewrite He. simpl. rewrite (dict_get_cached _ _ _ _ Hwf). simpl.
    split.
    + destruct (cache_file s) as [[]|]; reflexivity.
    + rewrite Hcalls. simpl. intros Hin.
      apply list_elem_of_singleton in Hin. discriminate.
  - intros v Hv Heq. unfold read_config, bind, get, invoke, modify, ret. simpl.
    rewrite Hv. simpl. rewrite (dict_get_cached _ _ _ _ Hwf).
    replace (py_str _ =? py_str v)%string with true.
    + rewrite (dict_get_cached _ _ _ _ Hwf). simpl. split.
      * destruct (cache_file s) as [[]|]; reflexivity.
      * rewrite Hcalls. simpl. intros Hin.
      apply list_elem_of_singleton in Hin. discriminate.
    + symmetry. apply String.eqb_eq. rewrite <- Heq.
      destruct (cache_file s) as [[]|]; reflexivity.
  - intros v e Hv He. unfold read_config, bind, get, invoke, modify, ret. simpl.
    rewrite Hv. simpl. rewrite (dict_get_cached _ _ _ _ Hwf).
    destruct (String.eqb _ _).
    + rewrite (dict_get_cached _ _ _ _ Hwf). simpl.
      destruct (cache_file s) as [[]|]; reflexivity.
    + unfold fetch, invoke, bind, modify, ret. simpl. rewrite He. simpl.
      rewrite (dict_get_cached _ _ _ _ Hwf). simpl.
      destruct (cache_file s) as [[]|]; reflexivity.
Qed.

(** [str()] on the version values the platform sends: strings and ints. *)
Definition version_str (v : json) : string :=
  match v with
  | JStr s => s
  | JInt z => str_of_int z
  | _ => ""
  end.

(** A cache holding version 3 of a rule set, and a platform that cannot be
    reached. *)
Definition cached_rules : state :=
  {| cache_file := Some (JObj [("version", JInt 3);
                               ("value", JObj [("rules", JList [])])]);
     calls := [] |}.

Definition unreachable : remote :=
  {| get_config_version := Raise (OtherError "timeout");
     get_config := Raise (OtherError "timeout") |}.

Lemma read_config_never_raises_witness :
  fst (read_config version_str true unreachable cached_rules)
  = Ret (JObj [("rules", JList [])]).
Proof.
  refine (proj1 (proj1 (proj2 (read_config_never_raises
            version_str unreachable cached_rules _ _)) _ eq_refl)).
  - exact I.
  - reflexivity.
Defined.

(** *** Further properties of [read_config] *)

(** X4. Fetch-through round trip: when the server's version differs from
    the cached one and [get_config()] returns a non-empty value, that value
    is returned and written to the cache with the server's version; a later
    [read_config()] that finds the same version on the server returns it
    from the cache, calling [get_config_version()] alone. *)
Theorem read_config_round_trip :
  forall (py_str : json -> string) (r : remote) (s : state) (v c : json),
    cache_wf (cache_file s) ->
    get_config_version r = Ret v ->
    py_str (cached_version (cache_file s)) <> py_str v ->
    get_config r = Ret c ->
    truthy c = true ->
    let s1 := snd (read_config py_str true r s) in
    fst (read_config py_str true r s) = Ret c
    /\ cache_file s1 = Some (JObj [("version", v); ("value", c)])
    /\ forall (r2 : remote) (v2 : json),
         get_config_version r2 = Ret v2 ->
         py_str v2 = py_str v ->
         fst (read_config py_str true r2 s1) = Ret c
         /\ calls (snd (read_config py_str true r2 s1))
            = (calls s1 ++ [CallGetConfigVersion])%list.
Proof.
  intros py_str r s v c Hwf Hv Hne Hc Ht s1.
  assert (Hrun : read_config py_str true r s
                 = (Ret c, {| cache_file := Some (JObj [("version", v); ("value", c)]);
                              calls := (calls s ++ [CallGetConfigVersion])
                                       ++ [CallGetConfig] |})).
  { unfold read_config, bind, get, invoke, modify, ret. simpl.
    rewrite Hv. simpl. rewrite (dict_get_cached _ _ _ _ Hwf).
    replace (py_str _ =? py_str v)%string with false.
    - unfold fetch, invoke, bind, modify, ret. simpl. rewrite Hc. simpl.
      rewrite Ht. reflexivity.
    - symmetry. apply String.eqb_neq. intros Heq. apply Hne. rewrite <- Heq.
      destruct (cache_file s) as [[]|]; reflexivity. }
  subst s1. rewrite Hrun. cbn [fst snd cache_file]. split; [reflexivity|].
  split; [reflexivity|]. intros r2 v2 Hv2 Heq.
  unfold read_config, bind, get, invoke, modify, ret. simpl.
  rewrite Hv2. simpl. rewrite Heq, String.eqb_refl. simpl.
  split; reflexivity.
Qed.

(** A platform that serves version 4 of the rules. *)
Definition serves_version_4 : remote :=
  {| get_config_version := Ret (JInt 4);
     get_config := Ret (JObj [("rules", JList [JStr "r1"])]) |}.

Lemma read_config_round_trip_witness :
  fst (read_config version_str true serves_version_4 cached_rules)
  = Ret (JObj [("rules", JList [JStr "r1"])]).
Proof.
  refine (proj1 (read_config_round_trip version_str serves_version_4
                   cached_rules (JInt 4) (JObj [("rules", JList [JStr "r1"])])
                   _ _ _ _ _)).
  - exact I.
  - reflexivity.
  - vm_compute. discriminate.
  - reflexivity.
  - reflexivity.
Defined.

(** X5. [read_config()] rewrites the cache file in one case only: the
    cache is enabled, the version check and [get_config()] both return and
    the value is not empty; then the file holds that version and value.
    In every other case, a raise included, the file is left as it was. *)
Theorem read_config_writes_only_fetched_values :
  forall (py_str : json -> string) (enable_cache : bool) (r : remote) (s : state),
    cache_wf (cache_file s) ->
    let s' := snd (read_config py_str enable_cache r s) in
    cache_file s' = cache_file s
    \/ (enable_cache = true
        /\ exists v c, get_config_version r = Ret v
                       /\ get_config r = Ret c
                       /\ truthy c = true
                       /\ cache_file s' = Some (JObj [("version", v); ("value", c)])).
Proof.
  intros py_str enable_cache r s Hwf s'. subst s'.
  assert (Hfetch : forall ec content v s0,
            (exists o, content = JObj o) ->
            cache_file (snd (fetch ec r content v s0)) = cache_file s0
            \/ (ec = true
                /\ exists c, get_config r = Ret c /\ truthy c = true
                             /\ cache_file (snd (fetch ec r content v s0))
                                = Some (JObj [("version", v); ("value", c)]))).
  { intros ec content v s0 [o ->].
    unfold fetch, invoke, bind, modify, ret, dict_get. simpl.
    destruct (get_config r) as [c|e]; simpl; [|left; reflexivity].
    destruct ec; simpl; [|left; reflexivity].
    destruct (truthy c) eqn:Ht; simpl; [|left; reflexivity].
    right. split; [reflexivity|]. exists c. auto. }
  unfold read_config. destruct enable_cache.
  - unfold bind, get, invoke, modify, ret. simpl.
    destruct (get_config_version r) as [v|e] eqn:Hv; simpl.
    + rewrite (dict_get_cached _ _ _ _ Hwf).
      destruct (String.eqb _ _).
      * rewrite (dict_get_cached _ _ _ _ Hwf). left. reflexivity.
      * match goal with
        | |- context [fetch true r ?c v ?s0] =>
            destruct (Hfetch true c v s0) as [H|(_ & c' & Hc' & Ht & H)]
        end.
        -- destruct (cache_file s) as [[]|]; simpl in *; try contradiction; eauto.
        -- left. exact H.
        -- right. split; [reflexivity|]. exists v, c'. auto.
    + rewrite (dict_get_cached _ _ _ _ Hwf). left. reflexivity.
  - destruct (Hfetch false (JObj []) (JStr "-1") s ltac:(eauto))
      as [H|(Hfalse & _)]; [left; exact H | discriminate].
Qed.

Lemma read_config_writes_only_fetched_values_witness :
  cache_file (snd (read_config version_str true unreachable cached_rules))
  = cache_file cached_rules
  \/ (true = true
      /\ exists v c, get_config_version unreachable = Ret v
                     /\ get_config unreachable = Ret c
                     /\ truthy c = true
                     /\ cache_file (snd (read_config version_str true
                                           unreachable cached_rules))
                        = Some (JObj [("version", v); ("value", c)])).
Proof.
  apply (read_config_writes_only_fetched_values version_str true unreachable
           cached_rules).
  exact I.
Defined.

End RemoteConfig.

(** ** cos/core/request_hook.py and cos/utils/uploader.py *)

Module Uploader.

Local Open Scope py_scope.

(** [class NetworkUsage(BaseModel)], the process-wide [network_usage]. *)
Record NetworkUsage : Type := {
  download_bytes : Z;
  upload_bytes : Z
}.

(** The bytes a [read] returns, given by where they start in the file and
    how many they are: the uploader only takes their [len] and hands them
    to [upload_part]. *)
Record chunk : Type := {
  chunk_offset : Z;
  chunk_len : Z
}.

(** An element of the manifest's [parts]. *)
Record part : Type := {
  PartNumber : Z;
  ETag : string
}.

(** The multipart info file written by [_create] and rewritten after every
    part. *)
Record manifest : Type := {
  multipart_id : string;
  current_part_number : Z;
  file : string;
  total_bytes : Z;
  uploaded_bytes : Z;
  part_size : Z;
  parts : list part
}.

(** Calls that leave the uploader, in the order they are made. *)
Inductive event : Type :=
| CreateMultipartUpload
| UploadPart (n : Z) (body : chunk)
| CompleteMultipartUpload (upload_id : string) (ps : list part)
| IncreaseUploadBytes (b : Z)
| IncreaseDownloadBytes (b : Z).

(** The object store and the other threads, as the uploader meets them:
    what each S3 call answers (an upload id; an ETag with the response's
    content-length; the content-length of the completion response), whether
    [stop_event] is found set before part [n], and [len(json.dumps(parts))]. *)
Record env : Type := {
  create_multipart_upload : outcome string;
  upload_part : Z -> chunk -> outcome (string * Z);
  complete_multipart_upload : string -> list part -> outcome Z;
  stop_event_is_set : Z -> bool;
  json_dumps_len : list part -> Z
}.

(** The attributes of an uploader object that [upload] reads. *)
Record uploader : Type := {
  file_path : string;
  part_size_bytes : Z
}.

(** What the uploader shares with the rest of the process and the disk:
    the size of the file at [file_path] ([None] when it does not exist),
    the manifest file ([None] when absent), the network usage counters and
    the calls made so far. *)
Record world : Type := {
  file_size : option Z;
  multipart_info_file : option manifest;
  network_usage : NetworkUsage;
  trace : list event
}.

Definition set_manifest (m : manifest) (w : world) : world :=
  {| file_size := file_size w; multipart_info_file := Some m;
     network_usage := network_usage w; trace := trace w |}.

Definition set_usage (u : NetworkUsage) (w : world) : world :=
  {| file_size := file_size w; multipart_info_file := multipart_info_file w;
     network_usage := u; trace := trace w |}.

Definition emit (e : event) (w : world) : world :=
  {| file_size := file_size w; multipart_info_file := multipart_info_file w;
     network_usage := network_usage w; trace := trace w ++ [e] |}.

(** [request_hook.increase_upload_bytes] *)
Definition increase_upload_bytes (b : Z) : M world unit :=
  modify (fun w => set_usage
            {| download_bytes := download_bytes (network_usage w);
               upload_bytes := upload_bytes (network_usage w) + b |}
            (emit (IncreaseUploadBytes b) w)).

(** [request_hook.increase_download_bytes] *)
Definition increase_download_bytes (b : Z) : M world unit :=
  modify (fun w => set_usage
            {| download_bytes := download_bytes (network_usage w) + b;
               upload_bytes := upload_bytes (network_usage w) |}
            (emit (IncreaseDownloadBytes b) w)).

(** [PART_MINIMUM = int(5e6)] *)
Definition PART_MINIMUM : Z := 5000000.

(** [S3MultipartUploader.__init__], whose assertion rejects small parts;
    the default [part_size_bytes] is [int(6e6)]. *)
Definition init (path : string) (part_size_bytes : Z) : outcome uploader :=
  if part_size_bytes >=? PART_MINIMUM
  then Ret {| file_path := path; part_size_bytes := part_size_bytes |}
  else Raise (OtherError "AssertionError").

(** A botocore [EndpointConnectionError] is re-raised as [ConnectionError]. *)
Definition reraise {A : Type} (e : exn) : M world A :=
  match e with
  | EndpointConnectionError => raise ConnectionError
  | _ => raise e
  end.

Section Upload.

Variable self : uploader.
Variable s3 : env.

(** [S3MultipartUploader._create] *)
Definition _create : M world unit :=
  w <- get ;;
  match multipart_info_file w with
  | Some _ => raise FileExistsError
  | None =>
      modify (emit CreateMultipartUpload) ;;;
      match create_multipart_upload s3 with
      | Raise e => raise e
      | Ret id =>
          match file_size w with
          | None => raise FileNotFoundError
          | Some size =>
              modify (set_manifest
                        {| multipart_id := id; current_part_number := 1;
                           file := file_path self; total_bytes := size;
                           uploaded_bytes := 0;
                           part_size := part_size_bytes self; parts := [] |})
          end
      end
  end.

(** [S3MultipartUploader._complete] *)
Definition _complete (id : string) (ps : list part) : M world unit :=
  modify (emit (CompleteMultipartUpload id ps)) ;;;
  match complete_multipart_upload s3 id ps with
  | Raise e => reraise e
  | Ret res_length =>
      increase_upload_bytes (json_dumps_len s3 ps) ;;;
      increase_download_bytes res_length
  end.

(** The variables of [upload] that the loop updates: the read position of
    [file_to_upload], [parts], [uploaded_bytes], [curr_part_num] and the
    dict [multipart_info]. *)
Record locals : Type := {
  pos : Z;
  l_parts : list part;
  l_uploaded_bytes : Z;
  curr_part_num : Z;
  multipart_info : manifest
}.

(** [file_to_upload.read(n)] at position [p] of a file of [size] bytes. *)
Definition read (size p n : Z) : chunk :=
  {| chunk_offset := p; chunk_len := Z.max 0 (Z.min n (size - p)) |}.

(** The [for curr_part_num in range(...)] loop of [upload], over the part
    numbers still to visit; [break] returns the locals. *)
Fixpoint upload_loop (size : Z) (range : list Z) (loc : locals)
    : M world locals :=
  match range with
  | [] => ret loc
  | n :: range' =>
      let loc := {| pos := pos loc; l_parts := l_parts loc;
                    l_uploaded_bytes := l_uploaded_bytes loc;
                    curr_part_num := n;
                    multipart_info := multipart_info loc |} in
      if stop_event_is_set s3 n then ret loc
      else
        let data := read size (pos loc) (part_size_bytes self) in
        if chunk_len data =? 0 then ret loc
        else
          modify (emit (UploadPart n data)) ;;;
          match upload_part s3 n data with
          | Raise e => reraise e
          | Ret (etag, res_length) =>
              let ps := (l_parts loc ++ [{| PartNumber := n; ETag := etag |}])%list in
              let uploaded := l_uploaded_bytes loc + chunk_len data in
              increase_upload_bytes uploaded ;;;
              increase_download_bytes res_length ;;;
              let info := multipart_info loc in
              let info := {| multipart_id := multipart_id info;
                             current_part_number := n + 1;
                             file := file info;
                             total_bytes := total_bytes info;
                             uploaded_bytes := uploaded;
                             part_size := part_size info;
                             parts := ps |} in
              modify (set_manifest info) ;;;
              upload_loop size range'
                {| pos := pos loc + chunk_len data; l_parts := ps;
                   l_uploaded_bytes := uploaded; curr_part_num := n;
                   multipart_info := info |}
          end
  end.

(** [S3MultipartUploader.upload] *)
Definition upload : M world unit :=
  w <- get ;;
  match file_size w with
  | None => ret tt
  | Some size =>
      (match multipart_info_file w with
       | None => _create
       | Some _ => ret tt
       end) ;;;
      w <- get ;;
      match multipart_info_file w with
      | None => raise FileNotFoundError
      | Some info =>
          let starting_part_num := current_part_number info in
          total_parts <- Codes.floordiv
                           (total_bytes info + part_size_bytes self - 1)
                           (part_size_bytes self) ;;
          let start := if starting_part_num >? 1
                       then (starting_part_num - 1) * part_size_bytes self
                       else 0 in
          loc <- upload_loop size
                   (seqZ starting_part_num (total_parts + 1 - starting_part_num))
                   {| pos := start; l_parts := parts info;
                      l_uploaded_bytes := uploaded_bytes info;
                      curr_part_num := 1; multipart_info := info |} ;;
          if curr_part_num loc =? total_parts
          then _complete (multipart_id info) (l_parts loc)
          else ret tt
      end
  end.

End Upload.

(** *** Scenario S-5: a 15 MB file uploaded in 6 MB parts *)

Definition s5_uploader : uploader :=
  {| file_path := "/data/run.bag"; part_size_bytes := 6000000 |}.

(** An object store that accepts every call, and one whose endpoint is lost
    when part [n] is sent. *)
Definition s3_reachable : env :=
  {| create_multipart_upload := Ret "upload-1";
     upload_part := fun n _ => Ret (String.append "etag-" (str_of_int n), 0);
     complete_multipart_upload := fun _ _ => Ret 0;
     stop_event_is_set := fun _ => false;
     json_dumps_len := fun ps => 40 * Z.of_nat (length ps) |}.

Definition s3_lost_at (n : Z) : env :=
  {| create_multipart_upload := Ret "upload-1";
     upload_part := fun k _ => if k =? n then Raise EndpointConnectionError
                               else Ret (String.append "etag-" (str_of_int k), 0);
     complete_multipart_upload := fun _ _ => Ret 0;
     stop_event_is_set := fun _ => false;
     json_dumps_len := fun ps => 40 * Z.of_nat (length ps) |}.

(** A process that finds the file and, possibly, a manifest on disk. *)
Definition started (size : Z) (info : option manifest) : world :=
  {| file_size := Some size; multipart_info_file := info;
     network_usage := {| download_bytes := 0; upload_bytes := 0 |};
     trace := [] |}.

(** The first run of S-5, interrupted while sending part 3. *)
Definition s5_interrupted : world :=
  snd (upload s5_uploader (s3_lost_at 3) (started 15000000 None)).

(** The run restarted on the manifest the first one left. *)
Definition s5_restarted : outcome unit * world :=
  upload s5_uploader s3_reachable
    (started 15000000 (multipart_info_file s5_interrupted)).

(** The [PartNumber]s listed by a manifest file, in order. *)
Definition part_numbers (m : option manifest) : option (list Z) :=
  option_map (fun info => List.map PartNumber (parts info)) m.

(** *** Properties of the uploader *)

Lemma seqZ_of_nat_S (a : Z) (k : nat) :
  seqZ a (Z.of_nat (S k)) = a :: seqZ (a + 1) (Z.of_nat k).
Proof.
  rewrite seqZ_cons by lia. f_equal. f_equal; lia.
Qed.

Lemma seqZ_to_nat (a len : Z) : seqZ a len = seqZ a (Z.of_nat (Z.to_nat len)).
Proof. unfold seqZ. rewrite Nat2Z.id. reflexivity. Qed.

(** Every part the loop sends over the part numbers [a, a+1, ...] carries a
    number from [a] on and the bytes found at [(n - 1) * part_size_bytes],
    provided the file is positioned there or at its end when the loop
    starts. *)
Lemma upload_loop_parts (self : uploader) (s3 : env) (size : Z) :
  0 < part_size_bytes self ->
  forall (k : nat) (a : Z) (loc : locals) (w : world),
    pos loc = (a - 1) * part_size_bytes self \/ size <= pos loc ->
    forall n body,
      UploadPart n body ∈ trace (snd (upload_loop self s3 size
                                        (seqZ a (Z.of_nat k)) loc w)) ->
      UploadPart n body ∈ trace w
      \/ (a <= n /\ chunk_offset body = (n - 1) * part_size_bytes self).
Proof.
  intros Hps. induction k as [|k IH]; intros a loc w Hpos n body Hin.
  - left. exact Hin.
  - rewrite seqZ_of_nat_S in Hin. cbn [upload_loop] in Hin.
    destruct (stop_event_is_set s3 a); [left; exact Hin|].
    cbn [pos] in Hin.
    remember (read size (pos loc) (part_size_bytes self)) as data eqn:Hdata.
    destruct (chunk_len data =? 0) eqn:Hlen; [left; exact Hin|].
    apply Z.eqb_neq in Hlen.
    assert (Hoff : chunk_offset data = (a - 1) * part_size_bytes self).
    { subst data. cbn in *. destruct Hpos as [Hpos|Hpos]; [exact Hpos|lia]. }
    assert (Hnext : pos loc + chunk_len data = (a + 1 - 1) * part_size_bytes self
                    \/ size <= pos loc + chunk_len data).
    { subst data. cbn in *. destruct Hpos as [Hpos|Hpos]; lia. }
    unfold bind at 1, modify at 1 in Hin.
    destruct (upload_part s3 a data) as [[etag res_length]|e].
    + unfold increase_upload_bytes, increase_download_bytes,
        bind, modify in Hin.
      apply IH in Hin; [|exact Hnext].
      destruct Hin as [Hin|[Hle Ho]]; [|right; split; [lia|exact Ho]].
      cbn in Hin. rewrite !elem_of_app, !list_elem_of_singleton in Hin.
      destruct Hin as [[[Hin|Hin]|Hin]|Hin]; try discriminate.
      * left; exact Hin.
      * injection Hin as -> ->. right. split; [lia|exact Hoff].
    + assert (Ht : trace (snd (reraise (A:=locals) e (emit (UploadPart a data) w)))
                   = (trace w ++ [UploadPart a data])%list)
        by (destruct e; reflexivity).
      rewrite Ht in Hin.
      rewrite elem_of_app, list_elem_of_singleton in Hin.
      destruct Hin as [Hin|Hin]; [left; exact Hin|].
      injection Hin as -> ->. right. split; [lia|exact Hoff].
Qed.

Lemma complete_sends_no_part (s3 : env) (id : string) (ps : list part)
    (w : world) (n : Z) (body : chunk) :
  UploadPart n body ∈ trace (snd (_complete s3 id ps w)) ->
  UploadPart n body ∈ trace w.
Proof.
  unfold _complete, bind, modify, increase_upload_bytes, increase_download_bytes.
  destruct (complete_multipart_upload s3 id ps) as [res|e].
  - cbn. rewrite !elem_of_app, !list_elem_of_singleton.
    intros [[[H|H]|H]|H]; try discriminate; exact H.
  - assert (Ht : trace (snd (reraise (A:=unit) e
                               (emit (CompleteMultipartUpload id ps) w)))
                 = (trace w ++ [CompleteMultipartUpload id ps])%list)
      by (destruct e; reflexivity).
    rewrite Ht, elem_of_app, list_elem_of_singleton.
    intros [H|H]; try discriminate; exact H.
Qed.

(** C7. With a manifest on disk, [upload()] only sends parts numbered from
    the manifest's [current_part_number] on, each read at
    [(PartNumber - 1) * part_size]; in scenario S-5 the interrupted run
    leaves parts 1 and 2 in the manifest, and the restarted run sends part 3
    alone, completes with parts 1, 2, 3 in that order and leaves
    [uploaded_bytes = 15000000] in the manifest. *)
Theorem upload_resumes_from_manifest :
  (forall (self : uploader) (s3 : env) (w : world) (size : Z) (info : manifest),
      file_size w = Some size ->
      multipart_info_file w = Some info ->
      1 <= current_part_number info ->
      0 < part_size_bytes self ->
      trace w = [] ->
      forall n body,
        UploadPart n body ∈ trace (snd (upload self s3 w)) ->
        current_part_number info <= n
        /\ chunk_offset body = (n - 1) * part_size_bytes self)
  /\ (part_numbers (multipart_info_file s5_interrupted) = Some [1; 2]
      /\ current_part_number <$> multipart_info_file s5_interrupted = Some 3
      /\ fst s5_restarted = Ret tt
      /\ trace (snd s5_restarted)
         = [UploadPart 3 {| chunk_offset := 12000000; chunk_len := 3000000 |};
            IncreaseUploadBytes 15000000; IncreaseDownloadBytes 0;
            CompleteMultipartUpload "upload-1"
              [{| PartNumber := 1; ETag := "etag-1" |};
               {| PartNumber := 2; ETag := "etag-2" |};
               {| PartNumber := 3; ETag := "etag-3" |}];
            IncreaseUploadBytes 120; IncreaseDownloadBytes 0]
      /\ part_numbers (multipart_info_file (snd s5_restarted))
         = Some [1; 2; 3]
      /\ uploaded_bytes <$> multipart_info_file (snd s5_restarted)
         = Some 15000000).
Proof.
  split.
  - intros self s3 w size info Hsize Hinfo Hk Hps Htrace n body.
    unfold upload, bind at 1, get at 1. rewrite Hsize, Hinfo.
    unfold bind at 1, ret at 1, bind at 1, get at 1. rewrite Hinfo.
    unfold Codes.floordiv.
    replace (part_size_bytes self =? 0) with false by (symmetry; apply Z.eqb_neq; lia).
    unfold bind at 1, ret at 1. rewrite seqZ_to_nat.
    set (total := (total_bytes info + part_size_bytes self - 1) / part_size_bytes self).
    set (loc0 := {| pos := _; l_parts := _; l_uploaded_bytes := _;
                    curr_part_num := _; multipart_info := _ |}).
    pose proof (upload_loop_parts self s3 size Hps
                  (Z.to_nat (total + 1 - current_part_number info))
                  (current_part_number info) loc0 w) as Hloop.
    unfold bind.
    destruct (upload_loop self s3 size _ loc0 w) as [[loc|e] w1] eqn:Hrun;
      cbn [snd] in Hloop.
    + assert (Hstart : pos loc0 = (current_part_number info - 1) * part_size_bytes self
                       \/ size <= pos loc0).
      { left. subst loc0. cbn. destruct (current_part_number info >? 1) eqn:Hgt;
          [reflexivity|]. rewrite Z.gtb_ltb in Hgt. apply Z.ltb_ge in Hgt.
        replace (current_part_number info) with 1 by lia. lia. }
      intros Hin.
      assert (Hw1 : UploadPart n body ∈ trace w1).
      { destruct (curr_part_num loc =? total); [|exact Hin].
        eapply complete_sends_no_part. exact Hin. }
      destruct (Hloop Hstart n body Hw1) as [Hin0|Hok]; [|exact Hok].
      rewrite Htrace in Hin0. apply elem_of_nil in Hin0. contradiction.
    + intros Hin. cbn [snd] in Hin.
      assert (Hstart : pos loc0 = (current_part_number info - 1) * part_size_bytes self
                       \/ size <= pos loc0).
      { left. subst loc0. cbn. destruct (current_part_number info >? 1) eqn:Hgt;
          [reflexivity|]. rewrite Z.gtb_ltb in Hgt. apply Z.ltb_ge in Hgt.
        replace (current_part_number info) with 1 by lia. lia. }
      destruct (Hloop Hstart n body Hin) as [Hin0|Hok]; [|exact Hok].
      rewrite Htrace in Hin0. apply elem_of_nil in Hin0. contradiction.
  - vm_compute. repeat split; reflexivity.
Qed.

(** The hypotheses of C7 hold for the restarted run of S-5, whose only
    part is number 3, read at byte 12000000. *)
Lemma upload_resumes_from_manifest_witness :
  3 <= 3 /\ 12000000 = (3 - 1) * part_size_bytes s5_uploader.
Proof.
  refine (proj1 upload_resumes_from_manifest s5_uploader s3_reachable
            (started 15000000 (multipart_info_file s5_interrupted))
            15000000
            {| multipart_id := "upload-1"; current_part_number := 3;
               file := "/data/run.bag"; total_bytes := 15000000;
               uploaded_bytes := 12000000; part_size := 6000000;
               parts := [{| PartNumber := 1; ETag := "etag-1" |};
                         {| PartNumber := 2; ETag := "etag-2" |}] |}
            _ _ _ _ _ 3
            {| chunk_offset := 12000000; chunk_len := 3000000 |} _).
  - reflexivity.
  - vm_compute. reflexivity.
  - simpl. lia.
  - simpl. lia.
  - reflexivity.
  - vm_compute. apply list_elem_of_here.
Defined.

(** C4, on the code: in an uninterrupted upload of the 15 MB file the three
    parts carry 6000000, 6000000 and 3000000 bytes, but the per-part calls
    of [increase_upload_bytes] pass the running totals 6000000, 12000000
    and 15000000, so the counter ends at 33000000 plus the length of the
    completion request instead of 15000000 plus that length. *)
Theorem upload_counts_running_total_per_part :
  let run := upload s5_uploader s3_reachable (started 15000000 None) in
  fst run = Ret tt
  /\ trace (snd run)
     = [CreateMultipartUpload;
        UploadPart 1 {| chunk_offset := 0; chunk_len := 6000000 |};
        IncreaseUploadBytes 6000000; IncreaseDownloadBytes 0;
        UploadPart 2 {| chunk_offset := 6000000; chunk_len := 6000000 |};
        IncreaseUploadBytes 12000000; IncreaseDownloadBytes 0;
        UploadPart 3 {| chunk_offset := 12000000; chunk_len := 3000000 |};
        IncreaseUploadBytes 15000000; IncreaseDownloadBytes 0;
        CompleteMultipartUpload "upload-1"
          [{| PartNumber := 1; ETag := "etag-1" |};
           {| PartNumber := 2; ETag := "etag-2" |};
           {| PartNumber := 3; ETag := "etag-3" |}];
        IncreaseUploadBytes 120; IncreaseDownloadBytes 0]
  /\ upload_bytes (network_usage (snd run)) = 33000000 + 120.
Proof. vm_compute. repeat split; reflexivity. Qed.

(** *** Further properties of the uploader *)

(** The locals and the manifest after part [n] went through with [etag],
    as [upload_loop] computes them. *)
Definition after_part (self : uploader) (size n : Z) (etag : string) (loc : locals)
    : locals * manifest :=
  let data := read size (pos loc) (part_size_bytes self) in
  let ps := (l_parts loc ++ [{| PartNumber := n; ETag := etag |}])%list in
  let uploaded := l_uploaded_bytes loc + chunk_len data in
  let info := {| multipart_id := multipart_id (multipart_info loc);
                 current_part_number := n + 1;
                 file := file (multipart_info loc);
                 total_bytes := total_bytes (multipart_info loc);
                 uploaded_bytes := uploaded;
                 part_size := part_size (multipart_info loc);
                 parts := ps |} in
  ({| pos := pos loc + chunk_len data; l_parts := ps;
      l_uploaded_bytes := uploaded; curr_part_num := n;
      multipart_info := info |}, info).

(** The locals [upload] enters its loop with. *)
Definition loop_entry (self : uploader) (info : manifest) : locals :=
  {| pos := if current_part_number info >? 1
            then (current_part_number info - 1) * part_size_bytes self
            else 0;
     l_parts := parts info; l_uploaded_bytes := uploaded_bytes info;
     curr_part_num := 1; multipart_info := info |}.

(** The manifest [_create] writes. *)
Definition created (self : uploader) (size : Z) (id : string) : manifest :=
  {| multipart_id := id; current_part_number := 1; file := file_path self;
     total_bytes := size; uploaded_bytes := 0;
     part_size := part_size_bytes self; parts := [] |}.

(** An invariant [P] of the loop's locals, kept by every part that goes
    through, carries a property [Q] of the manifest file to the end of the
    loop, however it ends. *)
Lemma upload_loop_manifest (self : uploader) (s3 : env) (size : Z)
    (P : Z -> locals -> Prop) (Q : option manifest -> Prop) :
  (forall a loc etag,
      P a loc ->
      chunk_len (read size (pos loc) (part_size_bytes self)) <> 0 ->
      P (a + 1) (fst (after_part self size a etag loc))
      /\ Q (Some (snd (after_part self size a etag loc)))) ->
  (forall a loc c, P a loc ->
     P a {| pos := pos loc; l_parts := l_parts loc;
            l_uploaded_bytes := l_uploaded_bytes loc; curr_part_num := c;
            multipart_info := multipart_info loc |}) ->
  forall (k : nat) (a : Z) (loc : locals) (w : world),
    P a loc ->
    Q (multipart_info_file w) ->
    Q (multipart_info_file
         (snd (upload_loop self s3 size (seqZ a (Z.of_nat k)) loc w))).
Proof.
  intros Hstep Hcurr. induction k as [|k IH]; intros a loc w HP HQ.
  - exact HQ.
  - rewrite seqZ_of_nat_S. cbn [upload_loop].
    destruct (stop_event_is_set s3 a); [exact HQ|]. cbn [pos].
    destruct (chunk_len (read size (pos loc) (part_size_bytes self)) =? 0) eqn:Hlen;
      [exact HQ|].
    apply Z.eqb_neq in Hlen.
    unfold bind at 1, modify at 1.
    destruct (upload_part s3 a _) as [[etag res_length]|e].
    + unfold increase_upload_bytes, increase_download_bytes, bind, modify.
      destruct (Hstep a loc etag HP Hlen) as [HP' HQ'].
      apply (IH (a + 1) (fst (after_part self size a etag loc))); [exact HP'|].
      exact HQ'.
    + destruct e; exact HQ.
Qed.

(** The same for the whole of [upload], started on a manifest that
    satisfies [Q] or on none. *)
Lemma upload_manifest (self : uploader) (s3 : env) (size : Z)
    (P : Z -> locals -> Prop) (Q : option manifest -> Prop) :
  (forall a loc etag,
      P a loc ->
      chunk_len (read size (pos loc) (part_size_bytes self)) <> 0 ->
      P (a + 1) (fst (after_part self size a etag loc))
      /\ Q (Some (snd (after_part self size a etag loc)))) ->
  (forall a loc c, P a loc ->
     P a {| pos := pos loc; l_parts := l_parts loc;
            l_uploaded_bytes := l_uploaded_bytes loc; curr_part_num := c;
            multipart_info := multipart_info loc |}) ->
  (forall info, Q (Some info) -> P (current_part_number info) (loop_entry self info)) ->
  forall (w : world),
    file_size w = Some size ->
    (multipart_info_file w = None -> forall id, Q (Some (created self size id))) ->
    Q (multipart_info_file w) ->
    Q (multipart_info_file (snd (upload self s3 w))).
Proof.
  intros Hstep Hcurr Hstart w Hsize Hfresh HQ.
  unfold upload, bind at 1, get at 1. rewrite Hsize.
  unfold bind at 1.
  assert (Hcreated :
    (exists w1, (match multipart_info_file w with
                 | Some _ => ret tt
                 | None => _create self s3
                 end) w = (Ret tt, w1) /\ Q (multipart_info_file w1))
    \/ exists e w1, (match multipart_info_file w with
                     | Some _ => ret tt
                     | None => _create self s3
                     end) w = (Raise e, w1) /\ Q (multipart_info_file w1)).
  { destruct (multipart_info_file w) as [info|] eqn:Hinfo.
    - left. exists w. split; [reflexivity|]. rewrite Hinfo. exact HQ.
    - unfold _create, bind, get, modify, ret, raise. rewrite Hinfo. cbn.
      destruct (create_multipart_upload s3) as [id|e]; cbn.
      + rewrite Hsize. cbn. left. eexists. split; [reflexivity|]. cbn.
        apply (Hfresh eq_refl).
      + right. eexists _, _. split; [reflexivity|]. cbn. rewrite Hinfo.
        exact HQ. }
  destruct Hcreated as [(w1 & -> & HQ1)|(e & w1 & -> & HQ1)]; [|exact HQ1].
  unfold bind at 1, get at 1.
  destruct (multipart_info_file w1) as [info|] eqn:Hinfo;
    [|cbn; rewrite Hinfo; exact HQ1].
  unfold Codes.floordiv.
  destruct (part_size_bytes self =? 0); [cbn; rewrite Hinfo; exact HQ1|].
  unfold bind at 1, ret at 1. rewrite seqZ_to_nat.
  set (total := (total_bytes info + part_size_bytes self - 1) / part_size_bytes self).
  pose proof (upload_loop_manifest self s3 size P Q Hstep Hcurr
                (Z.to_nat (total + 1 - current_part_number info))
                (current_part_number info) (loop_entry self info) w1
                (Hstart info HQ1)) as Hloop.
  rewrite Hinfo in Hloop. specialize (Hloop HQ1).
  unfold bind. fold (loop_entry self info).
  destruct (upload_loop self s3 size _ (loop_entry self info) w1) as [[loc|e] w2];
    cbn [snd] in *; [|exact Hloop].
  destruct (curr_part_num loc =? total); [|exact Hloop].
  unfold _complete, bind, modify, increase_upload_bytes, increase_download_bytes.
  destruct (complete_multipart_upload s3 _ _) as [res|e]; [exact Hloop|].
  destruct e; exact Hloop.
Qed.

(** A manifest counts its parts from 1 without a gap, and its
    [uploaded_bytes] is the length of the file covered by them. *)
Definition manifest_ok (part_size size : Z) (m : manifest) : Prop :=
  1 <= current_part_number m
  /\ List.map PartNumber (parts m) = seqZ 1 (current_part_number m - 1)
  /\ uploaded_bytes m = Z.min ((current_part_number m - 1) * part_size) size.

(** X6. Whatever the object store and the stop event do, [upload()] on a
    file of constant size leaves a manifest whose parts are numbered 1, 2,
    ... without a gap up to [current_part_number - 1] and whose
    [uploaded_bytes] is the number of bytes of the file those parts cover,
    provided the manifest it starts from, if any, is such a manifest. *)
Theorem upload_keeps_manifest_ok :
  forall (self : uploader) (s3 : env) (w : world) (size : Z),
    file_size w = Some size ->
    0 <= size ->
    0 < part_size_bytes self ->
    (forall m, multipart_info_file w = Some m ->
               manifest_ok (part_size_bytes self) size m) ->
    forall m', multipart_info_file (snd (upload self s3 w)) = Some m' ->
               manifest_ok (part_size_bytes self) size m'.
Proof.
  intros self s3 w size Hsize Hnn Hps Hok.
  set (ps := part_size_bytes self) in *.
  apply (upload_manifest self s3 size
           (fun a loc =>
              1 <= a
              /\ List.map PartNumber (l_parts loc) = seqZ 1 (a - 1)
              /\ l_uploaded_bytes loc = Z.min ((a - 1) * ps) size
              /\ (pos loc = (a - 1) * ps \/ size <= pos loc))
           (fun o => forall m, o = Some m -> manifest_ok ps size m)).
  - intros a loc etag (Ha & Hparts & Hup & Hpos) Hlen.
    unfold after_part. cbn [fst snd pos l_parts l_uploaded_bytes].
    fold ps. cbn [read chunk_len] in *. fold ps in Hlen.
    assert (Hp : pos loc = (a - 1) * ps) by (destruct Hpos; [assumption|lia]).
    assert (Hparts' : List.map PartNumber
                        (l_parts loc ++ [{| PartNumber := a; ETag := etag |}])
                      = seqZ 1 (a + 1 - 1)).
    { rewrite List.map_app, Hparts. cbn [List.map PartNumber].
      replace (a + 1 - 1) with ((a - 1) + 1) by lia.
      rewrite seqZ_app by lia. change (seqZ (1 + (a - 1)) 1) with [1 + (a - 1)].
      f_equal. f_equal. lia. }
    split.
    + split; [lia|]. split; [exact Hparts'|]. split; lia.
    + intros m [= <-]. unfold manifest_ok. cbn.
      split; [lia|]. split; [exact Hparts'|]. lia.
  - intros a loc c H. exact H.
  - intros info HQ. destruct (HQ info eq_refl) as (H1 & Hparts & Hup).
    unfold loop_entry. cbn. fold ps. split; [exact H1|]. split; [exact Hparts|].
    split; [exact Hup|]. left.
    destruct (current_part_number info >? 1) eqn:Hgt; [reflexivity|].
    rewrite Z.gtb_ltb in Hgt. apply Z.ltb_ge in Hgt.
    replace (current_part_number info) with 1 by lia. reflexivity.
  - exact Hsize.
  - intros _ id m [= <-]. unfold manifest_ok, created. cbn. fold ps.
    split; [lia|]. split; [reflexivity|]. lia.
  - exact Hok.
Qed.

Lemma upload_keeps_manifest_ok_witness :
  manifest_ok 6000000 15000000
    {| multipart_id := "upload-1"; current_part_number := 3;
       file := "/data/run.bag"; total_bytes := 15000000;
       uploaded_bytes := 12000000; part_size := 6000000;
       parts := [{| PartNumber := 1; ETag := "etag-1" |};
                 {| PartNumber := 2; ETag := "etag-2" |}] |}.
Proof.
  apply (upload_keeps_manifest_ok s5_uploader (s3_lost_at 3)
           (started 15000000 None) 15000000).
  - reflexivity.
  - lia.
  - reflexivity.
  - intros m. discriminate.
  - vm_compute. reflexivity.
Defined.

(** X7. [upload()] never drops or rewrites what a manifest records: the
    manifest it leaves has the same [multipart_id], [file], [total_bytes]
    and [part_size], the old parts as a prefix of its parts, and an
    [uploaded_bytes] and a [current_part_number] that did not decrease. *)
Theorem upload_only_extends_manifest :
  forall (self : uploader) (s3 : env) (w : world) (m : manifest),
    multipart_info_file w = Some m ->
    exists m', multipart_info_file (snd (upload self s3 w)) = Some m'
               /\ multipart_id m' = multipart_id m
               /\ file m' = file m
               /\ total_bytes m' = total_bytes m
               /\ part_size m' = part_size m
               /\ (exists added, parts m' = (parts m ++ added)%list)
               /\ uploaded_bytes m <= uploaded_bytes m'
               /\ current_part_number m <= current_part_number m'.
Proof.
  intros self s3 w m Hm.
  set (R := fun (id : string) (f : string) (tb psz : Z) (ps : list part) (ub cp : Z) =>
              id = multipart_id m /\ f = file m /\ tb = total_bytes m
              /\ psz = part_size m
              /\ (exists added, ps = (parts m ++ added)%list)
              /\ uploaded_bytes m <= ub /\ current_part_number m <= cp).
  set (Q := fun o : option manifest =>
              exists m', o = Some m'
                         /\ R (multipart_id m') (file m') (total_bytes m')
                              (part_size m') (parts m') (uploaded_bytes m')
                              (current_part_number m')).
  assert (HQ0 : Q (Some m)).
  { exists m. split; [reflexivity|]. unfold R. repeat split; try lia.
    exists []. rewrite app_nil_r. reflexivity. }
  assert (Hgoal : Q (multipart_info_file (snd (upload self s3 w)))).
  { destruct (file_size w) as [size|] eqn:Hsize.
    - apply (upload_manifest self s3 size
               (fun a loc =>
                  R (multipart_id (multipart_info loc)) (file (multipart_info loc))
                    (total_bytes (multipart_info loc))
                    (part_size (multipart_info loc)) (l_parts loc)
                    (l_uploaded_bytes loc) a) Q).
      + intros a loc etag (Hid & Hf & Htb & Hpsz & [added Hadd] & Hub & Hcp) Hlen.
        unfold after_part. cbn [fst snd]. cbn [read chunk_len] in *.
        assert (Hnew : R (multipart_id (multipart_info loc))
                         (file (multipart_info loc))
                         (total_bytes (multipart_info loc))
                         (part_size (multipart_info loc))
                         (l_parts loc ++ [{| PartNumber := a; ETag := etag |}])%list
                         (l_uploaded_bytes loc
                          + Z.max 0 (Z.min (part_size_bytes self) (size - pos loc)))
                         (a + 1)).
        { unfold R. split; [exact Hid|]. split; [exact Hf|]. split; [exact Htb|].
          split; [exact Hpsz|]. split; [|lia].
          exists (added ++ [{| PartNumber := a; ETag := etag |}])%list.
          rewrite Hadd, <- app_assoc. reflexivity. }
        split; [exact Hnew|]. eexists. split; [reflexivity|]. exact Hnew.
      + intros a loc c H. exact H.
      + intros info (m' & [= <-] & H). unfold loop_entry. cbn. exact H.
      + exact Hsize.
      + intros Hnone. rewrite Hm in Hnone. discriminate.
      + rewrite Hm. exact HQ0.
    - unfold upload, bind, get. rewrite Hsize. cbn. rewrite Hm. exact HQ0. }
  destruct Hgoal as (m' & Hm' & H). exists m'. split; [exact Hm'|]. exact H.
Qed.

Lemma upload_only_extends_manifest_witness :
  exists m', multipart_info_file (snd s5_restarted) = Some m'
             /\ multipart_id m' = "upload-1"
             /\ file m' = "/data/run.bag"
             /\ total_bytes m' = 15000000
             /\ part_size m' = 6000000
             /\ (exists added,
                    parts m' = ([{| PartNumber := 1; ETag := "etag-1" |};
                                 {| PartNumber := 2; ETag := "etag-2" |}]
                                ++ added)%list)
             /\ 12000000 <= uploaded_bytes m'
             /\ 3 <= current_part_number m'.
Proof.
  apply (upload_only_extends_manifest s5_uploader s3_reachable
           (started 15000000 (multipart_info_file s5_interrupted))
           {| multipart_id := "upload-1"; current_part_number := 3;
              file := "/data/run.bag"; total_bytes := 15000000;
              uploaded_bytes := 12000000; part_size := 6000000;
              parts := [{| PartNumber := 1; ETag := "etag-1" |};
                        {| PartNumber := 2; ETag := "etag-2" |}] |}).
  vm_compute. reflexivity.
Defined.

(** X8. When the stop event is found set before the last outstanding part,
    [upload()] sends no part, leaves the manifest as it is, and still calls
    [complete_multipart_upload] with the parts recorded so far: the loop
    variable already equals [total_parts] at the [break]. *)
Theorem upload_paused_before_last_part_completes :
  forall (self : uploader) (s3 : env) (w : world) (size : Z) (info : manifest),
    file_size w = Some size ->
    multipart_info_file w = Some info ->
    part_size_bytes self <> 0 ->
    current_part_number info
    = (total_bytes info + part_size_bytes self - 1) / part_size_bytes self ->
    stop_event_is_set s3 (current_part_number info) = true ->
    multipart_info_file (snd (upload self s3 w)) = Some info
    /\ exists rest,
         trace (snd (upload self s3 w))
         = (trace w
            ++ CompleteMultipartUpload (multipart_id info) (parts info) :: rest)%list
         /\ forall n body, UploadPart n body ∉ rest.
Proof.
  intros self s3 w size info Hsize Hinfo Hps Hlast Hstop.
  assert (Heq : upload self s3 w
                = _complete s3 (multipart_id info) (parts info) w).
  { unfold upload, bind at 1, get at 1. rewrite Hsize, Hinfo.
    unfold bind at 1, ret at 1, bind at 1, get at 1. rewrite Hinfo.
    unfold Codes.floordiv.
    replace (part_size_bytes self =? 0) with false
      by (symmetry; apply Z.eqb_neq; exact Hps).
    unfold bind at 1, ret at 1. rewrite <- Hlast.
    replace (current_part_number info + 1 - current_part_number info) with 1 by lia.
    change (seqZ (current_part_number info) 1) with [current_part_number info].
    cbn [upload_loop]. rewrite Hstop. unfold bind at 1, ret at 1.
    cbn [curr_part_num l_parts]. rewrite Z.eqb_refl. reflexivity. }
  rewrite Heq.
  unfold _complete, bind, modify, increase_upload_bytes, increase_download_bytes.
  destruct (complete_multipart_upload s3 _ _) as [res|e].
  - cbn. split; [exact Hinfo|]. eexists. rewrite <- !app_assoc. cbn.
    split; [reflexivity|]. intros n body Hin.
    rewrite !elem_of_cons, elem_of_nil in Hin.
    destruct Hin as [Hin|[Hin|[]]]; discriminate.
  - assert (Hr : snd (reraise (A:=unit) e
                        (emit (CompleteMultipartUpload (multipart_id info)
                                 (parts info)) w))
                 = emit (CompleteMultipartUpload (multipart_id info) (parts info)) w)
      by (destruct e; reflexivity).
    rewrite Hr. cbn. split; [exact Hinfo|]. exists [].
    split; [reflexivity|]. intros n body Hin. apply elem_of_nil in Hin. contradiction.
Qed.

(** A pause requested while part 3, the last one, is outstanding. *)
Definition s3_paused_at (n : Z) : env :=
  {| create_multipart_upload := Ret "upload-1";
     upload_part := fun k _ => Ret (String.append "etag-" (str_of_int k), 0);
     complete_multipart_upload := fun _ _ => Ret 0;
     stop_event_is_set := fun k => k =? n;
     json_dumps_len := fun ps => 40 * Z.of_nat (length ps) |}.

Lemma upload_paused_before_last_part_completes_witness :
  exists rest,
    trace (snd (upload s5_uploader (s3_paused_at 3)
                  (started 15000000 (multipart_info_file s5_interrupted))))
    = ([] ++ CompleteMultipartUpload "upload-1"
               [{| PartNumber := 1; ETag := "etag-1" |};
                {| PartNumber := 2; ETag := "etag-2" |}] :: rest)%list
    /\ forall n body, UploadPart n body ∉ rest.
Proof.
  refine (proj2 (upload_paused_before_last_part_completes s5_uploader
                   (s3_paused_at 3)
                   (started 15000000 (multipart_info_file s5_interrupted))
                   15000000
                   {| multipart_id := "upload-1"; current_part_number := 3;
                      file := "/data/run.bag"; total_bytes := 15000000;
                      uploaded_bytes := 12000000; part_size := 6000000;
                      parts := [{| PartNumber := 1; ETag := "etag-1" |};
                                {| PartNumber := 2; ETag := "etag-2" |}] |}
                   _ _ _ _ _)).
  - reflexivity.
  - vm_compute. reflexivity.
  - discriminate.
  - reflexivity.
  - reflexivity.
Defined.

End Uploader.

(** ** cos/core/models.py *)

Module Models.

Local Open Scope py_scope.

(** *** [pathlib.PurePosixPath], as far as the models use it *)

(** The text between the slashes of [s]. *)
Fixpoint split_slash (cur s : string) : list string :=
  match s with
  | EmptyString => [cur]
  | String c s' =>
      if Ascii.eqb c "/" then cur :: split_slash "" s'
      else split_slash (String.append cur (String c "")) s'
  end.

(** A parsed path: the root (["/"], ["//"] or none) and the components,
    empty and ["."] components dropped. *)
Record Path : Type := {
  root : string;
  tail : list string
}.

Definition Path_of_str (s : string) : Path :=
  {| root := if String.prefix "/" s
             then if String.prefix "//" s && negb (String.prefix "///" s)
                  then "//" else "/"
             else "";
     tail := List.filter (fun x => negb (String.eqb x "") && negb (String.eqb x "."))
               (split_slash "" s) |}.

(** [str(path)] *)
Definition Path_str (p : Path) : string :=
  let s := String.append (root p) (String.concat "/" (tail p)) in
  if String.eqb s "" then "." else s.

(** [path.name] *)
Definition Path_name (p : Path) : string := List.last (tail p) "".

(** [path.parent] *)
Definition Path_parent (p : Path) : Path :=
  {| root := root p; tail := removelast (tail p) |}.

(** [base / name] *)
Definition Path_join (base : Path) (name : string) : Path :=
  if String.prefix "/" name then Path_of_str name
  else {| root := root base; tail := tail base ++ tail (Path_of_str name) |}.

(** The position of the last ["."] of [name], counted from its end, when
    it starts a suffix: not in a name that ends with the dot and not at a
    leading dot. *)
Fixpoint suffix_length (rev_name : list ascii) (n : nat) : option nat :=
  match rev_name with
  | [] => None
  | c :: rest =>
      if Ascii.eqb c "."
      then match rest, n with
           | [], _ => None
           | _, O => None
           | _, _ => Some (S n)
           end
      else suffix_length rest (S n)
  end.

(** [path.stem]-like cut used by [os.path.splitext] and [with_suffix]:
    the name without its last suffix. *)
Definition stem (name : string) : string :=
  match suffix_length (rev (list_ascii_of_string name)) 0 with
  | Some k => String.substring 0 (String.length name - k) name
  | None => name
  end.

(** [path.with_suffix(suffix)] on a path with a name. *)
Definition Path_with_suffix (p : Path) (suffix : string) : Path :=
  {| root := root p;
     tail := removelast (tail p) ++ [String.append (stem (Path_name p)) suffix] |}.

Global Instance Path_eq_dec : EqDecision Path.
Proof. solve_decision. Defined.

(** *** The models *)

(** [class FileInfo(BaseModel)] *)
Record FileInfo : Type := {
  filepath : Path;
  filename : option string;
  size : option Z;
  sha256 : option string
}.

(** [FileInfo(filepath=f)] for a [str]: the [filepath_to_path] validator
    parses it and [set_filename] fills the missing name. *)
Definition FileInfo_of_str (f : string) : FileInfo :=
  let p := Path_of_str f in
  {| filepath := p; filename := Some (Path_name p); size := None; sha256 := None |}.

(** [class Task(BaseModel)] *)
Record Task : Type := {
  task_title : string;
  task_description : string;
  task_record_name : string;
  assignee : option string
}.

(** [class Moment(BaseModel)] *)
Record Moment : Type := {
  title : string;
  description : string;
  moment_timestamp : Z;
  duration : Z;
  metadata : list (string * string);
  moment_task : Task
}.

(** [class RecordCache(BaseState)] *)
Record RecordCache : Type := {
  uploaded : bool;
  skipped : bool;
  event_code : option string;
  project_name : option string;
  timestamp : Z;
  labels : list string;
  record : list (string * json);
  moments : list Moment;
  task : list (string * json);
  files : list string;
  file_infos : list FileInfo;
  paths_to_delete : list string
}.

(** The keyword arguments of [RecordCache(...)]; an argument left out is
    [None]. *)
Record kwargs : Type := {
  kw_uploaded : option bool;
  kw_skipped : option bool;
  kw_event_code : option string;
  kw_project_name : option string;
  kw_timestamp : option Z;
  kw_labels : option (list string);
  kw_record : option (list (string * json));
  kw_moments : option (list Moment);
  kw_task : option (list (string * json));
  kw_files : option (list string);
  kw_file_infos : option (list FileInfo);
  kw_paths_to_delete : option (list string)
}.

Definition no_kwargs : kwargs :=
  {| kw_uploaded := None; kw_skipped := None; kw_event_code := None;
     kw_project_name := None; kw_timestamp := None; kw_labels := None;
     kw_record := None; kw_moments := None; kw_task := None;
     kw_files := None; kw_file_infos := None; kw_paths_to_delete := None |}.

(** The call of [super().__init__] with the keyword arguments: the field
    defaults; [timestamp] has none,
    so pydantic rejects a call without it. *)
Definition validate (d : kwargs) : outcome RecordCache :=
  match kw_timestamp d with
  | None => Raise ValidationError
  | Some ts =>
      Ret {| uploaded := default false (kw_uploaded d);
             skipped := default false (kw_skipped d);
             event_code := kw_event_code d;
             project_name := kw_project_name d;
             timestamp := ts;
             labels := default [] (kw_labels d);
             record := default [] (kw_record d);
             moments := default [] (kw_moments d);
             task := default [] (kw_task d);
             files := default [] (kw_files d);
             file_infos := default [] (kw_file_infos d);
             paths_to_delete := default [] (kw_paths_to_delete d) |}
  end.

Definition set_files (l : list string) (rc : RecordCache) : RecordCache :=
  {| uploaded := uploaded rc; skipped := skipped rc;
     event_code := event_code rc; project_name := project_name rc;
     timestamp := timestamp rc; labels := labels rc; record := record rc;
     moments := moments rc; task := task rc; files := l;
     file_infos := file_infos rc; paths_to_delete := paths_to_delete rc |}.

Definition set_file_infos (l : list FileInfo) (rc : RecordCache) : RecordCache :=
  {| uploaded := uploaded rc; skipped := skipped rc;
     event_code := event_code rc; project_name := project_name rc;
     timestamp := timestamp rc; labels := labels rc; record := record rc;
     moments := moments rc; task := task rc; files := files rc;
     file_infos := l; paths_to_delete := paths_to_delete rc |}.

Definition set_skipped (b : bool) (rc : RecordCache) : RecordCache :=
  {| uploaded := uploaded rc; skipped := b;
     event_code := event_code rc; project_name := project_name rc;
     timestamp := timestamp rc; labels := labels rc; record := record rc;
     moments := moments rc; task := task rc; files := files rc;
     file_infos := file_infos rc; paths_to_delete := paths_to_delete rc |}.

Definition set_uploaded (b : bool) (rc : RecordCache) : RecordCache :=
  {| uploaded := b; skipped := skipped rc;
     event_code := event_code rc; project_name := project_name rc;
     timestamp := timestamp rc; labels := labels rc; record := record rc;
     moments := moments rc; task := task rc; files := files rc;
     file_infos := file_infos rc; paths_to_delete := paths_to_delete rc |}.

Definition set_record (r : list (string * json)) (rc : RecordCache) : RecordCache :=
  {| uploaded := uploaded rc; skipped := skipped rc;
     event_code := event_code rc; project_name := project_name rc;
     timestamp := timestamp rc; labels := labels rc; record := r;
     moments := moments rc; task := task rc; files := files rc;
     file_infos := file_infos rc; paths_to_delete := paths_to_delete rc |}.

(** [RecordCache.__init__] *)
Definition RecordCache_init (d : kwargs) : outcome RecordCache :=
  match validate d with
  | Raise e => Raise e
  | Ret self =>
      match files self, file_infos self with
      | [], _ => Ret (set_files (List.map (fun f => Path_str (filepath f))
                                   (file_infos self)) self)
      | _ :: _, [] => Ret (set_file_infos (List.map FileInfo_of_str (files self)) self)
      | _ :: _, _ :: _ => Ret self
      end
  end.

(** The call of scenario S-3. *)
Definition s3_call : kwargs :=
  {| kw_uploaded := None; kw_skipped := None; kw_event_code := Some "e";
     kw_project_name := None; kw_timestamp := Some 0; kw_labels := None;
     kw_record := None; kw_moments := None; kw_task := None;
     kw_files := Some ["a"; "a"; "b"]; kw_file_infos := None;
     kw_paths_to_delete := None |}.

(** *** Properties of [RecordCache] *)

(** C2, as stated, fails on the code: the constructor keeps the duplicate
    of scenario S-3. *)
Lemma RecordCache_keeps_duplicate_files :
  exists rc, RecordCache_init s3_call = Ret rc
             /\ files rc = ["a"; "a"; "b"]
             /\ files rc <> ["a"; "b"].
Proof.
  eexists. split; [reflexivity|]. split; [reflexivity|]. discriminate.
Qed.

(** C2, amended. A RecordCache constructed from a non-empty files list
    keeps that list as given, order and duplicates included, and, when no
    file_infos are passed, derives one FileInfo per entry of it; in
    scenario S-3 [files] is ["a"; "a"; "b"]. *)
Theorem RecordCache_files_kept_as_given :
  (forall (d : kwargs) (ts : Z) (f : string) (l : list string),
      kw_timestamp d = Some ts ->
      kw_files d = Some (f :: l) ->
      exists rc, RecordCache_init d = Ret rc
                 /\ files rc = f :: l
                 /\ (default [] (kw_file_infos d) = [] ->
                     file_infos rc = List.map FileInfo_of_str (f :: l)))
  /\ (exists rc, RecordCache_init s3_call = Ret rc /\ files rc = ["a"; "a"; "b"]).
Proof.
  split.
  - intros d ts f l Hts Hfiles.
    unfold RecordCache_init, validate. rewrite Hts. cbn [files file_infos].
    rewrite Hfiles. cbn [default].
    destruct (default [] (kw_file_infos d)) as [|i infos] eqn:Hinfos.
    + eexists. split; [reflexivity|]. split; reflexivity.
    + eexists. split; [reflexivity|]. split; [reflexivity|]. discriminate.
  - eexists. split; reflexivity.
Qed.

Lemma RecordCache_files_kept_as_given_witness :
  exists rc, RecordCache_init s3_call = Ret rc
             /\ files rc = ["a"; "a"; "b"]
             /\ (default [] (kw_file_infos s3_call) = [] ->
                 file_infos rc = List.map FileInfo_of_str ["a"; "a"; "b"]).
Proof.
  apply (proj1 RecordCache_files_kept_as_given s3_call 0 "a" ["a"; "b"]);
    reflexivity.
Defined.

End Models.

(** ** cos/utils/files.py, and [FileInfo.complete] of cos/core/models.py *)

Module Files.

Import Models.

(** The content of a file or a [bytes] object. *)
Abbreviation bytes := (list Byte.byte).

Definition len (b : bytes) : Z := Z.of_nat (length b).

(** [b[:n]] for [n >= 0]. *)
Definition upto (n : Z) (b : bytes) : bytes := take (Z.to_nat n) b.

(** [f.read(n)] on a file object of which [rest] is still unread: the
    bytes returned and what is left; a negative [n] reads to the end. *)
Definition f_read (n : Z) (rest : bytes) : bytes * bytes :=
  if n <? 0 then (rest, []) else (upto n rest, drop (Z.to_nat n) rest).

(** *** [class LimitedFileReader] *)

Record LimitedFileReader : Type := {
  file : bytes;
  limit : Z;
  total_read : Z
}.

(** [LimitedFileReader(file, limit)] *)
Definition LimitedFileReader_init (file : bytes) (limit : Z) : LimitedFileReader :=
  {| file := file; limit := limit; total_read := 0 |}.

(** [LimitedFileReader.read]: the data returned and the reader after. *)
Definition LimitedFileReader_read (size : Z) (self : LimitedFileReader)
    : bytes * LimitedFileReader :=
  if total_read self >=? limit self then ([], self)
  else
    let size := if size <? 0 then limit self else size in
    let size := Z.min size (limit self - total_read self) in
    let (data, rest) := f_read size (file self) in
    (data, {| file := rest; limit := limit self;
              total_read := total_read self + len data |}).

(** A caller's successive [read(size)] calls, with all that they return. *)
Fixpoint reads (sizes : list Z) (self : LimitedFileReader) : bytes * LimitedFileReader :=
  match sizes with
  | [] => ([], self)
  | size :: sizes' =>
      let (data, self) := LimitedFileReader_read size self in
      let (more, self) := reads sizes' self in
      ((data ++ more)%list, self)
  end.

(** *** [sha256_file] *)

(** The blocks that [iter(lambda: f.read(block_size), b"")] yields; no
    more than [fuel] of them. *)
Fixpoint read_blocks (fuel : nat) (block_size : Z) (f : bytes) : list bytes :=
  match fuel with
  | O => []
  | S fuel' =>
      let (byte_block, f) := f_read block_size f in
      match byte_block with
      | [] => []
      | _ => byte_block :: read_blocks fuel' block_size f
      end
  end.

(** The [for] loop of [sha256_file] over the blocks, with the bytes fed
    to [sha256_hash.update] so far. *)
Fixpoint sha256_loop (size count_down : Z) (blocks : list bytes) (hashed : bytes)
    : bytes :=
  match blocks with
  | [] => hashed
  | byte_block :: blocks' =>
      let byte_block :=
        if (0 <? count_down) && (count_down <? len byte_block)
        then upto count_down byte_block else byte_block in
      let hashed := (hashed ++ byte_block)%list in
      if size >=? 0 then
        let count_down := count_down - len byte_block in
        if count_down <=? 0 then hashed
        else sha256_loop size count_down blocks' hashed
      else sha256_loop size count_down blocks' hashed
  end.

(** The bytes that [sha256_file] hashes. A file of [n] bytes is read in
    [n] blocks at most, each block but the sentinel having a byte. *)
Definition hashed_bytes (data : bytes) (size block_size : Z) : bytes :=
  sha256_loop size size (read_blocks (length data) block_size data) [].

Section Hash.

(** [hashlib.sha256(b).hexdigest()] *)
Variable sha256_hexdigest : bytes -> string.

(** [sha256_file(filepath, size, block_size)] on a file holding [data]. *)
Definition sha256_file (data : bytes) (size block_size : Z) : string :=
  sha256_hexdigest (hashed_bytes data size block_size).

(** The file system: the content of the regular file at a path. *)
Variable fs : Path -> option bytes.

(** [x or y] on an optional string. *)
Definition str_or (x : option string) (y : string) : string :=
  match x with
  | Some s => if String.eqb s "" then y else s
  | None => y
  end.

(** [FileInfo.complete]: the object returned and [self] after the call. *)
Definition complete (force_rehash inplace skip_sha256 : bool) (block_size : Z)
    (self : FileInfo) : outcome (FileInfo * FileInfo) :=
  let filename := str_or (Models.filename self) (Path_name (filepath self)) in
  match fs (filepath self) with
  | None => Raise FileNotFoundError
  | Some data =>
      let size :=
        match Models.size self with
        | Some n => if (n =? 0) || force_rehash then len data else n
        | None => len data
        end in
      let sha256 :=
        if negb skip_sha256
           && (match Models.sha256 self with
               | Some s => String.eqb s ""
               | None => true
               end || force_rehash)
        then Some (sha256_file data size block_size)
        else Models.sha256 self in
      let result := {| filepath := filepath self; filename := Some filename;
                       size := Some size; sha256 := sha256 |} in
      Ret (result, if inplace then result else self)
  end.

End Hash.

(** *** Properties *)

Lemma len_nonneg (b : bytes) : 0 <= len b.
Proof. unfold len. lia. Qed.

Lemma len_app (a b : bytes) : len (a ++ b) = len a + len b.
Proof. unfold len. rewrite length_app. lia. Qed.

Lemma len_upto (n : Z) (b : bytes) : 0 <= n -> len (upto n b) = Z.min n (len b).
Proof. intros Hn. unfold len, upto. rewrite length_take. lia. Qed.

Lemma upto_len (n : Z) (b : bytes) : len b <= n -> upto n b = b.
Proof. intros H. unfold upto, len in *. apply take_ge. lia. Qed.

Lemma upto_app (n : Z) (a b : bytes) :
  len a <= n -> upto n (a ++ b) = (a ++ upto (n - len a) b)%list.
Proof.
  intros H. unfold upto, len in *.
  replace (Z.to_nat n) with (length a + Z.to_nat (n - Z.of_nat (length a)))%nat by lia.
  apply take_app_add.
Qed.

Lemma upto_app_le (n : Z) (a b : bytes) :
  n <= len a -> upto n (a ++ b) = upto n a.
Proof. intros H. unfold upto, len in *. apply take_app_le. lia. Qed.

Lemma f_read_split (n : Z) (rest : bytes) :
  (fst (f_read n rest) ++ snd (f_read n rest))%list = rest.
Proof.
  unfold f_read, upto. destruct (n <? 0); cbn; [apply app_nil_r | apply take_drop].
Qed.

(** One [read] hands over the next bytes of the file, and no more than
    the limit leaves. *)
Lemma LimitedFileReader_read_spec (size : Z) (self : LimitedFileReader) :
  0 <= total_read self ->
  let data := fst (LimitedFileReader_read size self) in
  let self' := snd (LimitedFileReader_read size self) in
  file self = (data ++ file self')%list
  /\ limit self' = limit self
  /\ total_read self' = total_read self + len data
  /\ total_read self' <= Z.max (total_read self) (limit self).
Proof.
  intros Hpos. unfold LimitedFileReader_read.
  destruct (total_read self >=? limit self) eqn:Hlim;
    cbn [fst snd file limit total_read app].
  - split; [reflexivity|]. split; [reflexivity|]. change (len []) with 0. lia.
  - rewrite Z.geb_leb in Hlim. apply Z.leb_gt in Hlim.
    set (n := Z.min (if size <? 0 then limit self else size)
                    (limit self - total_read self)).
    pose proof (f_read_split n (file self)) as Hsplit.
    assert (Hlen : len (fst (f_read n (file self))) <= Z.max 0 n).
    { unfold f_read. destruct (n <? 0) eqn:Hn; cbn.
      - apply Z.ltb_lt in Hn. subst n. exfalso.
        destruct (size <? 0) eqn:Hs; [lia|]. apply Z.ltb_ge in Hs. lia.
      - apply Z.ltb_ge in Hn. rewrite len_upto by exact Hn. lia. }
    destruct (f_read n (file self)) as [data rest]. cbn in *.
    split; [symmetry; exact Hsplit|]. split; [reflexivity|].
    split; [reflexivity|]. subst n. lia.
Qed.

Lemma reads_spec (sizes : list Z) (self : LimitedFileReader) :
  0 <= total_read self ->
  let data := fst (reads sizes self) in
  let self' := snd (reads sizes self) in
  file self = (data ++ file self')%list
  /\ limit self' = limit self
  /\ total_read self' = total_read self + len data
  /\ total_read self' <= Z.max (total_read self) (limit self).
Proof.
  revert self. induction sizes as [|size sizes IH]; intros self Hpos; cbn.
  - split; [reflexivity|]. split; [reflexivity|]. change (len []) with 0. lia.
  - pose proof (LimitedFileReader_read_spec size self Hpos) as H1. cbn zeta in H1.
    destruct (LimitedFileReader_read size self) as [data self1]. cbn in H1.
    destruct H1 as (Hf1 & Hl1 & Ht1 & Hb1).
    assert (Hpos1 : 0 <= total_read self1) by (pose proof (len_nonneg data); lia).
    specialize (IH self1 Hpos1). cbn zeta in IH.
    destruct (reads sizes self1) as [more self2]. cbn in *.
    destruct IH as (Hf2 & Hl2 & Ht2 & Hb2).
    split; [rewrite Hf1, Hf2, app_assoc; reflexivity|].
    split; [congruence|]. rewrite len_app. split; lia.
Qed.

(** X9. Whatever sizes a caller asks a fresh [LimitedFileReader] for,
    and in whatever order, all that the [read] calls return, put together,
    is the head of the file, and never more than [limit] bytes of it. *)
Theorem LimitedFileReader_delivers_bounded_prefix :
  forall (data : bytes) (limit : Z) (sizes : list Z),
    let out := fst (reads sizes (LimitedFileReader_init data limit)) in
    out = upto (len out) data
    /\ len out <= Z.max 0 limit.
Proof.
  intros data limit sizes.
  pose proof (reads_spec sizes (LimitedFileReader_init data limit) ltac:(cbn; lia))
    as H. cbn zeta in *.
  destruct (reads sizes (LimitedFileReader_init data limit)) as [out self'].
  cbn in *. destruct H as (Hf & _ & Ht & Hb). split; [|lia].
  rewrite Hf. rewrite upto_app_le by lia. symmetry. apply upto_len. lia.
Qed.

(** Reading in positive blocks returns the file in pieces. *)
Lemma read_blocks_concat (block_size : Z) (fuel : nat) (f : bytes) :
  0 < block_size ->
  (length f <= fuel)%nat ->
  concat (read_blocks fuel block_size f) = f
  /\ match read_blocks fuel block_size f with
     | [] => f = []
     | b :: _ => b = upto block_size f /\ b <> []
     end.
Proof.
  intros Hbs. revert f. induction fuel as [|fuel IH]; intros f Hlen.
  - destruct f; [split; reflexivity|cbn in Hlen; lia].
  - cbn [read_blocks]. unfold f_read.
    replace (block_size <? 0) with false by (symmetry; apply Z.ltb_ge; lia).
    destruct f as [|x f]; [unfold upto; rewrite take_nil; split; reflexivity|].
    destruct (upto block_size (x :: f)) as [|y b] eqn:Hb.
    { unfold upto in Hb. destruct (Z.to_nat block_size) eqn:Hn; [lia|]. discriminate. }
    rewrite <- Hb. split.
    + cbn [concat]. destruct (IH (drop (Z.to_nat block_size) (x :: f))) as [Hc _].
      { rewrite length_drop. cbn in *. lia. }
      rewrite Hc. apply take_drop.
    + split; [reflexivity|]. rewrite Hb. discriminate.
Qed.

(** The loop with a positive count-down feeds the next [count_down]
    bytes, or all that is left when there are fewer. *)
Lemma sha256_loop_counting (size count_down : Z) (blocks : list bytes)
    (hashed : bytes) :
  0 <= size ->
  0 < count_down ->
  Forall (fun b => b <> []) blocks ->
  sha256_loop size count_down blocks hashed
  = (hashed ++ upto count_down (concat blocks))%list.
Proof.
  intros Hsize. revert count_down hashed.
  induction blocks as [|b blocks IH]; intros count_down hashed Hcd Hne.
  - cbn. unfold upto. rewrite take_nil, app_nil_r. reflexivity.
  - apply Forall_cons in Hne as [Hb Hne]. cbn [sha256_loop concat].
    replace (size >=? 0) with true by (symmetry; rewrite Z.geb_leb; apply Z.leb_le; lia).
    replace (0 <? count_down) with true by (symmetry; apply Z.ltb_lt; lia).
    cbn [andb]. destruct (count_down <? len b) eqn:Hlt.
    + apply Z.ltb_lt in Hlt. rewrite len_upto by lia.
      replace (count_down - Z.min count_down (len b) <=? 0) with true
        by (symmetry; apply Z.leb_le; lia).
      rewrite upto_app_le by lia. reflexivity.
    + apply Z.ltb_ge in Hlt. rewrite upto_app by exact Hlt.
      destruct (count_down - len b <=? 0) eqn:Hdone.
      * apply Z.leb_le in Hdone. replace (count_down - len b) with 0 by lia.
        unfold upto. cbn. rewrite app_nil_r. reflexivity.
      * apply Z.leb_gt in Hdone. rewrite IH by assumption.
        rewrite <- app_assoc. reflexivity.
Qed.

Lemma sha256_loop_whole (size count_down : Z) (blocks : list bytes) (hashed : bytes) :
  size < 0 ->
  count_down < 0 ->
  sha256_loop size count_down blocks hashed = (hashed ++ concat blocks)%list.
Proof.
  intros Hsize Hcd. revert hashed.
  induction blocks as [|b blocks IH]; intros hashed; cbn [sha256_loop concat].
  - rewrite app_nil_r. reflexivity.
  - replace (size >=? 0) with false
      by (symmetry; rewrite Z.geb_leb; apply Z.leb_gt; lia).
    replace (0 <? count_down) with false by (symmetry; apply Z.ltb_ge; lia).
    cbn [andb]. rewrite IH, <- app_assoc. reflexivity.
Qed.

Lemma read_blocks_nonempty (fuel : nat) (block_size : Z) (f : bytes) :
  Forall (fun b => b <> []) (read_blocks fuel block_size f).
Proof.
  revert f. induction fuel as [|fuel IH]; intros f; cbn [read_blocks];
    [constructor|].
  destruct (f_read block_size f) as [[|x b] rest]; [constructor|].
  constructor; [discriminate | apply IH].
Qed.

(** What [sha256_file] hashes, by the sign of [size]. *)
Lemma hashed_bytes_prefix (data : bytes) (size block_size : Z) :
  0 < block_size ->
  hashed_bytes data size block_size
  = if size <? 0 then data
    else if size =? 0 then upto block_size data
    else upto size data.
Proof.
  intros Hbs. unfold hashed_bytes.
  destruct (read_blocks_concat block_size (length data) data Hbs (le_n _))
    as [Hconcat Hfirst].
  pose proof (read_blocks_nonempty (length data) block_size data) as Hne.
  destruct (size <? 0) eqn:Hneg.
  - apply Z.ltb_lt in Hneg. rewrite sha256_loop_whole by lia.
    rewrite Hconcat. reflexivity.
  - apply Z.ltb_ge in Hneg. destruct (size =? 0) eqn:Hzero.
    + apply Z.eqb_eq in Hzero. subst size.
      destruct (read_blocks (length data) block_size data) as [|b blocks].
      * subst data. unfold upto. destruct (Z.to_nat block_size); reflexivity.
      * destruct Hfirst as [-> Hb]. cbn [sha256_loop]. cbn.
        pose proof (len_nonneg (upto block_size data)) as Hl.
        assert (Hlen : len (upto block_size data) <> 0).
        { unfold len. destruct (upto block_size data); [contradiction|cbn; lia]. }
        replace (0 - len (upto block_size data) <=? 0) with true
          by (symmetry; apply Z.leb_le; lia).
        reflexivity.
    + apply Z.eqb_neq in Hzero. rewrite sha256_loop_counting by (assumption || lia).
      rewrite Hconcat. reflexivity.
Qed.

(** X10. With a positive block size, [sha256_file] hashes the whole file
    when [size] is negative and its first [size] bytes (all of it when it
    is shorter) when [size] is positive; with [size = 0] it hashes the
    first block, not the empty string. *)
Theorem sha256_file_hashes_recorded_prefix :
  forall (sha256_hexdigest : bytes -> string) (data : bytes) (size block_size : Z),
    0 < block_size ->
    sha256_file sha256_hexdigest data size block_size
    = sha256_hexdigest
        (if size <? 0 then data
         else if size =? 0 then upto block_size data
         else upto size data).
Proof.
  intros H data size block_size Hbs. unfold sha256_file.
  rewrite hashed_bytes_prefix by exact Hbs. reflexivity.
Qed.

(** A stand-in for the hash in examples: the bytes themselves, as text. *)
Definition plain_text (b : bytes) : string :=
  string_of_list_ascii (List.map ascii_of_byte b).

Lemma sha256_file_hashes_recorded_prefix_witness :
  sha256_file plain_text [Byte.x61; Byte.x62; Byte.x63] 2 4096 = "ab".
Proof.
  exact (sha256_file_hashes_recorded_prefix plain_text
           [Byte.x61; Byte.x62; Byte.x63] 2 4096 eq_refl).
Defined.

(** X11. [complete()] freezes the recorded segment: for a [FileInfo] with
    a recorded size that is not 0, without forced rehash, the result is the
    same whatever bytes have been appended to the file since, the hash
    being that of the first [size] bytes. *)
Theorem complete_ignores_appended_bytes :
  forall (sha256_hexdigest : bytes -> string) (fs fs' : Path -> option bytes)
         (inplace skip_sha256 : bool) (block_size : Z) (self : FileInfo)
         (n : Z) (old appended : bytes),
    0 < block_size ->
    Models.size self = Some n ->
    0 < n ->
    n <= len old ->
    fs (filepath self) = Some old ->
    fs' (filepath self) = Some (old ++ appended)%list ->
    complete sha256_hexdigest fs' false inplace skip_sha256 block_size self
    = complete sha256_hexdigest fs false inplace skip_sha256 block_size self.
Proof.
  intros H fs fs' inplace skip_sha256 block_size self n old appended
    Hbs Hsize Hn Hlen Hfs Hfs'.
  unfold complete. rewrite Hfs, Hfs', Hsize.
  replace (n =? 0) with false by (symmetry; apply Z.eqb_neq; lia). cbn [orb].
  unfold sha256_file. rewrite !hashed_bytes_prefix by exact Hbs.
  replace (n <? 0) with false by (symmetry; apply Z.ltb_ge; lia).
  replace (n =? 0) with false by (symmetry; apply Z.eqb_neq; lia).
  rewrite upto_app_le by exact Hlen. reflexivity.
Qed.

(** A log of two bytes recorded, then grown by one. *)
Definition recorded_log : FileInfo :=
  {| filepath := Path_of_str "/data/a.log"; filename := Some "a.log";
     size := Some 2; sha256 := None |}.

Lemma complete_ignores_appended_bytes_witness :
  complete plain_text (fun _ => Some [Byte.x61; Byte.x62; Byte.x63])
    false false false 4096 recorded_log
  = complete plain_text (fun _ => Some [Byte.x61; Byte.x62])
      false false false 4096 recorded_log.
Proof.
  apply (complete_ignores_appended_bytes plain_text
           (fun _ => Some [Byte.x61; Byte.x62])
           (fun _ => Some [Byte.x61; Byte.x62; Byte.x63])
           false false 4096 recorded_log 2 [Byte.x61; Byte.x62] [Byte.x63]);
    reflexivity || (cbn; lia).
Defined.

End Files.

(** ** cos/name/record_name.py and cos/name/project_name.py *)

Module Names.

Import Models.

(** [parts[i]], for [i] within bounds. *)
Definition part (i : nat) (parts : list string) : string := nth i parts "".

Module RecordName.

(** [class RecordName(BaseModel)] *)
Record t : Type := {
  name : string;
  warehouse_id : option string;
  project_id : string;
  record_id : string
}.

(** [RecordName.from_str]; [record_name.split("/")] is [split_slash]. *)
Definition from_str (record_name : string) : outcome t :=
  let parts := split_slash "" record_name in
  if String.prefix "projects/" record_name then
    if negb (length parts =? 4)%nat || negb (String.eqb (part 2 parts) "records")
    then Raise ValueError
    else Ret {| name := record_name; warehouse_id := None;
                project_id := part 1 parts; record_id := part 3 parts |}
  else
    if negb (length parts =? 6)%nat
       || negb (String.eqb (part 0 parts) "warehouses")
       || negb (String.eqb (part 2 parts) "projects")
       || negb (String.eqb (part 4 parts) "records")
    then Raise ValueError
    else Ret {| name := record_name; warehouse_id := Some (part 1 parts);
                project_id := part 3 parts; record_id := part 5 parts |}.

(** [RecordName.simple_record_name] *)
Definition simple_record_name (self : t) : string :=
  "projects/" ++ project_id self ++ "/records/" ++ record_id self.

End RecordName.

Module ProjectName.

(** [class ProjectName(BaseModel)] *)
Record t : Type := {
  name : string;
  warehouse_id : option string;
  project_id : string
}.

(** [ProjectName.from_str] *)
Definition from_str (project_name : string) : outcome t :=
  let parts := split_slash "" project_name in
  if String.prefix "projects/" project_name then
    if negb (length parts =? 2)%nat then Raise ValueError
    else Ret {| name := project_name; warehouse_id := None;
                project_id := part 1 parts |}
  else
    if negb (length parts =? 4)%nat
       || negb (String.eqb (part 0 parts) "warehouses")
       || negb (String.eqb (part 2 parts) "projects")
    then Raise ValueError
    else Ret {| name := project_name; warehouse_id := Some (part 1 parts);
                project_id := part 3 parts |}.

(** [ProjectName.with_warehouse_and_project_id]; [None] and the empty
    string are falsy. *)
Definition with_warehouse_and_project_id (warehouse_id : option string)
    (project_id : string) : t :=
  match warehouse_id with
  | Some w =>
      if String.eqb w ""
      then {| name := "projects/" ++ project_id; warehouse_id := None;
              project_id := project_id |}
      else {| name := "warehouses/" ++ w ++ "/projects/" ++ project_id;
              warehouse_id := Some w; project_id := project_id |}
  | None => {| name := "projects/" ++ project_id; warehouse_id := None;
               project_id := project_id |}
  end.

End ProjectName.

(** *** Specification-side notions *)

(** A text without ["/"]. *)
Fixpoint no_slash (s : string) : bool :=
  match s with
  | EmptyString => true
  | String c s' => negb (Ascii.eqb c "/") && no_slash s'
  end.

(** *** Properties *)

Lemma append_nil_r (a : string) : a ++ "" = a.
Proof.
  induction a as [|c a IH]; [reflexivity|].
  change (String c (a ++ "") = String c a). f_equal. exact IH.
Qed.

Lemma append_assoc (a b c : string) : (a ++ b) ++ c = a ++ (b ++ c).
Proof.
  induction a as [|x a IH]; [reflexivity|].
  change (String x ((a ++ b) ++ c) = String x (a ++ (b ++ c))). f_equal. exact IH.
Qed.

Lemma no_slash_app (a b : string) : no_slash (a ++ b) = no_slash a && no_slash b.
Proof.
  induction a as [|c a IH]; [reflexivity|].
  change (negb (Ascii.eqb c "/") && no_slash (a ++ b)
          = negb (Ascii.eqb c "/") && no_slash a && no_slash b).
  rewrite IH, andb_assoc. reflexivity.
Qed.

Lemma split_slash_nonempty (s cur : string) : split_slash cur s <> [].
Proof.
  revert cur. induction s as [|c s IH]; intros cur; cbn; [discriminate|].
  destruct (Ascii.eqb c "/"); [discriminate | apply IH].
Qed.

(** Splitting at the slashes loses nothing: the pieces have no slash, and
    joined with slashes they give the text back. *)
Lemma split_slash_join (s cur : string) :
  no_slash cur = true ->
  Forall (fun x => no_slash x = true) (split_slash cur s)
  /\ String.concat "/" (split_slash cur s) = cur ++ s.
Proof.
  revert cur. induction s as [|c s IH]; intros cur Hcur; cbn [split_slash].
  - split; [repeat constructor; exact Hcur|]. cbn [String.concat].
    rewrite append_nil_r. reflexivity.
  - destruct (Ascii.eqb c "/") eqn:Hc.
    + apply Ascii.eqb_eq in Hc. subst c.
      destruct (IH "" eq_refl) as [Hall Hjoin]. split; [constructor; assumption|].
      pose proof (split_slash_nonempty s "") as Hne.
      destruct (split_slash "" s) as [|x l]; [contradiction|].
      change (cur ++ "/" ++ String.concat "/" (x :: l) = cur ++ String "/" s).
      rewrite Hjoin. reflexivity.
    + destruct (IH (cur ++ String c "")) as [Hall Hjoin].
      { rewrite no_slash_app, Hcur. cbn. rewrite Hc. reflexivity. }
      split; [exact Hall|]. rewrite Hjoin, append_assoc. reflexivity.
Qed.

Lemma split_slash_app (a s cur : string) :
  no_slash a = true -> split_slash cur (a ++ s) = split_slash (cur ++ a) s.
Proof.
  revert cur. induction a as [|c a IH]; intros cur Ha.
  - rewrite append_nil_r. reflexivity.
  - cbn [no_slash] in Ha. apply andb_prop in Ha as [Hc Ha].
    apply negb_true_iff in Hc.
    change (split_slash cur (String c (a ++ s)) = split_slash (cur ++ String c a) s).
    cbn [split_slash]. rewrite Hc, (IH _ Ha), append_assoc. reflexivity.
Qed.

Lemma split_slash_last (a cur : string) :
  no_slash a = true -> split_slash cur a = [cur ++ a].
Proof.
  intros Ha. rewrite <- (append_nil_r a) at 1. rewrite split_slash_app by exact Ha.
  reflexivity.
Qed.

Lemma prefix_app (p s : string) :
  String.prefix p s = true -> exists s', s = p ++ s'.
Proof.
  revert s. induction p as [|c p IH]; intros s H; [exists s; reflexivity|].
  destruct s as [|c' s]; [discriminate|].
  cbn [String.prefix] in H.
  destruct (ascii_dec c c') as [->|]; [|discriminate].
  destruct (IH s H) as [s' ->]. exists s'. reflexivity.
Qed.

Lemma prefix_of_app (p s : string) : String.prefix p (p ++ s) = true.
Proof.
  induction p as [|c p IH]; [destruct s; reflexivity|].
  change (String.prefix (String c p) (String c (p ++ s)) = true).
  cbn [String.prefix]. destruct (ascii_dec c c); [exact IH | contradiction].
Qed.

(** The strings that [RecordName.from_str] accepts, and what it makes of them. *)
Definition record_path (warehouse_id : option string) (project_id record_id : string)
    : string :=
  match warehouse_id with
  | None => "projects/" ++ project_id ++ "/records/" ++ record_id
  | Some w => "warehouses/" ++ w ++ "/projects/" ++ project_id
              ++ "/records/" ++ record_id
  end.

Definition project_path (warehouse_id : option string) (project_id : string)
    : string :=
  match warehouse_id with
  | None => "projects/" ++ project_id
  | Some w => "warehouses/" ++ w ++ "/projects/" ++ project_id
  end.

Definition ids_ok (warehouse_id : option string) (ids : list string) : Prop :=
  Forall (fun x => no_slash x = true) ids
  /\ match warehouse_id with
     | None => True
     | Some w => no_slash w = true
     end.

Lemma record_from_str_inv (s : string) (rn : RecordName.t) :
  RecordName.from_str s = Ret rn ->
  RecordName.name rn = s
  /\ ids_ok (RecordName.warehouse_id rn)
       [RecordName.project_id rn; RecordName.record_id rn]
  /\ s = record_path (RecordName.warehouse_id rn) (RecordName.project_id rn)
           (RecordName.record_id rn).
Proof.
  unfold RecordName.from_str.
  destruct (split_slash_join s "" eq_refl) as [Hall Hjoin].
  change ("" ++ s) with s in Hjoin.
  destruct (String.prefix "projects/" s) eqn:Hp.
  - destruct (prefix_app _ _ Hp) as [s' ->].
    change (split_slash "" ("projects/" ++ s'))
      with ("projects" :: split_slash "" s') in *.
    destruct (split_slash "" s') as [|b [|c [|d [|? ?]]]]; try discriminate.
    cbn [length Nat.eqb negb orb part nth].
    destruct (String.eqb_spec c "records") as [->|]; [|discriminate].
    intros [= <-]. cbn [RecordName.name RecordName.warehouse_id
                        RecordName.project_id RecordName.record_id].
    apply Forall_cons in Hall as [_ Hall].
    apply Forall_cons in Hall as [Hb Hall]. apply Forall_cons in Hall as [_ Hall].
    apply Forall_cons in Hall as [Hd _].
    split; [reflexivity|]. split; [split; [repeat constructor; assumption | exact I]|].
    exact (eq_trans (eq_sym Hjoin) eq_refl).
  - destruct (split_slash "" s) as [|a [|b [|c [|d [|e [|f [|? ?]]]]]]];
      try discriminate.
    cbn [length Nat.eqb negb orb part nth].
    destruct (String.eqb_spec a "warehouses") as [->|]; [|discriminate].
    destruct (String.eqb_spec c "projects") as [->|]; [|discriminate].
    destruct (String.eqb_spec e "records") as [->|]; [|discriminate].
    intros [= <-]. cbn [RecordName.name RecordName.warehouse_id
                        RecordName.project_id RecordName.record_id].
    apply Forall_cons in Hall as [_ Hall].
    apply Forall_cons in Hall as [Hb Hall]. apply Forall_cons in Hall as [_ Hall].
    apply Forall_cons in Hall as [Hd Hall]. apply Forall_cons in Hall as [_ Hall].
    apply Forall_cons in Hall as [Hf _].
    split; [reflexivity|]. split; [split; [repeat constructor; assumption | exact Hb]|].
    exact (eq_trans (eq_sym Hjoin) eq_refl).
Qed.

Lemma record_from_str_path (w : option string) (p r : string) :
  ids_ok w [p; r] ->
  RecordName.from_str (record_path w p r)
  = Ret {| RecordName.name := record_path w p r; RecordName.warehouse_id := w;
           RecordName.project_id := p; RecordName.record_id := r |}.
Proof.
  intros [Hall Hw]. apply Forall_cons in Hall as [Hp Hall].
  apply Forall_cons in Hall as [Hr _].
  unfold RecordName.from_str. destruct w as [w|]; unfold record_path.
  - change (String.prefix "projects/" ("warehouses/" ++ w ++ "/projects/" ++ p
                                        ++ "/records/" ++ r)) with false.
    cbv iota.
    change (split_slash "" ("warehouses/" ++ w ++ "/projects/" ++ p
                            ++ "/records/" ++ r))
      with ("warehouses" :: split_slash "" (w ++ "/projects/" ++ p
                                              ++ "/records/" ++ r)).
    rewrite (split_slash_app w _ "" Hw).
    change (split_slash ("" ++ w) ("/projects/" ++ p ++ "/records/" ++ r))
      with (w :: "projects" :: split_slash "" (p ++ "/records/" ++ r)).
    rewrite (split_slash_app p _ "" Hp).
    change (split_slash ("" ++ p) ("/records/" ++ r))
      with (p :: "records" :: split_slash "" r).
    rewrite (split_slash_last r "" Hr). reflexivity.
  - rewrite (prefix_of_app "projects/" (p ++ "/records/" ++ r)).
    change (split_slash "" ("projects/" ++ p ++ "/records/" ++ r))
      with ("projects" :: split_slash "" (p ++ "/records/" ++ r)).
    rewrite (split_slash_app p _ "" Hp).
    change (split_slash ("" ++ p) ("/records/" ++ r))
      with (p :: "records" :: split_slash "" r).
    rewrite (split_slash_last r "" Hr). reflexivity.
Qed.

Lemma project_from_str_path (w : option string) (p : string) :
  ids_ok w [p] ->
  ProjectName.from_str (project_path w p)
  = Ret {| ProjectName.name := project_path w p; ProjectName.warehouse_id := w;
           ProjectName.project_id := p |}.
Proof.
  intros [Hall Hw]. apply Forall_cons in Hall as [Hp _].
  unfold ProjectName.from_str. destruct w as [w|]; unfold project_path.
  - change (String.prefix "projects/" ("warehouses/" ++ w ++ "/projects/" ++ p))
      with false.
    cbv iota.
    change (split_slash "" ("warehouses/" ++ w ++ "/projects/" ++ p))
      with ("warehouses" :: split_slash "" (w ++ "/projects/" ++ p)).
    rewrite (split_slash_app w _ "" Hw).
    change (split_slash ("" ++ w) ("/projects/" ++ p))
      with (w :: "projects" :: split_slash "" p).
    rewrite (split_slash_last p "" Hp). reflexivity.
  - rewrite (prefix_of_app "projects/" p).
    change (split_slash "" ("projects/" ++ p))
      with ("projects" :: split_slash "" p).
    rewrite (split_slash_last p "" Hp). reflexivity.
Qed.

(** X12. [RecordName.from_str] accepts exactly the two written forms,
    [projects/P/records/R] and [warehouses/W/projects/P/records/R] with
    no slash inside [W], [P] and [R] (which may be empty), and returns the
    text as [name] with these parts as ids; every other text raises
    [ValueError]. *)
Theorem RecordName_from_str_accepts :
  forall (s : string),
    (forall rn, RecordName.from_str s = Ret rn <->
                RecordName.name rn = s
                /\ ids_ok (RecordName.warehouse_id rn)
                     [RecordName.project_id rn; RecordName.record_id rn]
                /\ s = record_path (RecordName.warehouse_id rn)
                         (RecordName.project_id rn) (RecordName.record_id rn))
    /\ ((exists rn, RecordName.from_str s = Ret rn)
        \/ RecordName.from_str s = Raise ValueError).
Proof.
  intros s. split.
  - intros rn. split; [apply record_from_str_inv|].
    intros (Hname & Hok & Hs). rewrite Hs at 1.
    rewrite (record_from_str_path _ _ _ Hok). f_equal.
    destruct rn as [n w p r]. cbn in *. rewrite <- Hs, Hname. reflexivity.
  - unfold RecordName.from_str.
    destruct (String.prefix "projects/" s).
    + destruct (_ || _); [right; reflexivity | left; eexists; reflexivity].
    + destruct (_ || _); [right; reflexivity | left; eexists; reflexivity].
Qed.

(** X13. As [resumable_upload_files] composes them: for a record name
    that [RecordName.from_str] accepts and whose warehouse id is not the
    empty string, the project name built by
    [ProjectName.with_warehouse_and_project_id] from its ids is the
    record name without its [/records/R] ending, and [ProjectName.from_str]
    reads that project name back. *)
Theorem project_name_of_record_name :
  forall (s : string) (rc : RecordName.t),
    RecordName.from_str s = Ret rc ->
    RecordName.warehouse_id rc <> Some "" ->
    let pn := ProjectName.with_warehouse_and_project_id
                (RecordName.warehouse_id rc) (RecordName.project_id rc) in
    s = ProjectName.name pn ++ "/records/" ++ RecordName.record_id rc
    /\ ProjectName.from_str (ProjectName.name pn) = Ret pn.
Proof.
  intros s rc Hrc Hw pn.
  destruct (record_from_str_inv s rc Hrc) as (_ & [Hall Hwok] & Hs).
  apply Forall_cons in Hall as [Hp _].
  assert (Hpn : pn = {| ProjectName.name :=
                          project_path (RecordName.warehouse_id rc)
                            (RecordName.project_id rc);
                        ProjectName.warehouse_id := RecordName.warehouse_id rc;
                        ProjectName.project_id := RecordName.project_id rc |}).
  { subst pn. unfold ProjectName.with_warehouse_and_project_id, project_path.
    destruct (RecordName.warehouse_id rc) as [w|]; [|reflexivity].
    destruct (String.eqb_spec w "") as [->|]; [contradiction|reflexivity]. }
  rewrite Hpn. cbn [ProjectName.name]. split.
  - rewrite Hs at 1. unfold record_path, project_path.
    destruct (RecordName.warehouse_id rc) as [w|]; cbn; rewrite ?append_assoc;
      reflexivity.
  - apply project_from_str_path. split; [repeat constructor; exact Hp | exact Hwok].
Qed.

Lemma project_name_of_record_name_witness :
  "warehouses/w1/projects/p1/records/r1"
  = "warehouses/w1/projects/p1" ++ "/records/" ++ "r1"
  /\ ProjectName.from_str "warehouses/w1/projects/p1"
     = Ret {| ProjectName.name := "warehouses/w1/projects/p1";
              ProjectName.warehouse_id := Some "w1";
              ProjectName.project_id := "p1" |}.
Proof.
  apply (project_name_of_record_name "warehouses/w1/projects/p1/records/r1"
           {| RecordName.name := "warehouses/w1/projects/p1/records/r1";
              RecordName.warehouse_id := Some "w1";
              RecordName.project_id := "p1"; RecordName.record_id := "r1" |}).
  - reflexivity.
  - discriminate.
Defined.

End Names.

(** ** cos/collector/collector.py *)

Module Collector.

Import Models.

Local Open Scope py_scope.

(** [class CollectorConfig(BaseModel)] *)
Record CollectorConfig : Type := {
  delete_after_upload : bool;
  delete_after_interval_in_hours : Z;
  scan_interval_in_secs : Z
}.

(** The calls [handle_record] makes on the platform client, directly or
    through [ApiClient.create_or_get_record]. *)
Inductive call : Type :=
| UpdateTaskState (task_name : json) (state : string)
| CreateRecord (file_infos : list FileInfo) (title description : string)
    (labels : list string) (device_name : json)
| GetRecord (record_name : json)
| GenerateRecordThumbnailUploadUrl (record_name : json)
| UploadFile (filepath : string) (upload_url : json)
| CreateEvent (record_name : json) (display_name description : string)
    (m : Moment) (device_name : json)
| CreateTask (record_name : json) (title description : string)
    (assignee : option string)
| ResumableUploadFiles (record_name : json) (file_infos : list FileInfo)
| UpdateRecord (record_name : json) (labels : list string)
| PutTaskTags (task_name : json) (record_name : json).

(** What [handle_record] does to its surroundings, in order: the platform
    calls, [rec_cache.save_state()], the call of
    [rec_cache.delete_cache_dir(delay_in_hours)] and, inside it,
    [shutil.rmtree] on the record's directory and the removal of one of
    [paths_to_delete]. *)
Inductive effect : Type :=
| Api (c : call)
| SaveState (rc : RecordCache)
| DeleteCacheDir (rc : RecordCache) (delay_in_hours : Z)
| Rmtree (dir : Path)
| RemoveSource (path : string).

(** The surroundings of one [handle_record] call: the platform's answer to
    each call, the clock values the limiter reads, [self.device], the file
    system ([is_file], [FileInfo.complete(inplace=True)], the record's
    [base_dir_path] and [list_files()]) and the two texts that
    [__get_record_title] and [__make_record_description] format from the
    trigger time and the device labels.

    [key] is what the property [rec_cache.key] evaluates to: its
    [datetime.fromtimestamp] raises on a timestamp outside the range of
    [datetime]. The key depends on [timestamp] and [event_code] alone,
    which [handle_record] never assigns, so every evaluation in one call
    gives the same.

    For [delete_cache_dir]: [time.time()] in microseconds, whether the
    record's directory exists when it holds no state file, what
    [shutil.rmtree] does on that directory and, when it raises halfway,
    whether the state file is among what is left, and [Path.exists] on the
    members of [paths_to_delete]. *)
Record env : Type := {
  respond : call -> outcome json;
  now_is_over_limit : Z;
  now_hit : Z;
  device : json;
  is_file : Path -> bool;
  complete : FileInfo -> outcome FileInfo;
  base_dir_path : Path;
  list_files : list string;
  code_title : RecordCache -> string;
  canned_description : string -> RecordCache -> string;
  key : outcome string;
  time_time_us : Z;
  base_dir_exists : bool;
  rmtree_base_dir : outcome unit;
  state_survives_failed_rmtree : bool;
  path_exists : string -> bool
}.

(** The collector's mutable surroundings: the limiter, the client's
    [project_name], the record's state file and the effects so far. *)
Record world : Type := {
  code_mgr : Codes.manager;
  api_project_name : option string;
  state_path : option RecordCache;
  trace : list effect
}.

Definition perform (e : effect) (w : world) : world :=
  {| code_mgr := code_mgr w; api_project_name := api_project_name w;
     state_path := state_path w; trace := trace w ++ [e] |}.

Definition set_api_project_name (p : option string) (w : world) : world :=
  {| code_mgr := code_mgr w; api_project_name := p;
     state_path := state_path w; trace := trace w |}.

(** Running a limiter method on the collector's [code_mgr]. *)
Definition with_code_mgr {A : Type} (m : M Codes.manager A) : M world A :=
  fun w => let (r, mgr) := m (code_mgr w) in
           (r, {| code_mgr := mgr; api_project_name := api_project_name w;
                  state_path := state_path w; trace := trace w |}).

(** [rec_cache.save_state()] *)
Definition save_state (rc : RecordCache) : M world unit :=
  modify (fun w => perform (SaveState rc)
            {| code_mgr := code_mgr w; api_project_name := api_project_name w;
               state_path := Some rc; trace := trace w |}).

(** The state file lies in the record's directory,
    [base_dir_path / ".cos" / "state.json"], and goes with it. *)
Definition remove_state_file (w : world) : world :=
  {| code_mgr := code_mgr w; api_project_name := api_project_name w;
     state_path := None; trace := trace w |}.

Section HandleRecord.

Variable conf : CollectorConfig.
Variable E : env.

(** A call on [self.api]: logged, then answered or raised. *)
Definition api (c : call) : M world json :=
  modify (perform (Api c)) ;;;
  match respond E c with
  | Ret v => ret v
  | Raise e => raise e
  end.

(** [d.get(key, dflt)] and [d[key]] on a value expected to be a dict. *)
Definition py_get (d : json) (key : string) (dflt : json) : M world json :=
  match d with
  | JObj o => ret (default dflt (assoc key o))
  | _ => raise (AttributeError "get")
  end.

Definition py_index (d : list (string * json)) (key : string) : M world json :=
  match assoc key d with
  | Some v => ret v
  | None => raise (KeyError key)
  end.

(** The record a platform call returns is a dict. *)
Definition as_dict (v : json) : M world (list (string * json)) :=
  match v with
  | JObj o => ret o
  | _ => raise TypeError
  end.

(** [[f(x) for x in l]] for an [f] that may raise. *)
Fixpoint for_each {A B : Type} (f : A -> M world B) (l : list A) : M world (list B) :=
  match l with
  | [] => ret []
  | x :: l' => y <- f x ;; ys <- for_each f l' ;; ret (y :: ys)
  end.

Definition lift {A : Type} (o : outcome A) : M world A :=
  match o with
  | Ret a => ret a
  | Raise e => raise e
  end.

(** [utils.is_image] *)
Definition is_image (filename : string) : bool :=
  endswith filename ".jpg" || endswith filename ".jpeg"
  || endswith filename ".png".

(** [Collector._upload_record_thumbnail] *)
Fixpoint _upload_record_thumbnail (record_name : json) (infos : list FileInfo)
    : M world unit :=
  match infos with
  | [] => ret tt
  | f :: infos' =>
      if is_image (default "" (filename f)) then
        upload_url <- api (GenerateRecordThumbnailUploadUrl record_name) ;;
        if truthy upload_url
        then api (UploadFile (Path_str (filepath f)) upload_url) ;;; ret tt
        else _upload_record_thumbnail record_name infos'
      else _upload_record_thumbnail record_name infos'
  end.

(** [Collector.__get_record_title]; titles and descriptions are strings. *)
Definition get_record_title (rc : RecordCache) : string :=
  match assoc "title" (record rc) with
  | Some (JStr t) => if String.eqb t "" then
                       match assoc "title" (task rc) with
                       | Some (JStr t') => if String.eqb t' "" then code_title E rc else t'
                       | _ => code_title E rc
                       end
                     else t
  | _ => match assoc "title" (task rc) with
         | Some (JStr t') => if String.eqb t' "" then code_title E rc else t'
         | _ => code_title E rc
         end
  end.

(** [Collector.__make_record_description] *)
Definition make_record_description (title : string) (rc : RecordCache) : string :=
  match assoc "description" (record rc) with
  | Some (JStr d) => if String.eqb d "" then canned_description E title rc else d
  | _ => canned_description E title rc
  end.

(** Dropping the member [key] of the object [o]. *)
Definition del_key (key : string) (o : list (string * json)) : list (string * json) :=
  List.filter (fun kv => negb (String.eqb (fst kv) key)) o.

(** [str(v) == "True"] *)
Definition str_is_True (v : json) : bool :=
  match v with
  | JBool true => true
  | JStr s => String.eqb s "True"
  | _ => false
  end.

(** [ApiClient.create_or_get_record] with [reserve_file_infos=True] *)
Definition create_or_get_record (infos : list FileInfo) (title description : string)
    (labels : list string) (device_name record_name : json)
    : M world (list (string * json)) :=
  infos <- for_each (fun f => lift (complete E f)) infos ;;
  got <- (if negb (truthy record_name)
             || str_is_True record_name
          then api (CreateRecord infos title description labels device_name)
          else api (GetRecord record_name)) ;;
  rec <- as_dict got ;;
  match assoc "head" rec with
  | None => ret (rec ++ [("head", JObj [])])%list
  | Some (JObj head) =>
      ret (List.map (fun kv => if String.eqb (fst kv) "head"
                               then ("head", JObj (del_key "transformation"
                                                     (del_key "files" head)))
                               else kv) rec)
  | Some _ => raise TypeError
  end.

(** [Collector._create_record_and_event]; [if moment.task] holds for every
    moment, a pydantic model being truthy. *)
Definition _create_record_and_event (rc : RecordCache) : M world (list (string * json)) :=
  let record_title := get_record_title rc in
  device_name <- py_get (device E) "name" JNull ;;
  rec <- create_or_get_record (file_infos rc) record_title
           (make_record_description record_title rc) (labels rc) device_name
           (default JNull (assoc "name" (record rc))) ;;
  let name := default JNull (assoc "name" rec) in
  _upload_record_thumbnail name (file_infos rc) ;;;
  for_each (fun m : Moment =>
      let display := if String.eqb (title m) "" then record_title else title m in
      let descr := if String.eqb (description m) "" then record_title
                   else description m in
      device_name <- (match device E with
                      | JObj o => py_index o "name"
                      | _ => raise TypeError
                      end) ;;
      api (CreateEvent name display descr m device_name) ;;;
      api (CreateTask name display descr (assignee (moment_task m))))
    (moments rc) ;;;
  ret rec.

(** [Collector._upload_finish_flag_file] *)
Definition _upload_finish_flag_file (record_name : json) (rc : RecordCache)
    : M world json :=
  let finish := Path_join (base_dir_path E) "finish.flag" in
  file_info <- lift (complete E {| filepath := finish;
                                   filename := Some (Path_name finish);
                                   size := None; sha256 := None |}) ;;
  api (ResumableUploadFiles record_name [file_info]).

(** The label added when the upload is complete, as UTF-8 bytes. *)
Definition upload_done : string := "上传完成".

(** The test of [delete_cache_dir]: [delay_in_hours >= 0] and
    [time.time() - self.timestamp / 1000 > delay_in_hours * 3600], with
    both sides in microseconds. *)
Definition expired (rec_cache : RecordCache) (delay_in_hours : Z) : bool :=
  (delay_in_hours >=? 0)
  && (time_time_us E - timestamp rec_cache * 1000
      >? delay_in_hours * 3600 * 1000000).

(** [RecordCache.delete_cache_dir]: once the delay has passed, the
    record's directory is removed if it exists, the state file with it,
    and then each of [paths_to_delete] that exists, an error there being
    logged and passed over. The paths to delete are sources: they are
    taken to lie outside the record's directory and the limiter's state. *)
Definition delete_cache_dir (rec_cache : RecordCache) (delay_in_hours : Z)
    : M world unit :=
  modify (perform (DeleteCacheDir rec_cache delay_in_hours)) ;;;
  if expired rec_cache delay_in_hours then
    w <- get ;;
    (if match state_path w with Some _ => true | None => false end
        || base_dir_exists E
     then
       modify (perform (Rmtree (base_dir_path E))) ;;;
       match rmtree_base_dir E with
       | Ret _ => modify remove_state_file
       | Raise e =>
           (if state_survives_failed_rmtree E then ret tt
            else modify remove_state_file) ;;;
           raise e
       end
     else ret tt) ;;;
    for_each (fun path_str : string =>
                if path_exists E path_str
                then modify (perform (RemoveSource path_str))
                else ret tt)
      (paths_to_delete rec_cache) ;;;
    ret tt
  else ret tt.

(** [Collector.handle_record]; the [rec_cache] object it mutates is
    returned. Its first statement logs [rec_cache.key]. *)
Definition handle_record (rec_cache : RecordCache) : M world RecordCache :=
  lift (key E) ;;;
  modify (set_api_project_name
            (match project_name rec_cache with
             | Some p => if String.eqb p "" then None else Some p
             | None => None
             end)) ;;;
  if skipped rec_cache then ret rec_cache
  else
    over <- (if negb (truthy (default JNull (assoc "name" (record rec_cache))))
             then match event_code rec_cache with
                  | Some c =>
                      if negb (String.eqb c "")
                      then with_code_mgr (Codes.is_over_limit (Codes.CodeStr c)
                                            (now_is_over_limit E))
                      else ret false
                  | None => ret false
                  end
             else ret false) ;;
    if over then
      let task_name := default (JStr "") (assoc "name" (task rec_cache)) in
      (if truthy task_name
       then api (UpdateTaskState task_name "SUCCEEDED") ;;; ret tt
       else ret tt) ;;;
      let rec_cache := set_skipped true rec_cache in
      save_state rec_cache ;;;
      delete_cache_dir rec_cache (delete_after_interval_in_hours conf) ;;;
      ret rec_cache
    else
      rec_cache <-
        (if negb (truthy (default JNull (assoc "name" (record rec_cache)))) then
           infos <- for_each
                      (fun f : FileInfo =>
                         lift (complete E
                                 {| filepath := Path_join (base_dir_path E)
                                                  (default "" (filename f));
                                    filename := filename f;
                                    size := None; sha256 := None |}))
                      (List.filter
                         (fun f : FileInfo =>
                            is_file E (filepath f)
                            && negb (bool_decide (filename f = Some "finish.flag")))
                         (file_infos rec_cache)) ;;
           let rec_cache := set_file_infos infos rec_cache in
           rec <- _create_record_and_event rec_cache ;;
           let rec_cache := set_record rec rec_cache in
           save_state rec_cache ;;;
           with_code_mgr (Codes.hit (match event_code rec_cache with
                                     | Some c => Codes.CodeStr c
                                     | None => Codes.CodeNone
                                     end) (now_hit E)) ;;;
           ret rec_cache
         else ret rec_cache) ;;
      if negb (uploaded rec_cache) then
        let rec_cache :=
          set_file_infos
            (List.filter (fun f : FileInfo =>
                            bool_decide (Path_str (filepath f) ∈ list_files E))
               (file_infos rec_cache)) rec_cache in
        name <- py_index (record rec_cache) "name" ;;
        all_completed <- api (ResumableUploadFiles name (file_infos rec_cache)) ;;
        if truthy all_completed then
          flag_uploaded <- _upload_finish_flag_file name rec_cache ;;
          if negb (truthy flag_uploaded) then ret rec_cache
          else
            api (UpdateRecord name (labels rec_cache ++ [upload_done])) ;;;
            let task_name := default (JStr "") (assoc "name" (task rec_cache)) in
            (if truthy task_name
             then api (PutTaskTags task_name
                         (default JNull (assoc "name" (record rec_cache)))) ;;;
                  api (UpdateTaskState task_name "SUCCEEDED") ;;; ret tt
             else ret tt) ;;;
            let rec_cache := set_uploaded true rec_cache in
            save_state rec_cache ;;;
            (if delete_after_upload conf
             then delete_cache_dir rec_cache 0
             else ret tt) ;;;
            ret rec_cache
        else ret rec_cache
      else ret rec_cache.

End HandleRecord.

(** *** Specification-side notions for the collector *)

(** The effect is a [create_record] call. *)
Definition is_create_record (e : effect) : bool :=
  match e with
  | Api (CreateRecord _ _ _ _ _) => true
  | _ => false
  end.

(** [rec_cache.record.get("name")] is unset. *)
Definition record_name_unset (rc : RecordCache) : Prop :=
  truthy (default JNull (assoc "name" (record rc))) = false.

(** [rec_cache.task.get("name", "")] *)
Definition task_name (rc : RecordCache) : json :=
  default (JStr "") (assoc "name" (task rc)).

(** Scenario S-6: a fresh record with event code X and a task, a limiter
    whose whitelist lacks X, and a platform that accepts every call. *)
Definition s6_record : RecordCache :=
  {| uploaded := false; skipped := false; event_code := Some "X";
     project_name := None; timestamp := 0; labels := []; record := [];
     moments := []; task := [("name", JStr "tasks/7")]; files := [];
     file_infos := []; paths_to_delete := [] |}.

Definition s6_conf : CollectorConfig :=
  {| delete_after_upload := true; delete_after_interval_in_hours := -1;
     scan_interval_in_secs := 60 |}.

Definition s6_env : env :=
  {| respond := fun _ => Ret JNull;
     now_is_over_limit := 1700000000; now_hit := 1700000000;
     device := JObj [("name", JStr "devices/1")];
     is_file := fun _ => true;
     complete := fun f => Ret f;
     base_dir_path := Path_of_str "/records/X";
     list_files := [];
     code_title := fun _ => "Unknown Error (X)";
     canned_description := fun t _ => t;
     key := Ret "X_1970-01-01-00-00-00_0";
     time_time_us := 1700000000000000;
     base_dir_exists := false;
     rmtree_base_dir := Ret tt;
     state_survives_failed_rmtree := false;
     path_exists := fun _ => false |}.

Definition s6_world : world :=
  {| code_mgr := Codes.init
                   {| Codes.enabled := true; Codes.whitelist := ∅;
                      Codes.reset_interval_in_secs := 86400;
                      Codes.code_json_url := "code.json" |} None;
     api_project_name := None; state_path := None; trace := [] |}.

(** What [delete_cache_dir] removes of the existing [paths_to_delete]. *)
Definition source_removals (E : env) (rc : RecordCache) : list effect :=
  List.map RemoveSource (List.filter (path_exists E) (paths_to_delete rc)).

(** *** Properties of [handle_record] *)

Definition emit_all (es : list effect) (w : world) : world :=
  {| code_mgr := code_mgr w; api_project_name := api_project_name w;
     state_path := state_path w; trace := trace w ++ es |}.

(** The loop of [delete_cache_dir] over [paths_to_delete]. *)
Lemma remove_sources_run (E : env) (paths : list string) :
  forall w : world,
    for_each (fun path_str : string =>
                if path_exists E path_str
                then modify (perform (RemoveSource path_str))
                else ret tt) paths w
    = (Ret (List.map (fun _ => tt) paths),
       emit_all (List.map RemoveSource (List.filter (path_exists E) paths)) w).
Proof.
  induction paths as [|p paths IH]; intros w.
  - cbn. unfold emit_all. rewrite app_nil_r. destruct w. reflexivity.
  - cbn [for_each List.filter List.map]. unfold bind at 1.
    destruct (path_exists E p).
    + cbn [modify]. unfold bind at 1. rewrite IH. cbn [ret].
      unfold emit_all, perform. cbn. rewrite <- app_assoc. reflexivity.
    + cbn [ret]. unfold bind at 1. rewrite IH. reflexivity.
Qed.

(** [delete_cache_dir] on a record whose state file exists. *)
Definition after_delete (E : env) (rc : RecordCache) (delay : Z) (w : world)
    : outcome unit * world :=
  if expired E rc delay then
    match rmtree_base_dir E with
    | Ret _ =>
        (Ret tt,
         emit_all (DeleteCacheDir rc delay :: Rmtree (base_dir_path E)
                   :: source_removals E rc) (remove_state_file w))
    | Raise e =>
        (Raise e,
         emit_all [DeleteCacheDir rc delay; Rmtree (base_dir_path E)]
           (if state_survives_failed_rmtree E then w else remove_state_file w))
    end
  else (Ret tt, emit_all [DeleteCacheDir rc delay] w).

Lemma delete_cache_dir_saved (E : env) (rc saved : RecordCache) (delay : Z)
    (w : world) :
  state_path w = Some saved ->
  delete_cache_dir E rc delay w = after_delete E rc delay w.
Proof.
  intros Hsaved. unfold delete_cache_dir, after_delete.
  unfold bind at 1, modify at 1.
  destruct (expired E rc delay); [|reflexivity].
  unfold bind at 1, bind at 1, get at 1. cbn [perform state_path].
  rewrite Hsaved. cbn [orb]. unfold bind at 1, modify at 1.
  destruct (rmtree_base_dir E) as [[]|e].
  - cbn [modify]. unfold bind at 1. rewrite remove_sources_run.
    unfold emit_all, remove_state_file, perform, source_removals. cbn.
    rewrite <- !app_assoc. reflexivity.
  - destruct (state_survives_failed_rmtree E);
      unfold emit_all, remove_state_file, perform; cbn;
      rewrite <- !app_assoc; reflexivity.
Qed.

(** C9. On a fresh RecordCache (record name unset, [skipped] false) with
    an event code for which the limiter answers over-limit,
    [handle_record] never calls [create_record]. When the record's key can
    be formed and the task update, if there is a task, is accepted, it
    marks the task SUCCEEDED, sets [skipped], saves that state and calls
    [delete_cache_dir] with the configured delay, in this order. The state
    file then holds the record with [skipped] set, unless the delay is not
    negative and has passed: then the record's directory is removed at
    once, the saved state with it, and after it the sources to delete. *)
Theorem handle_record_skips_when_over_limit :
  forall (conf : CollectorConfig) (E : env) (w : world) (rc : RecordCache)
         (c : string) (mgr : Codes.manager),
    skipped rc = false ->
    record_name_unset rc ->
    event_code rc = Some c ->
    c <> "" ->
    Codes.is_over_limit (Codes.CodeStr c) (now_is_over_limit E) (code_mgr w)
    = (Ret true, mgr) ->
    let rc' := set_skipped true rc in
    let delay := delete_after_interval_in_hours conf in
    let mark := if truthy (task_name rc)
                then [Api (UpdateTaskState (task_name rc) "SUCCEEDED")]
                else [] in
    let run := handle_record conf E rc w in
    (exists added,
        trace (snd run) = (trace w ++ added)%list
        /\ forallb (fun e => negb (is_create_record e)) added = true)
    /\ ((exists k, key E = Ret k) ->
        (truthy (task_name rc) = true ->
         exists v, respond E (UpdateTaskState (task_name rc) "SUCCEEDED") = Ret v) ->
        skipped rc' = true
        /\ exists removed,
             trace (snd run)
             = (trace w ++ mark
                ++ [SaveState rc'; DeleteCacheDir rc' delay] ++ removed)%list
             /\ if expired E rc' delay
                then match rmtree_base_dir E with
                     | Ret _ =>
                         fst run = Ret rc' /\ state_path (snd run) = None
                         /\ removed = Rmtree (base_dir_path E)
                                      :: source_removals E rc'
                     | Raise e =>
                         fst run = Raise e
                         /\ removed = [Rmtree (base_dir_path E)]
                         /\ state_path (snd run)
                            = if state_survives_failed_rmtree E
                              then Some rc' else None
                     end
                else fst run = Ret rc' /\ state_path (snd run) = Some rc'
                     /\ removed = []).
Proof.
  intros conf E w rc c mgr Hsk Hname Hcode Hc Hover rc' delay mark run.
  unfold record_name_unset in Hname. apply String.eqb_neq in Hc.
  destruct (key E) as [k|ek] eqn:Hkey.
  2:{ assert (Hrun : run = (Raise ek, w)).
      { subst run. unfold handle_record, bind at 1, lift. rewrite Hkey.
        reflexivity. }
      rewrite Hrun. cbn [fst snd]. split.
      - exists []. rewrite app_nil_r. split; reflexivity.
      - intros [k Hk]. discriminate. }
  set (w0 := {| code_mgr := mgr; api_project_name :=
                  match project_name rc with
                  | Some p => if String.eqb p "" then None else Some p
                  | None => None
                  end;
                state_path := state_path w; trace := trace w |}).
  set (saved := fun w1 : world =>
                  perform (SaveState rc')
                    {| code_mgr := code_mgr w1;
                       api_project_name := api_project_name w1;
                       state_path := Some rc'; trace := trace w1 |}).
  set (finish := fun w1 : world =>
                   match after_delete E rc' delay (saved w1) with
                   | (Ret _, w3) => (Ret rc', w3)
                   | (Raise e, w3) => (Raise e, w3)
                   end).
  assert (Htail : forall w1 : world,
            (save_state rc' ;;; delete_cache_dir E rc' delay ;;; ret rc')%py w1
            = finish w1).
  { intros w1. unfold bind at 1, save_state at 1, modify at 1. fold (saved w1).
    unfold bind at 1. rewrite (delete_cache_dir_saved E rc' rc' delay (saved w1) eq_refl).
    subst finish. cbv beta. destruct (after_delete E rc' delay (saved w1)) as [[[]|e] w3];
      reflexivity. }
  assert (Hrun : run
    = bind ((if truthy (task_name rc)
             then (api E (UpdateTaskState (task_name rc) "SUCCEEDED") ;;; ret tt)%py
             else ret tt) : M world unit)
        (fun _ : unit => finish) w0).
  { subst run. unfold handle_record. unfold bind at 1, lift at 1. rewrite Hkey.
    unfold ret at 1. unfold bind at 1, modify at 1. rewrite Hsk.
    rewrite Hname, Hcode, Hc. cbn [negb].
    unfold bind at 1, with_code_mgr. cbn [code_mgr set_api_project_name].
    rewrite Hover. fold w0. cbv iota. fold (task_name rc).
    unfold bind at 1. symmetry. unfold bind at 1. symmetry.
    lazymatch goal with
    | |- match ?f ?x with _ => _ end = _ => change x with w0
    end.
    lazymatch goal with
    | |- match ?m with _ => _ end = _ => destruct m as [[[]|e] w1]
    end; [apply Htail | reflexivity]. }
  rewrite Hrun. clear Hrun Htail. subst mark.
  assert (Hfinish : forall (w1 : world) (pre : list effect),
            trace w1 = (trace w ++ pre)%list ->
            (exists added,
                trace (snd (finish w1)) = (trace w ++ added)%list
                /\ forallb (fun e => negb (is_create_record e)) added
                   = forallb (fun e => negb (is_create_record e)) pre)
            /\ exists removed,
                 trace (snd (finish w1))
                 = (trace w ++ pre
                    ++ [SaveState rc'; DeleteCacheDir rc' delay] ++ removed)%list
                 /\ if expired E rc' delay
                    then match rmtree_base_dir E with
                         | Ret _ =>
                             fst (finish w1) = Ret rc'
                             /\ state_path (snd (finish w1)) = None
                             /\ removed = Rmtree (base_dir_path E)
                                          :: source_removals E rc'
                         | Raise e =>
                             fst (finish w1) = Raise e
                             /\ removed = [Rmtree (base_dir_path E)]
                             /\ state_path (snd (finish w1))
                                = if state_survives_failed_rmtree E
                                  then Some rc' else None
                         end
                    else fst (finish w1) = Ret rc'
                         /\ state_path (snd (finish w1)) = Some rc'
                         /\ removed = []).
  { intros w1 pre Hpre. subst finish saved. cbv beta. unfold after_delete.
    assert (Hsrc : forallb (fun e => negb (is_create_record e))
                     (source_removals E rc') = true).
    { unfold source_removals. induction (List.filter _ _) as [|p l IH];
        [reflexivity | exact IH]. }
    destruct (expired E rc' delay).
    - destruct (rmtree_base_dir E) as [[]|e].
      + cbn [fst snd emit_all perform remove_state_file trace state_path].
        rewrite Hpre. split.
        * eexists. rewrite <- !app_assoc. split; [reflexivity|].
          rewrite forallb_app. cbn [forallb app negb is_create_record andb].
          rewrite Hsrc, andb_true_r. reflexivity.
        * eexists. rewrite <- !app_assoc. split; [reflexivity|].
          split; [reflexivity|]. split; reflexivity.
      + destruct (state_survives_failed_rmtree E);
          cbn [fst snd emit_all perform remove_state_file trace state_path];
          rewrite Hpre; (split;
            [eexists; rewrite <- !app_assoc; split; [reflexivity|];
             rewrite forallb_app; cbn; rewrite andb_true_r; reflexivity
            |eexists; rewrite <- !app_assoc; split; [reflexivity|];
             split; [reflexivity|]; split; reflexivity]).
    - cbn [fst snd emit_all perform remove_state_file trace state_path].
      rewrite Hpre. split.
      + eexists. rewrite <- !app_assoc. split; [reflexivity|].
        rewrite forallb_app. cbn. rewrite andb_true_r. reflexivity.
      + exists []. rewrite <- !app_assoc. split; [reflexivity|].
        split; [reflexivity|]. split; reflexivity. }
  unfold task_name in *.
  destruct (truthy (default (JStr "") (assoc "name" (task rc)))) eqn:Htask.
  - unfold bind at 1, api, bind at 1, modify at 1.
    destruct (respond E _) as [v|e] eqn:Hresp.
    + unfold ret at 1. cbv iota beta. unfold ret at 1. cbv iota.
      destruct (Hfinish (perform (Api (UpdateTaskState
                  (default (JStr "") (assoc "name" (task rc))) "SUCCEEDED")) w0)
                  [Api (UpdateTaskState
                     (default (JStr "") (assoc "name" (task rc))) "SUCCEEDED")]
                  eq_refl) as [(added & Ha & Hnc) Hrest].
      split.
      * exists added. split; [exact Ha|]. rewrite Hnc. reflexivity.
      * intros _ _. split; [reflexivity|]. exact Hrest.
    + unfold raise. cbv iota beta. cbn [fst snd perform trace w0]. split.
      * eexists. split; [reflexivity|reflexivity].
      * intros _ H. destruct (H eq_refl) as [v Hv]. discriminate.
  - unfold ret at 1. cbv iota.
    destruct (Hfinish w0 [] (eq_sym (app_nil_r _))) as [(added & Ha & Hnc) Hrest].
    split.
    + exists added. split; [exact Ha|]. rewrite Hnc. reflexivity.
    + intros _ _. split; [reflexivity|]. exact Hrest.
Qed.

(** Scenario S-6 meets the hypotheses of C9; its delay of -1 hours lets
    the saved state stand. *)
Lemma handle_record_skips_when_over_limit_witness :
  fst (handle_record s6_conf s6_env s6_record s6_world)
  = Ret (set_skipped true s6_record)
  /\ skipped (set_skipped true s6_record) = true
  /\ state_path (snd (handle_record s6_conf s6_env s6_record s6_world))
     = Some (set_skipped true s6_record)
  /\ trace (snd (handle_record s6_conf s6_env s6_record s6_world))
     = [Api (UpdateTaskState (JStr "tasks/7") "SUCCEEDED");
        SaveState (set_skipped true s6_record);
        DeleteCacheDir (set_skipped true s6_record) (-1)].
Proof.
  destruct (proj2 (handle_record_skips_when_over_limit s6_conf s6_env s6_world
                     s6_record "X"
                     (snd (Codes.is_over_limit (Codes.CodeStr "X") 1700000000
                             (code_mgr s6_world)))
                     eq_refl eq_refl eq_refl ltac:(discriminate) eq_refl)
             (ex_intro _ _ eq_refl)
             (fun _ => ex_intro _ JNull eq_refl))
    as (Hsk & removed & Htr & Hf & Hst & ->).
  split; [exact Hf|]. split; [exact Hsk|]. split; [exact Hst|]. exact Htr.
Defined.

(** With a delay of 0 hours the same record, triggered long ago, is
    saved and removed at once: no state file is left. *)
Lemma s6_state_removed_when_delay_passed :
  let conf := {| delete_after_upload := true; delete_after_interval_in_hours := 0;
                 scan_interval_in_secs := 60 |} in
  fst (handle_record conf s6_env s6_record s6_world)
  = Ret (set_skipped true s6_record)
  /\ state_path (snd (handle_record conf s6_env s6_record s6_world)) = None
  /\ trace (snd (handle_record conf s6_env s6_record s6_world))
     = [Api (UpdateTaskState (JStr "tasks/7") "SUCCEEDED");
        SaveState (set_skipped true s6_record);
        DeleteCacheDir (set_skipped true s6_record) 0;
        Rmtree (Path_of_str "/records/X")].
Proof. vm_compute. repeat split; reflexivity. Qed.

(** *** Further properties of [handle_record] *)

(** The effect belongs to the creation of a record: the record itself,
    its thumbnail, its events and tasks. *)
Definition creates (e : effect) : bool :=
  match e with
  | Api (CreateRecord _ _ _ _ _) | Api (GetRecord _)
  | Api (GenerateRecordThumbnailUploadUrl _) | Api (UploadFile _ _)
  | Api (CreateEvent _ _ _ _ _) | Api (CreateTask _ _ _ _) => true
  | _ => false
  end.

(** A computation that leaves the limiter alone and whose effects all
    satisfy [allowed], however it ends. *)
Definition quiet (allowed : effect -> Prop) {A : Type} (m : M world A) : Prop :=
  forall w, code_mgr (snd (m w)) = code_mgr w
            /\ exists added, trace (snd (m w)) = (trace w ++ added)%list
                             /\ Forall allowed added.

Section Quiet.

Variable allowed : effect -> Prop.

Lemma quiet_ret {A : Type} (a : A) : quiet allowed (ret a).
Proof.
  intros w. split; [reflexivity|]. exists []. rewrite app_nil_r. split; constructor.
Qed.

Lemma quiet_raise {A : Type} (e : exn) : quiet allowed (raise (A:=A) e).
Proof.
  intros w. split; [reflexivity|]. exists []. rewrite app_nil_r. split; constructor.
Qed.

Lemma quiet_bind {A B : Type} (m : M world A) (k : A -> M world B) :
  quiet allowed m -> (forall a, quiet allowed (k a)) -> quiet allowed (bind m k).
Proof.
  intros Hm Hk w. unfold bind. destruct (Hm w) as (Hc & added & Ht & Hall).
  destruct (m w) as [[a|e] w1]; cbn [snd] in *.
  - destruct (Hk a w1) as (Hc' & added' & Ht' & Hall').
    split; [congruence|]. exists (added ++ added')%list.
    rewrite Ht', Ht, app_assoc. split; [reflexivity|].
    apply Forall_app; split; assumption.
  - split; [exact Hc|]. exists added. split; assumption.
Qed.

Lemma quiet_perform (e : effect) : allowed e -> quiet allowed (modify (perform e)).
Proof.
  intros He w. split; [reflexivity|]. exists [e]. split; [reflexivity|].
  repeat constructor. exact He.
Qed.

Lemma quiet_set_api_project_name (p : option string) :
  quiet allowed (modify (set_api_project_name p)).
Proof.
  intros w. split; [reflexivity|]. exists []. cbn. rewrite app_nil_r.
  split; constructor.
Qed.

Lemma quiet_save_state (rc : RecordCache) :
  allowed (SaveState rc) -> quiet allowed (save_state rc).
Proof.
  intros He w. split; [reflexivity|]. exists [SaveState rc]. split; [reflexivity|].
  repeat constructor. exact He.
Qed.

Lemma quiet_api (E : env) (c : call) : allowed (Api c) -> quiet allowed (api E c).
Proof.
  intros He. unfold api. apply quiet_bind; [apply quiet_perform, He|].
  intros _. destruct (respond E c); [apply quiet_ret | apply quiet_raise].
Qed.

Lemma quiet_lift {A : Type} (o : outcome A) : quiet allowed (lift o).
Proof. destruct o; [apply quiet_ret | apply quiet_raise]. Qed.

Lemma quiet_py_index (d : list (string * json)) (key : string) :
  quiet allowed (py_index d key).
Proof. unfold py_index. destruct (assoc key d); [apply quiet_ret | apply quiet_raise]. Qed.

Lemma quiet_remove_state_file : quiet allowed (modify remove_state_file).
Proof.
  intros w. split; [reflexivity|]. exists []. cbn. rewrite app_nil_r.
  split; constructor.
Qed.

Lemma quiet_get : quiet allowed get.
Proof.
  intros w. split; [reflexivity|]. exists []. cbn. rewrite app_nil_r.
  split; constructor.
Qed.

Lemma quiet_for_each {A B : Type} (f : A -> M world B) (l : list A) :
  (forall x, quiet allowed (f x)) -> quiet allowed (for_each f l).
Proof.
  intros Hf. induction l as [|x l IH]; cbn [for_each]; [apply quiet_ret|].
  apply quiet_bind; [apply Hf|]. intros y.
  apply quiet_bind; [exact IH|]. intros ys. apply quiet_ret.
Qed.

Lemma quiet_delete_cache_dir (E : env) (rc : RecordCache) (delay : Z) :
  allowed (DeleteCacheDir rc delay) ->
  allowed (Rmtree (base_dir_path E)) ->
  (forall p, allowed (RemoveSource p)) ->
  quiet allowed (delete_cache_dir E rc delay).
Proof.
  intros Hd Hr Hs. unfold delete_cache_dir.
  apply quiet_bind; [apply quiet_perform, Hd|]. intros _.
  destruct (expired E rc delay); [|apply quiet_ret].
  apply quiet_bind; [apply quiet_get|]. intros w.
  apply quiet_bind.
  - destruct (_ || _); [|apply quiet_ret].
    apply quiet_bind; [apply quiet_perform, Hr|]. intros _.
    destruct (rmtree_base_dir E) as [[]|e]; [apply quiet_remove_state_file|].
    apply quiet_bind; [|intros _; apply quiet_raise].
    destruct (state_survives_failed_rmtree E);
      [apply quiet_ret | apply quiet_remove_state_file].
  - intros _. apply quiet_bind; [|intros _; apply quiet_ret].
    apply quiet_for_each. intros p.
    destruct (path_exists E p); [apply quiet_perform, Hs | apply quiet_ret].
Qed.

End Quiet.

Ltac case_if :=
  match goal with
  | |- quiet _ (if ?b then _ else _) => destruct b
  end.

(** X14. A record that already has a name is not created again: whatever
    the platform answers, [handle_record] on it calls none of
    [create_record], [get_record], the thumbnail upload, [create_event] and
    [create_task], and leaves the limiter's counters as they are; all it
    may do is upload files, update the record and its task, save the state
    and delete the cache dir. *)
Theorem named_record_is_not_created_again :
  forall (conf : CollectorConfig) (E : env) (rc : RecordCache) (w : world),
    truthy (default JNull (assoc "name" (record rc))) = true ->
    let w' := snd (handle_record conf E rc w) in
    code_mgr w' = code_mgr w
    /\ exists added, trace w' = (trace w ++ added)%list
                     /\ Forall (fun e => creates e = false) added.
Proof.
  intros conf E rc w Hname.
  assert (Hquiet : quiet (fun e => creates e = false) (handle_record conf E rc));
    [|exact (Hquiet w)].
  unfold handle_record. rewrite Hname. cbn [negb].
  apply quiet_bind; [apply quiet_lift|]. intros _.
  apply quiet_bind; [apply quiet_set_api_project_name|]. intros _.
  case_if; [apply quiet_ret|].
  apply quiet_bind; [apply quiet_ret|]. intros [|].
  - apply quiet_bind.
    + case_if; [|apply quiet_ret].
      apply quiet_bind; [apply quiet_api; reflexivity|]. intros _. apply quiet_ret.
    + intros _. apply quiet_bind; [apply quiet_save_state; reflexivity|].
      intros _.
      apply quiet_bind; [apply quiet_delete_cache_dir; reflexivity|].
      intros _. apply quiet_ret.
  - apply quiet_bind; [apply quiet_ret|]. intros rc1.
    case_if; [|apply quiet_ret].
    apply quiet_bind; [apply quiet_py_index|]. intros name.
    apply quiet_bind; [apply quiet_api; reflexivity|]. intros all_completed.
    case_if; [|apply quiet_ret].
    apply quiet_bind.
    { unfold _upload_finish_flag_file. apply quiet_bind; [apply quiet_lift|].
      intros file_info. apply quiet_api. reflexivity. }
    intros flag_uploaded. case_if; [apply quiet_ret|].
    apply quiet_bind; [apply quiet_api; reflexivity|]. intros _.
    apply quiet_bind.
    + case_if; [|apply quiet_ret].
      apply quiet_bind; [apply quiet_api; reflexivity|]. intros _.
      apply quiet_bind; [apply quiet_api; reflexivity|]. intros _. apply quiet_ret.
    + intros _. apply quiet_bind; [apply quiet_save_state; reflexivity|]. intros _.
      apply quiet_bind.
      * case_if; [apply quiet_delete_cache_dir; reflexivity | apply quiet_ret].
      * intros _. apply quiet_ret.
Qed.

(** A record created before the connection was lost, not yet uploaded. *)
Definition created_record : RecordCache :=
  {| uploaded := false; skipped := false; event_code := Some "X";
     project_name := None; timestamp := 0; labels := [];
     record := [("name", JStr "projects/p/records/r")];
     moments := []; task := []; files := [];
     file_infos := []; paths_to_delete := [] |}.

Lemma named_record_is_not_created_again_witness :
  code_mgr (snd (handle_record s6_conf s6_env created_record s6_world))
  = code_mgr s6_world
  /\ exists added,
       trace (snd (handle_record s6_conf s6_env created_record s6_world))
       = (trace s6_world ++ added)%list
       /\ Forall (fun e => creates e = false) added.
Proof.
  apply (named_record_is_not_created_again s6_conf s6_env created_record s6_world).
  reflexivity.
Defined.

End Collector.

(** ** cos/mods/common/default/file_state_handler.py and handlers/ *)

Module FileState.

Import Models.

Local Open Scope py_scope.

(** A Python dict with string keys, members in insertion order. *)
Abbreviation dict := (list (string * json)).

(** [{**d, key: value}] *)
Fixpoint dict_set (key : string) (value : json) (d : dict) : dict :=
  match d with
  | [] => [(key, value)]
  | (k, v) :: d' => if String.eqb k key then (k, value) :: d'
                    else (k, v) :: dict_set key value d'
  end.

(** What the file system and the readers of the third-party libraries
    show of one child of a watched directory: its absolute path and name,
    its kind, [stat().st_size], the results of [get_start_timestamp] and
    [get_end_timestamp] (log_utils), the MCAP summary ([None] when the file
    has none) with its statistics' [message_start_time] and
    [message_end_time], the [start_time] and [end_time] of the ROS1 and
    ROS2 readers, the children of a directory as (name, is a file, size),
    and what [diagnose] does. A reader attribute is any Python value. *)
Record dir_entry : Type := {
  path : string;
  name : string;
  entry_is_file : bool;
  entry_is_dir : bool;
  st_size : outcome Z;
  start_timestamp : outcome (option Z);
  end_timestamp : outcome (option Z);
  mcap_summary : outcome (option (json * json));
  ros1_reader : outcome (json * json);
  ros2_reader : outcome (json * json);
  children : list (string * bool * Z);
  diagnosis : outcome unit
}.

(** The singleton: [self.state] and the file at [FILE_STATE_PATH]. *)
Record world : Type := {
  state : gmap string dict;
  state_path : option (gmap string dict)
}.

Definition lift {A : Type} (o : outcome A) : M world A :=
  match o with
  | Ret a => ret a
  | Raise e => raise e
  end.

(** [FileStateHandler.load_state] *)
Definition load_state : M world unit :=
  modify (fun w => match state_path w with
                   | Some saved => {| state := saved; state_path := state_path w |}
                   | None => w
                   end).

(** [FileStateHandler.save_state] *)
Definition save_state : M world unit :=
  modify (fun w => {| state := state w; state_path := Some (state w) |}).

(** [FileStateHandler.__set_file_state] *)
Definition set_file_state (file_path : string) (update_value : dict) : M world unit :=
  modify (fun w => {| state := <[file_path := update_value]> (state w);
                      state_path := state_path w |}).

(** [FileStateHandler.get_file_state] *)
Definition get_file_state (file_path : string) : M world (option dict) :=
  w <- get ;; ret (state w !! file_path).

(** [FileStateHandler.__update_file_state]; an empty dict is falsy. *)
Definition update_file_state (file_path key : string) (value : json) : M world unit :=
  file_state <- get_file_state file_path ;;
  match file_state with
  | None | Some [] => ret tt
  | Some d => set_file_state file_path (dict_set key value d)
  end.

(** [FileStateHandler.__update_deleted_file_state], with [Path.exists]. *)
Definition update_deleted_file_state (exists_ : string -> bool) : M world unit :=
  modify (fun w => {| state := filter (fun kv => exists_ (fst kv) = true) (state w);
                      state_path := state_path w |}).

(** [x // 1_000_000_000] on a reader attribute: defined on an [int]. *)
Definition to_seconds (x : json) : M world json :=
  match x with
  | JInt z => ret (JInt (z / 1000000000))
  | JBool b => ret (JInt 0)
  | _ => raise TypeError
  end.

(** [class HandlerInterface] *)
Record Handler : Type := {
  supports_static : bool;
  check_file_path : dir_entry -> bool;
  get_file_size : dir_entry -> M world Z;
  update_path_state : dir_entry -> M world unit
}.

Definition unsupported_state (size : Z) : dict :=
  [("size", JInt size); ("unsupported", JBool true)].

(** [class LogHandler] *)
Definition LogHandler : Handler :=
  {| supports_static := false;
     check_file_path := fun e => entry_is_file e && endswith (name e) ".log";
     get_file_size := fun e => lift (st_size e);
     update_path_state := fun e =>
       start_time <- lift (start_timestamp e) ;;
       match start_time with
       | None => size <- lift (st_size e) ;;
                 set_file_state (path e) (unsupported_state size)
       | Some start_time =>
           end_time <- lift (end_timestamp e) ;;
           match end_time with
           | None => size <- lift (st_size e) ;;
                     set_file_state (path e) (unsupported_state size)
           | Some end_time =>
               size <- lift (st_size e) ;;
               set_file_state (path e)
                 [("size", JInt size); ("start_time", JInt start_time);
                  ("end_time", JInt end_time)]
           end
       end |}.

(** [class McapHandler] *)
Definition McapHandler : Handler :=
  {| supports_static := true;
     check_file_path := fun e => entry_is_file e && endswith (name e) ".mcap";
     get_file_size := fun e => lift (st_size e);
     update_path_state := fun e =>
       summary <- lift (mcap_summary e) ;;
       match summary with
       | None => ret tt
       | Some (message_start_time, message_end_time) =>
           start_time <- to_seconds message_start_time ;;
           end_time <- to_seconds message_end_time ;;
           size <- lift (st_size e) ;;
           set_file_state (path e)
             [("size", JInt size); ("start_time", start_time);
              ("end_time", end_time)]
       end |}.

(** [class Ros1Handler] *)
Definition Ros1Handler : Handler :=
  {| supports_static := true;
     check_file_path := fun e =>
       entry_is_file e
       && (endswith (name e) ".bag" || endswith (name e) ".bag.active");
     get_file_size := fun e => lift (st_size e);
     update_path_state := fun e =>
       reader <- lift (ros1_reader e) ;;
       start_time <- to_seconds (fst reader) ;;
       end_time <- to_seconds (snd reader) ;;
       size <- lift (st_size e) ;;
       set_file_state (path e)
         [("size", JInt size); ("start_time", start_time);
          ("end_time", end_time)] |}.

(** [Ros2Handler.__compute_ros2_dir_size] *)
Definition compute_ros2_dir_size (e : dir_entry) : Z :=
  List.fold_left
    (fun size c => match c with
                   | (n, is_file, sz) =>
                       if is_file && (endswith n ".db3" || String.eqb n "metadata.yaml")
                       then size + sz else size
                   end)
    (children e) 0.

(** [class Ros2Handler] *)
Definition Ros2Handler : Handler :=
  {| supports_static := true;
     check_file_path := fun e =>
       entry_is_dir e
       && existsb (fun c => match c with
                            | (n, is_file, _) =>
                                is_file && negb (String.eqb n "metadata.yaml")
                                && endswith n ".db3"
                            end) (children e)
       && existsb (fun c => match c with
                            | (n, is_file, _) => is_file && String.eqb n "metadata.yaml"
                            end) (children e);
     get_file_size := fun e => ret (compute_ros2_dir_size e);
     update_path_state := fun e =>
       let dir_size := compute_ros2_dir_size e in
       reader <- lift (ros2_reader e) ;;
       start_time <- to_seconds (fst reader) ;;
       end_time <- to_seconds (snd reader) ;;
       set_file_state (path e)
         [("size", JInt dir_size); ("start_time", start_time);
          ("end_time", end_time); ("is_dir", JBool true)] |}.

(** [HANDLERS] *)
Definition HANDLERS : list Handler :=
  [LogHandler; McapHandler; Ros1Handler; Ros2Handler].

(** The body of the inner loop of [update_dir] for one handler. *)
Definition update_with (handler : Handler) (entry : dir_entry) : M world unit :=
  if negb (check_file_path handler entry) then ret tt
  else
    file_state <- get_file_state (path entry) ;;
    up_to_date <-
      (match file_state with
       | None | Some [] => ret false
       | Some d =>
           size <- get_file_size handler entry ;;
           ret (match assoc "size" d with
                | Some (JInt z) => z =? size
                | _ => false
                end)
       end) ;;
    if (up_to_date : bool) then ret tt
    else
      try_except (update_path_state handler entry)
        (fun _ => size <- lift (st_size entry) ;;
                  set_file_state (path entry) (unsupported_state size)).

Fixpoint for_each {A : Type} (f : A -> M world unit) (l : list A) : M world unit :=
  match l with
  | [] => ret tt
  | x :: l' => f x ;;; for_each f l'
  end.

(** The loops of [update_dir] over [dir_path.iterdir()]. *)
Definition update_entries (listing : list dir_entry) : M world unit :=
  for_each (fun entry => for_each (fun handler => update_with handler entry) HANDLERS)
    listing.

(** [FileStateHandler.update_dir] *)
Definition update_dir (listing : list dir_entry) (exists_ : string -> bool)
    : M world unit :=
  update_entries listing ;;;
  update_deleted_file_state exists_ ;;;
  save_state.

(** The body of the loop of [static_file_diagnosis] for one handler;
    [true]: the method returns. *)
Definition diagnose_with (handler : Handler) (entry : dir_entry) : M world bool :=
  if negb (supports_static handler) || negb (check_file_path handler entry)
  then ret false
  else
    file_state <- get_file_state (path entry) ;;
    match file_state with
    | None | Some [] => ret true
    | Some d =>
        same_size <-
          (if truthy (default JNull (assoc "processed" d)) then
             size <- get_file_size handler entry ;;
             ret (match assoc "size" d with
                  | Some (JInt z) => z =? size
                  | _ => false
                  end)
           else ret false) ;;
        if (same_size : bool) then ret true
        else if truthy (default JNull (assoc "unsupported" d)) then ret true
        else
          update_file_state (path entry) "processed" (JBool true) ;;;
          save_state ;;;
          lift (diagnosis entry) ;;;
          ret false
    end.

(** [FileStateHandler.static_file_diagnosis] *)
Fixpoint static_file_diagnosis_from (handlers : list Handler) (entry : dir_entry)
    : M world unit :=
  match handlers with
  | [] => ret tt
  | handler :: handlers' =>
      returned <- diagnose_with handler entry ;;
      if (returned : bool) then ret tt
      else static_file_diagnosis_from handlers' entry
  end.

Definition static_file_diagnosis (entry : dir_entry) : M world unit :=
  static_file_diagnosis_from HANDLERS entry.

(** The [dir_path] argument of [get_files] as callers pass it: a path, or,
    from the default mod, a list of paths. *)
Inductive dir_arg : Type :=
| APath (p : Path)
| AList (l : list Path).

(** [Path(filename).parent == dir_path]; a path never equals a list. *)
Definition parent_is (filename : string) (dir_path : dir_arg) : bool :=
  match dir_path with
  | APath p => bool_decide (Path_parent (Path_of_str filename) = p)
  | AList _ => false
  end.

(** [a <= b] and [a >= b] for a dict member [a] and an [int] [b]. *)
Definition py_le (a : option json) (b : Z) : outcome bool :=
  match a with
  | Some (JInt z) => Ret (z <=? b)
  | Some (JBool x) => Ret ((if x then 1 else 0) <=? b)
  | _ => Raise TypeError
  end.

Definition py_ge (a : option json) (b : Z) : outcome bool :=
  match a with
  | Some (JInt z) => Ret (z >=? b)
  | Some (JBool x) => Ret ((if x then 1 else 0) >=? b)
  | _ => Raise TypeError
  end.

(** The condition of the comprehension in [get_files], with the
    short-circuit of [and]. *)
Definition selected (dir_path : dir_arg) (start_time end_time : Z) (get_dir : bool)
    (filename : string) (file_state : dict) : outcome bool :=
  if negb (parent_is filename dir_path) then Ret false
  else if truthy (default JNull (assoc "unsupported" file_state)) then Ret false
  else match py_le (assoc "start_time" file_state) end_time with
       | Raise e => Raise e
       | Ret false => Ret false
       | Ret true =>
           match py_ge (assoc "end_time" file_state) start_time with
           | Raise e => Raise e
           | Ret false => Ret false
           | Ret true =>
               Ret (Bool.eqb (truthy (default JNull (assoc "is_dir" file_state)))
                      get_dir)
           end
       end.

Fixpoint select_from (dir_path : dir_arg) (start_time end_time : Z) (get_dir : bool)
    (items : list (string * dict)) : outcome (list string) :=
  match items with
  | [] => Ret []
  | (filename, file_state) :: items' =>
      match selected dir_path start_time end_time get_dir filename file_state with
      | Raise e => Raise e
      | Ret keep =>
          match select_from dir_path start_time end_time get_dir items' with
          | Raise e => Raise e
          | Ret rest => Ret (if keep then filename :: rest else rest)
          end
      end
  end.

(** [FileStateHandler.get_files]; the items come in the order of
    [map_to_list], not in Python's insertion order. *)
Definition get_files (dir_path : dir_arg) (start_time end_time : Z) (get_dir : bool)
    (st : gmap string dict) : outcome (list string) :=
  select_from dir_path start_time end_time get_dir (map_to_list st).

(** *** Specification-side notions for the index *)

(** An entry is marked unsupported or carries an integer [start_time] and
    an integer [end_time]. *)
Definition entry_ok (d : dict) : Prop :=
  assoc "unsupported" d = Some (JBool true)
  \/ (exists s e, assoc "start_time" d = Some (JInt s)
                  /\ assoc "end_time" d = Some (JInt e)).

(** Every entry of the map, and of the persisted copy, is [entry_ok]. *)
Definition index_ok (w : world) : Prop :=
  map_Forall (fun _ d => entry_ok d) (state w)
  /\ forall saved, state_path w = Some saved ->
                   map_Forall (fun _ d => entry_ok d) saved.

(** The states the index goes through: a process starts with an empty map
    on whatever file an earlier process left, and then loads the file,
    scans directories (entry by entry, then pruning and saving) and
    diagnoses static files, whatever the file system and the readers show. *)
Inductive reachable : world -> Prop :=
| reach_first : reachable {| state := ∅; state_path := None |}
| reach_restart w :
    reachable w -> reachable {| state := ∅; state_path := state_path w |}
| reach_load_state w :
    reachable w -> reachable (snd (load_state w))
| reach_update_entries w listing :
    reachable w -> reachable (snd (update_entries listing w))
| reach_update_dir w listing exists_ :
    reachable w -> reachable (snd (update_dir listing exists_ w))
| reach_static_file_diagnosis w entry :
    reachable w -> reachable (snd (static_file_diagnosis entry w)).

(** A computation keeps the index well formed, also when it raises. *)
Definition preserves {A : Type} (m : M world A) : Prop :=
  forall w, index_ok w -> index_ok (snd (m w)).

(** *** Properties of the index *)

Lemma preserves_ret {A : Type} (a : A) : preserves (ret a).
Proof. intros w H. exact H. Qed.

Lemma preserves_raise {A : Type} (e : exn) : preserves (raise (A:=A) e).
Proof. intros w H. exact H. Qed.

Lemma preserves_lift {A : Type} (o : outcome A) : preserves (lift o).
Proof. destruct o; [apply preserves_ret | apply preserves_raise]. Qed.

Lemma preserves_bind {A B : Type} (m : M world A) (k : A -> M world B) :
  preserves m -> (forall a, preserves (k a)) -> preserves (bind m k).
Proof.
  intros Hm Hk w Hw. unfold bind. specialize (Hm w Hw).
  destruct (m w) as [[a|e] w']; cbn in *; [apply Hk; exact Hm | exact Hm].
Qed.

Lemma preserves_try_except {A : Type} (m : M world A) (h : exn -> M world A) :
  preserves m -> (forall e, preserves (h e)) -> preserves (try_except m h).
Proof.
  intros Hm Hh w Hw. unfold try_except. specialize (Hm w Hw).
  destruct (m w) as [[a|e] w']; cbn in *; [exact Hm | apply Hh; exact Hm].
Qed.

Lemma preserves_get_file_state (p : string) : preserves (get_file_state p).
Proof. intros w H. exact H. Qed.

Lemma preserves_set_file_state (p : string) (d : dict) :
  entry_ok d -> preserves (set_file_state p d).
Proof.
  intros Hd w [Hs Hp]. split; cbn; [|exact Hp].
  apply map_Forall_insert_2; assumption.
Qed.

Lemma preserves_save_state : preserves save_state.
Proof.
  intros w [Hs Hp]. split; cbn; [exact Hs|].
  intros saved [= <-]. exact Hs.
Qed.

Lemma preserves_load_state : preserves load_state.
Proof.
  intros w [Hs Hp]. unfold load_state, modify. cbn.
  destruct (state_path w) as [saved|] eqn:Hsaved; cbn.
  - split; cbn; [apply Hp; reflexivity | exact Hp].
  - split; [exact Hs|]. intros saved Hsv. rewrite Hsaved in Hsv. discriminate.
Qed.

Lemma preserves_update_deleted_file_state (exists_ : string -> bool) :
  preserves (update_deleted_file_state exists_).
Proof.
  intros w [Hs Hp]. split; cbn; [|exact Hp].
  intros k d Hk. apply map_lookup_filter_Some in Hk as [Hk _].
  exact (Hs k d Hk).
Qed.

Lemma unsupported_state_ok (size : Z) : entry_ok (unsupported_state size).
Proof. left. reflexivity. Qed.

Lemma preserves_to_seconds (x : json) : preserves (to_seconds x).
Proof. destruct x as [|[]| | | |]; intros w H; exact H. Qed.

(** [to_seconds] returns an [int] whenever it returns. *)
Lemma to_seconds_int (x : json) (w w' : world) (v : json) :
  to_seconds x w = (Ret v, w') -> exists z, v = JInt z.
Proof.
  destruct x; cbn; intros H; try discriminate; injection H as <- _; eauto.
Qed.

(** Writing an entry built from two [to_seconds] results. *)
Lemma preserves_timed_entry (p : string) (a b : json)
    (mk : json -> json -> M world unit) :
  (forall s e, preserves (mk (JInt s) (JInt e))) ->
  preserves (start_time <- to_seconds a ;; end_time <- to_seconds b ;;
             mk start_time end_time).
Proof.
  intros Hmk w Hw. unfold bind.
  destruct (to_seconds a w) as [[v|e] w1] eqn:Ha.
  - destruct (to_seconds_int _ _ _ _ Ha) as [s ->].
    assert (Hw1 : index_ok w1)
      by (pose proof (preserves_to_seconds a w Hw) as H; rewrite Ha in H; exact H).
    destruct (to_seconds b w1) as [[v|e] w2] eqn:Hb.
    + destruct (to_seconds_int _ _ _ _ Hb) as [e ->].
      apply Hmk. pose proof (preserves_to_seconds b w1 Hw1) as H.
      rewrite Hb in H. exact H.
    + pose proof (preserves_to_seconds b w1 Hw1) as H. rewrite Hb in H. exact H.
  - pose proof (preserves_to_seconds a w Hw) as H. rewrite Ha in H. exact H.
Qed.

Lemma preserves_update_path_state (handler : Handler) (e : dir_entry) :
  handler ∈ HANDLERS -> preserves (update_path_state handler e).
Proof.
  unfold HANDLERS. rewrite !elem_of_cons, elem_of_nil.
  intros [->|[->|[->|[->|[]]]]]; cbn.
  - apply preserves_bind; [apply preserves_lift|]. intros [start|].
    + apply preserves_bind; [apply preserves_lift|]. intros [end_|].
      * apply preserves_bind; [apply preserves_lift|]. intros size.
        apply preserves_set_file_state. right. eauto.
      * apply preserves_bind; [apply preserves_lift|]. intros size.
        apply preserves_set_file_state, unsupported_state_ok.
    + apply preserves_bind; [apply preserves_lift|]. intros size.
      apply preserves_set_file_state, unsupported_state_ok.
  - apply preserves_bind; [apply preserves_lift|]. intros [[a b]|];
      [|apply preserves_ret].
    apply (preserves_timed_entry (path e) a b
             (fun s t => size <- lift (st_size e) ;;
                         set_file_state (path e)
                           [("size", JInt size); ("start_time", s);
                            ("end_time", t)])).
    intros s t. apply preserves_bind; [apply preserves_lift|]. intros size.
    apply preserves_set_file_state. right. eauto.
  - apply preserves_bind; [apply preserves_lift|]. intros [a b].
    apply (preserves_timed_entry (path e) a b
             (fun s t => size <- lift (st_size e) ;;
                         set_file_state (path e)
                           [("size", JInt size); ("start_time", s);
                            ("end_time", t)])).
    intros s t. apply preserves_bind; [apply preserves_lift|]. intros size.
    apply preserves_set_file_state. right. eauto.
  - apply preserves_bind; [apply preserves_lift|]. intros [a b].
    apply (preserves_timed_entry (path e) a b
             (fun s t => set_file_state (path e)
                           [("size", JInt (compute_ros2_dir_size e));
                            ("start_time", s); ("end_time", t);
                            ("is_dir", JBool true)])).
    intros s t. apply preserves_set_file_state. right. eauto.
Qed.

Lemma preserves_get_file_size (handler : Handler) (e : dir_entry) :
  handler ∈ HANDLERS -> preserves (get_file_size handler e).
Proof.
  unfold HANDLERS. rewrite !elem_of_cons, elem_of_nil.
  intros [->|[->|[->|[->|[]]]]]; cbn;
    first [apply preserves_lift | apply preserves_ret].
Qed.

Lemma preserves_update_with (handler : Handler) (e : dir_entry) :
  handler ∈ HANDLERS -> preserves (update_with handler e).
Proof.
  intros Hh. unfold update_with.
  destruct (negb (check_file_path handler e)); [apply preserves_ret|].
  apply preserves_bind; [apply preserves_get_file_state|]. intros file_state.
  apply preserves_bind.
  - destruct file_state as [[|kv d]|]; try apply preserves_ret.
    apply preserves_bind; [apply preserves_get_file_size, Hh|].
    intros size. apply preserves_ret.
  - intros [|]; [apply preserves_ret|].
    apply preserves_try_except; [apply preserves_update_path_state, Hh|].
    intros _. apply preserves_bind; [apply preserves_lift|]. intros size.
    apply preserves_set_file_state, unsupported_state_ok.
Qed.

Lemma preserves_for_each {A : Type} (f : A -> M world unit) (l : list A) :
  (forall x, x ∈ l -> preserves (f x)) -> preserves (for_each f l).
Proof.
  induction l as [|x l IH]; intros Hf; cbn; [apply preserves_ret|].
  apply preserves_bind; [apply Hf, list_elem_of_here|].
  intros _. apply IH. intros y Hy. apply Hf, list_elem_of_further, Hy.
Qed.

Lemma preserves_update_entries (listing : list dir_entry) :
  preserves (update_entries listing).
Proof.
  apply preserves_for_each. intros e _. apply preserves_for_each.
  intros handler Hh. apply preserves_update_with, Hh.
Qed.

Lemma preserves_update_dir (listing : list dir_entry) (exists_ : string -> bool) :
  preserves (update_dir listing exists_).
Proof.
  unfold update_dir. apply preserves_bind; [apply preserves_update_entries|].
  intros _. apply preserves_bind; [apply preserves_update_deleted_file_state|].
  intros _. apply preserves_save_state.
Qed.

Lemma assoc_dict_set_ne (k key : string) (v : json) (d : dict) :
  k <> key -> assoc k (dict_set key v d) = assoc k d.
Proof.
  intros Hne. induction d as [|[k' v'] d IH]; cbn.
  - destruct (String.eqb_spec k key); [contradiction|reflexivity].
  - destruct (String.eqb_spec k' key) as [->|Hk']; cbn.
    + destruct (String.eqb_spec k key); [contradiction|reflexivity].
    + destruct (String.eqb_spec k k'); [reflexivity|exact IH].
Qed.

Lemma entry_ok_processed (v : json) (d : dict) :
  entry_ok d -> entry_ok (dict_set "processed" v d).
Proof.
  intros [H|(s & e & Hs & He)]; [left|right; exists s, e];
    rewrite ?assoc_dict_set_ne by discriminate; auto.
Qed.

Lemma preserves_update_file_state (p : string) (v : json) :
  preserves (update_file_state p "processed" v).
Proof.
  intros w Hw. unfold update_file_state, bind, get_file_state, get, ret.
  cbn. destruct (state w !! p) as [[|kv d]|] eqn:Hp; try exact Hw.
  apply preserves_set_file_state; [|exact Hw].
  apply entry_ok_processed. exact (proj1 Hw p _ Hp).
Qed.

Lemma preserves_diagnose_with (handler : Handler) (e : dir_entry) :
  handler ∈ HANDLERS -> preserves (diagnose_with handler e).
Proof.
  intros Hh. unfold diagnose_with.
  destruct (_ || _); [apply preserves_ret|].
  apply preserves_bind; [apply preserves_get_file_state|].
  intros [[|kv d]|]; try apply preserves_ret.
  apply preserves_bind.
  - destruct (truthy _); [|apply preserves_ret].
    apply preserves_bind; [apply preserves_get_file_size, Hh|].
    intros size. apply preserves_ret.
  - intros [|]; [apply preserves_ret|].
    destruct (truthy _); [apply preserves_ret|].
    apply preserves_bind; [apply preserves_update_file_state|]. intros _.
    apply preserves_bind; [apply preserves_save_state|]. intros _.
    apply preserves_bind; [apply preserves_lift|]. intros _.
    apply preserves_ret.
Qed.

Lemma preserves_static_file_diagnosis (e : dir_entry) :
  preserves (static_file_diagnosis e).
Proof.
  unfold static_file_diagnosis.
  assert (H : forall hs, (forall h, h ∈ hs -> h ∈ HANDLERS) ->
                         preserves (static_file_diagnosis_from hs e)).
  { induction hs as [|h hs IH]; intros Hin; cbn; [apply preserves_ret|].
    apply preserves_bind; [apply preserves_diagnose_with, Hin, list_elem_of_here|].
    intros [|]; [apply preserves_ret|].
    apply IH. intros h' Hh'. apply Hin, list_elem_of_further, Hh'. }
  apply H. auto.
Qed.

Lemma reachable_index_ok (w : world) : reachable w -> index_ok w.
Proof.
  induction 1 as [|w _ IH|w _ IH|w listing _ IH|w listing exists_ _ IH|w e _ IH].
  - split; cbn; [apply map_Forall_empty|discriminate].
  - split; cbn; [apply map_Forall_empty|exact (proj2 IH)].
  - apply preserves_load_state, IH.
  - apply preserves_update_entries, IH.
  - apply preserves_update_dir, IH.
  - apply preserves_static_file_diagnosis, IH.
Qed.

Lemma selected_returns (dir_path : dir_arg) (start_time end_time : Z)
    (get_dir : bool) (filename : string) (d : dict) :
  entry_ok d ->
  exists keep, selected dir_path start_time end_time get_dir filename d = Ret keep.
Proof.
  intros Hd. unfold selected.
  destruct (negb (parent_is filename dir_path)); [eauto|].
  destruct Hd as [Hu|(s & e & Hs & He)].
  - rewrite Hu. cbn. eauto.
  - destruct (truthy _); [eauto|]. rewrite Hs, He. cbn.
    destruct (s <=? end_time); [|eauto].
    destruct (e >=? start_time); eauto.
Qed.

Lemma select_from_returns (dir_path : dir_arg) (start_time end_time : Z)
    (get_dir : bool) (items : list (string * dict)) :
  Forall (fun kv => entry_ok (snd kv)) items ->
  exists l, select_from dir_path start_time end_time get_dir items = Ret l.
Proof.
  induction 1 as [|[filename d] items Hd _ [l IH]]; cbn; [eauto|].
  destruct (selected_returns dir_path start_time end_time get_dir filename d Hd)
    as [keep ->].
  rewrite IH. eauto.
Qed.

(** C10. In every state the index reaches, each entry of the map is
    marked unsupported or carries an integer [start_time] and an integer
    [end_time], and so [get_files] returns a list, whatever directory and
    range it is asked for: its comparisons are defined on every entry it
    examines. *)
Theorem index_entries_unsupported_or_timed :
  forall w : world,
    reachable w ->
    map_Forall (fun _ d => entry_ok d) (state w)
    /\ forall dir_path start_time end_time get_dir,
         exists l, get_files dir_path start_time end_time get_dir (state w) = Ret l.
Proof.
  intros w Hw. destruct (reachable_index_ok w Hw) as [Hs _].
  split; [exact Hs|]. intros dir_path start_time end_time get_dir.
  apply select_from_returns. apply map_Forall_to_list in Hs.
  eapply Forall_impl; [exact Hs|]. intros [k d] H. exact H.
Qed.

(** A watched directory with a log file covering [100, 200] and an MCAP
    file whose summary cannot be read. *)
Definition sample_log : dir_entry :=
  {| path := "/data/a.log"; name := "a.log";
     entry_is_file := true; entry_is_dir := false; st_size := Ret 64;
     start_timestamp := Ret (Some 100); end_timestamp := Ret (Some 200);
     mcap_summary := Raise (OtherError "not an mcap file");
     ros1_reader := Raise (OtherError "not a bag");
     ros2_reader := Raise (OtherError "not a bag");
     children := []; diagnosis := Ret tt |}.

Definition sample_broken_mcap : dir_entry :=
  {| path := "/data/b.mcap"; name := "b.mcap";
     entry_is_file := true; entry_is_dir := false; st_size := Ret 10;
     start_timestamp := Ret None; end_timestamp := Ret None;
     mcap_summary := Raise (OtherError "truncated");
     ros1_reader := Raise (OtherError "not a bag");
     ros2_reader := Raise (OtherError "not a bag");
     children := []; diagnosis := Ret tt |}.

Definition sample_index : world :=
  snd (update_dir [sample_log; sample_broken_mcap] (fun _ => true)
         {| state := ∅; state_path := None |}).

(** The sample index is reachable, so C10 applies to it. *)
Lemma index_entries_unsupported_or_timed_witness :
  map_Forall (fun _ d => entry_ok d) (state sample_index)
  /\ forall dir_path start_time end_time get_dir,
       exists l, get_files dir_path start_time end_time get_dir
                   (state sample_index) = Ret l.
Proof.
  apply (index_entries_unsupported_or_timed sample_index).
  apply reach_update_dir, reach_first.
Defined.

(** *** Further properties of the index *)

(** The entry [d] of [filename] lies in [dir], is not marked unsupported,
    covers a time range that meets [start_time, end_time], and is a
    directory exactly when directories are asked for. *)
Definition overlaps (dir : Path) (start_time end_time : Z) (get_dir : bool)
    (filename : string) (d : dict) : Prop :=
  Path_parent (Path_of_str filename) = dir
  /\ truthy (default JNull (assoc "unsupported" d)) = false
  /\ (exists s e, assoc "start_time" d = Some (JInt s)
                  /\ assoc "end_time" d = Some (JInt e)
                  /\ s <= end_time /\ start_time <= e)
  /\ truthy (default JNull (assoc "is_dir" d)) = get_dir.

Lemma selected_overlaps (dir : Path) (start_time end_time : Z) (get_dir : bool)
    (filename : string) (d : dict) :
  entry_ok d ->
  exists keep,
    selected (APath dir) start_time end_time get_dir filename d = Ret keep
    /\ (keep = true <-> overlaps dir start_time end_time get_dir filename d).
Proof.
  intros Hd. unfold selected, overlaps, parent_is.
  destruct (bool_decide_reflect (Path_parent (Path_of_str filename) = dir))
    as [Hp|Hp]; cbn [negb].
  2:{ exists false. split; [reflexivity|]. split; [discriminate|].
      intros [H _]. contradiction. }
  destruct (truthy (default JNull (assoc "unsupported" d))) eqn:Hu.
  { exists false. split; [reflexivity|]. split; [discriminate|].
    intros (_ & H & _). discriminate. }
  destruct Hd as [Hd|(s & e & Hs & He)]; [rewrite Hd in Hu; discriminate|].
  rewrite Hs, He. cbn [py_le py_ge].
  destruct (s <=? end_time) eqn:Hle.
  2:{ exists false. split; [reflexivity|]. split; [discriminate|].
      intros (_ & _ & (s' & e' & [= <-] & _ & H & _) & _).
      apply Z.leb_gt in Hle. lia. }
  destruct (e >=? start_time) eqn:Hge.
  2:{ exists false. split; [reflexivity|]. split; [discriminate|].
      intros (_ & _ & (s' & e' & _ & [= <-] & _ & H) & _).
      rewrite Z.geb_leb in Hge. apply Z.leb_gt in Hge. lia. }
  apply Z.leb_le in Hle. rewrite Z.geb_leb in Hge. apply Z.leb_le in Hge.
  eexists. split; [reflexivity|]. split.
  - intros H. apply Bool.eqb_prop in H. split; [exact Hp|].
    split; [reflexivity|]. split; [|exact H]. exists s, e. auto.
  - intros (_ & _ & _ & ->). apply Bool.eqb_reflx.
Qed.

Lemma select_from_overlaps (dir : Path) (start_time end_time : Z) (get_dir : bool)
    (items : list (string * dict)) :
  Forall (fun kv => entry_ok (snd kv)) items ->
  NoDup items.*1 ->
  exists l,
    select_from (APath dir) start_time end_time get_dir items = Ret l
    /\ NoDup l
    /\ forall f, f ∈ l <->
                 exists d, (f, d) ∈ items
                           /\ overlaps dir start_time end_time get_dir f d.
Proof.
  induction 1 as [|[filename d] items Hd _ IH]; intros Hnd.
  - exists []. split; [reflexivity|]. split; [constructor|].
    intros f. split; [intros H; apply elem_of_nil in H; contradiction|].
    intros (d & H & _). apply elem_of_nil in H. contradiction.
  - cbn [fmap list_fmap fst] in Hnd. apply NoDup_cons in Hnd as [Hnotin Hnd].
    destruct (IH Hnd) as (l & Hl & Hndl & Hspec).
    destruct (selected_overlaps dir start_time end_time get_dir filename d Hd)
      as (keep & Hkeep & Hiff).
    cbn [select_from]. rewrite Hkeep, Hl.
    assert (Hfresh : filename ∉ l).
    { intros Hin. apply Hspec in Hin as (d' & Hin & _). apply Hnotin.
      apply list_elem_of_fmap. exists (filename, d'). auto. }
    eexists. split; [reflexivity|]. split.
    + destruct keep; [constructor; assumption | exact Hndl].
    + intros f. destruct keep.
      * rewrite elem_of_cons, Hspec. split.
        -- intros [->|(d' & Hin & Hov)].
           ++ exists d. split; [apply list_elem_of_here | apply Hiff; reflexivity].
           ++ exists d'. split; [apply list_elem_of_further, Hin | exact Hov].
        -- intros (d' & Hin & Hov). apply elem_of_cons in Hin as [[= -> ->]|Hin];
             [left; reflexivity | right; eauto].
      * rewrite Hspec. split.
        -- intros (d' & Hin & Hov). exists d'.
           split; [apply list_elem_of_further, Hin | exact Hov].
        -- intros (d' & Hin & Hov). apply elem_of_cons in Hin as [[= -> ->]|Hin];
             [|eauto].
           apply Hiff in Hov. discriminate.
Qed.

(** X15. On an index whose entries are all unsupported or timed,
    [get_files] on a directory path returns, without repetition, exactly
    the indexed paths whose parent is that directory, that are not marked
    unsupported, whose [start_time, end_time] meets the range asked for
    (ends included) and whose [is_dir] agrees with [get_dir]. *)
Theorem get_files_selects_overlapping :
  forall (st : gmap string dict) (dir : Path) (start_time end_time : Z)
         (get_dir : bool),
    map_Forall (fun _ d => entry_ok d) st ->
    exists l,
      get_files (APath dir) start_time end_time get_dir st = Ret l
      /\ NoDup l
      /\ forall f, f ∈ l <->
                   exists d, st !! f = Some d
                             /\ overlaps dir start_time end_time get_dir f d.
Proof.
  intros st dir start_time end_time get_dir Hok.
  destruct (select_from_overlaps dir start_time end_time get_dir (map_to_list st))
    as (l & Hl & Hnd & Hspec).
  - apply map_Forall_to_list in Hok. eapply Forall_impl; [exact Hok|].
    intros [k d] H. exact H.
  - apply NoDup_fst_map_to_list.
  - exists l. split; [exact Hl|]. split; [exact Hnd|]. intros f.
    rewrite Hspec. split; intros (d & Hin & Hov); exists d;
      (split; [apply elem_of_map_to_list, Hin | exact Hov]).
Qed.

Lemma get_files_selects_overlapping_witness :
  exists l,
    get_files (APath (Path_of_str "/data")) 150 300 false (state sample_index)
    = Ret l
    /\ NoDup l
    /\ forall f, f ∈ l <->
                 exists d, state sample_index !! f = Some d
                           /\ overlaps (Path_of_str "/data") 150 300 false f d.
Proof.
  apply (get_files_selects_overlapping (state sample_index)
           (Path_of_str "/data") 150 300 false).
  exact (proj1 (reachable_index_ok sample_index
                  (reach_update_dir _ _ _ reach_first))).
Defined.

(** X16. Given a list of paths where a path is expected, as the default
    mod passes it, [get_files] returns the empty list for every index:
    no parent equals a list, and the later comparisons are never made. *)
Theorem get_files_of_a_list_is_empty :
  forall (st : gmap string dict) (dirs : list Path) (start_time end_time : Z)
         (get_dir : bool),
    get_files (AList dirs) start_time end_time get_dir st = Ret [].
Proof.
  intros st dirs start_time end_time get_dir. unfold get_files.
  induction (map_to_list st) as [|[filename d] items IH]; [reflexivity|].
  cbn [select_from]. unfold selected at 1. cbn [parent_is negb]. rewrite IH.
  reflexivity.
Qed.

(** A property of the world that every write to the map keeps is kept by
    the scan of a listing, however it ends. *)
Section Keeps.

Variable inv : world -> Prop.
Hypothesis inv_set : forall p d w, inv w -> inv (snd (set_file_state p d w)).

Definition keeps {A : Type} (m : M world A) : Prop :=
  forall w, inv w -> inv (snd (m w)).

Lemma keeps_ret {A : Type} (a : A) : keeps (ret a).
Proof. intros w H. exact H. Qed.

Lemma keeps_lift {A : Type} (o : outcome A) : keeps (lift o).
Proof. destruct o; intros w H; exact H. Qed.

Lemma keeps_to_seconds (x : json) : keeps (to_seconds x).
Proof. destruct x as [|[]| | | |]; intros w H; exact H. Qed.

Lemma keeps_bind {A B : Type} (m : M world A) (k : A -> M world B) :
  keeps m -> (forall a, keeps (k a)) -> keeps (bind m k).
Proof.
  intros Hm Hk w Hw. unfold bind. specialize (Hm w Hw).
  destruct (m w) as [[a|e] w']; cbn in *; [apply Hk; exact Hm | exact Hm].
Qed.

Lemma keeps_try_except {A : Type} (m : M world A) (h : exn -> M world A) :
  keeps m -> (forall e, keeps (h e)) -> keeps (try_except m h).
Proof.
  intros Hm Hh w Hw. unfold try_except. specialize (Hm w Hw).
  destruct (m w) as [[a|e] w']; cbn in *; [exact Hm | apply Hh; exact Hm].
Qed.

Lemma keeps_set_file_state (p : string) (d : dict) : keeps (set_file_state p d).
Proof. intros w H. apply inv_set, H. Qed.

Lemma keeps_update_path_state (handler : Handler) (e : dir_entry) :
  handler ∈ HANDLERS -> keeps (update_path_state handler e).
Proof.
  unfold HANDLERS. rewrite !elem_of_cons, elem_of_nil.
  intros [->|[->|[->|[->|[]]]]]; cbn;
    repeat first
      [ apply keeps_set_file_state
      | apply keeps_ret
      | apply keeps_lift
      | apply keeps_to_seconds
      | apply keeps_bind
      | intros [[? ?]|]
      | intros [?|]
      | intros [? ?]
      | intro ].
Qed.

Lemma keeps_get_file_size (handler : Handler) (e : dir_entry) :
  handler ∈ HANDLERS -> keeps (get_file_size handler e).
Proof.
  unfold HANDLERS. rewrite !elem_of_cons, elem_of_nil.
  intros [->|[->|[->|[->|[]]]]]; cbn;
    first [apply keeps_lift | apply keeps_ret].
Qed.

Lemma keeps_update_with (handler : Handler) (e : dir_entry) :
  handler ∈ HANDLERS -> keeps (update_with handler e).
Proof.
  intros Hh. unfold update_with.
  destruct (negb (check_file_path handler e)); [apply keeps_ret|].
  apply keeps_bind; [intros w H; exact H|]. intros file_state.
  apply keeps_bind.
  - destruct file_state as [[|kv d]|]; try apply keeps_ret.
    apply keeps_bind; [apply keeps_get_file_size, Hh|].
    intros size. apply keeps_ret.
  - intros [|]; [apply keeps_ret|].
    apply keeps_try_except; [apply keeps_update_path_state, Hh|].
    intros _. apply keeps_bind; [apply keeps_lift|]. intros size.
    apply keeps_set_file_state.
Qed.

Lemma keeps_for_each {A : Type} (f : A -> M world unit) (l : list A) :
  (forall x, x ∈ l -> keeps (f x)) -> keeps (for_each f l).
Proof.
  induction l as [|x l IH]; intros Hf; cbn; [apply keeps_ret|].
  apply keeps_bind; [apply Hf, list_elem_of_here|].
  intros _. apply IH. intros y Hy. apply Hf, list_elem_of_further, Hy.
Qed.

Lemma keeps_update_entries (listing : list dir_entry) :
  keeps (update_entries listing).
Proof.
  apply keeps_for_each. intros e _. apply keeps_for_each.
  intros handler Hh. apply keeps_update_with, Hh.
Qed.

End Keeps.

(** X17. When [update_dir] returns, the state file holds the map as it is
    in memory, and the map indexes no path that has ceased to exist; when
    it raises, the state file is left as it was. *)
Theorem update_dir_saves_existing_paths :
  forall (listing : list dir_entry) (exists_ : string -> bool) (w : world),
    let w' := snd (update_dir listing exists_ w) in
    match fst (update_dir listing exists_ w) with
    | Ret _ => state_path w' = Some (state w')
               /\ forall k d, state w' !! k = Some d -> exists_ k = true
    | Raise _ => state_path w' = state_path w
    end.
Proof.
  intros listing exists_ w.
  pose proof (keeps_update_entries (fun w1 => state_path w1 = state_path w)
                ltac:(intros p d w1 H; exact H) listing w eq_refl) as Hkeep.
  unfold update_dir, bind. cbv zeta.
  destruct (update_entries listing w) as [[[]|e] w1]; cbn in *; [|exact Hkeep].
  split; [reflexivity|]. intros k d Hk.
  apply map_lookup_filter_Some in Hk as [_ Hk]. exact Hk.
Qed.

(** The effect of one handler's turn in [static_file_diagnosis]: nothing,
    or the entry of the file marked processed and the map saved. *)
Definition marked_processed (p : string) (d : dict) (w : world) : world :=
  let st := <[p := dict_set "processed" (JBool true) d]> (state w) in
  {| state := st; state_path := Some st |}.

Lemma get_file_size_pure (handler : Handler) (e : dir_entry) (w : world) :
  handler ∈ HANDLERS -> snd (get_file_size handler e w) = w.
Proof.
  unfold HANDLERS. rewrite !elem_of_cons, elem_of_nil.
  intros [->|[->|[->|[->|[]]]]]; cbn; try reflexivity;
    destruct (st_size e); reflexivity.
Qed.

Lemma diagnose_with_effect (handler : Handler) (e : dir_entry) (w : world)
    (post : world -> Prop) :
  handler ∈ HANDLERS ->
  post w ->
  (forall d, state w !! path e = Some d -> post (marked_processed (path e) d w)) ->
  post (snd (diagnose_with handler e w)).
Proof.
  intros Hh Hw Hmark. unfold diagnose_with.
  destruct (_ || _); [exact Hw|].
  unfold bind at 1, get_file_state at 1, bind at 1, get at 1, ret at 1.
  destruct (state w !! path e) as [d0|] eqn:Hst; [|exact Hw].
  destruct d0 as [|kv d]; [exact Hw|].
  remember (kv :: d) as d0 eqn:Hd0.
  unfold bind at 1.
  lazymatch goal with
  | |- context [(if truthy ?t then ?a else ?b) w] =>
      assert (Hsame : exists b0, (if truthy t then a else b) w = (b0, w))
  end.
  { destruct (truthy _); [|eexists; reflexivity].
    unfold bind. pose proof (get_file_size_pure handler e w Hh) as Hp.
    destruct (get_file_size handler e w) as [[size|err] w1]; cbn in Hp; subst w1;
      eexists; reflexivity. }
  destruct Hsame as [[b0|err] ->]; [|exact Hw].
  destruct b0; [exact Hw|].
  destruct (truthy (default JNull (assoc "unsupported" d0))); [exact Hw|].
  specialize (Hmark d0 eq_refl).
  unfold update_file_state, get_file_state, set_file_state, save_state, lift,
    modify, get, ret, bind. cbn. rewrite Hst. subst d0.
  unfold marked_processed in Hmark.
  destruct (diagnosis e); exact Hmark.
Qed.

Lemma dict_set_twice (key : string) (v : json) (d : dict) :
  dict_set key v (dict_set key v d) = dict_set key v d.
Proof.
  induction d as [|[k x] d IH]; cbn.
  - rewrite String.eqb_refl. reflexivity.
  - destruct (String.eqb k key) eqn:Hk; cbn; rewrite Hk; [reflexivity|].
    rewrite IH. reflexivity.
Qed.

(** X18. [static_file_diagnosis] writes nothing but the [processed] member
    of the file's own entry: it leaves the map and the state file as they
    were, or the file has an entry, the map differs from the old one in
    that entry's [processed] being true, and the state file holds the new
    map. It adds no entry. *)
Theorem static_file_diagnosis_marks_only_processed :
  forall (e : dir_entry) (w : world),
    snd (static_file_diagnosis e w) = w
    \/ exists d, state w !! path e = Some d
                 /\ snd (static_file_diagnosis e w)
                    = marked_processed (path e) d w.
Proof.
  intros e w.
  set (post := fun w1 : world =>
                 w1 = w \/ exists d, state w !! path e = Some d
                                     /\ w1 = marked_processed (path e) d w).
  change (post (snd (static_file_diagnosis e w))).
  unfold static_file_diagnosis.
  assert (H : forall hs, (forall h, h ∈ hs -> h ∈ HANDLERS) ->
            forall w1, post w1 -> post (snd (static_file_diagnosis_from hs e w1))).
  { induction hs as [|h hs IH]; intros Hin w1 Hw1; [exact Hw1|].
    cbn [static_file_diagnosis_from]. unfold bind at 1.
    pose proof (diagnose_with_effect h e w1 post (Hin h (list_elem_of_here _ _)) Hw1)
      as Hw2.
    assert (Hmark : forall d1, state w1 !! path e = Some d1 ->
                               post (marked_processed (path e) d1 w1)).
    { intros d1 Hd1. destruct Hw1 as [->|(d & Hd & ->)]; [right; eauto|].
      right. exists d. split; [exact Hd|].
      unfold marked_processed in *. cbn in *.
      rewrite lookup_insert_eq in Hd1. injection Hd1 as <-.
      rewrite dict_set_twice, insert_insert_eq. reflexivity. }
    specialize (Hw2 Hmark).
    destruct (diagnose_with h e w1) as [[[|]|err] w2]; cbn [snd] in *;
      [exact Hw2 | | exact Hw2].
    apply IH; [|exact Hw2]. intros h' Hh'. apply Hin, list_elem_of_further, Hh'. }
  apply H; [auto|]. left. reflexivity.
Qed.

(** X19. A scan of a directory in which nothing changed writes no entry:
    when every handler that accepts a listed child finds an entry, not
    empty, whose [size] is the size the handler measures, and every indexed
    path still exists, [update_dir] returns with the map as it was and
    saves it, without consulting a reader. *)
Theorem update_dir_skips_unchanged :
  forall (listing : list dir_entry) (exists_ : string -> bool) (w : world),
    (forall e h, e ∈ listing -> h ∈ HANDLERS -> check_file_path h e = true ->
       exists d z, state w !! path e = Some d /\ d <> []
                   /\ assoc "size" d = Some (JInt z)
                   /\ fst (get_file_size h e w) = Ret z) ->
    (forall k d, state w !! k = Some d -> exists_ k = true) ->
    update_dir listing exists_ w
    = (Ret tt, {| state := state w; state_path := Some (state w) |}).
Proof.
  intros listing exists_ w Hfresh Hexists.
  assert (Hwith : forall e h, e ∈ listing -> h ∈ HANDLERS ->
            update_with h e w = (Ret tt, w)).
  { intros e h He Hh. unfold update_with.
    destruct (check_file_path h e) eqn:Hc; [|reflexivity]. cbn [negb].
    destruct (Hfresh e h He Hh Hc) as (d & z & Hd & Hne & Hsize & Hz).
    unfold bind at 1, get_file_state at 1, bind at 1, get at 1, ret at 1.
    rewrite Hd. destruct d as [|kv d]; [contradiction|].
    unfold bind. pose proof (get_file_size_pure h e w Hh) as Hp.
    destruct (get_file_size h e w) as [[size|err] w1]; cbn in Hp, Hz; subst w1;
      [|discriminate].
    injection Hz as ->. rewrite Hsize, Z.eqb_refl. reflexivity. }
  assert (Hhandlers : forall e hs, e ∈ listing -> (forall h, h ∈ hs -> h ∈ HANDLERS) ->
            for_each (fun handler => update_with handler e) hs w = (Ret tt, w)).
  { intros e hs He. induction hs as [|h hs IH]; intros Hin; [reflexivity|].
    cbn [for_each]. unfold bind.
    rewrite (Hwith e h He (Hin h (list_elem_of_here _ _))).
    apply IH. intros h' Hh'. apply Hin, list_elem_of_further, Hh'. }
  assert (Hentries : forall l, (forall e, e ∈ l -> e ∈ listing) ->
            for_each (fun entry =>
                        for_each (fun handler => update_with handler entry) HANDLERS)
              l w = (Ret tt, w)).
  { induction l as [|e l IH]; intros Hin; [reflexivity|].
    cbn [for_each]. unfold bind.
    rewrite (Hhandlers e HANDLERS (Hin e (list_elem_of_here _ _)) (fun h H => H)).
    apply IH. intros e' He'. apply Hin, list_elem_of_further, He'. }
  unfold update_dir, update_entries, bind. rewrite (Hentries listing (fun e H => H)).
  unfold update_deleted_file_state, save_state, modify. cbn.
  rewrite map_filter_id; [reflexivity|]. intros k d Hk. cbn. eauto.
Qed.

Lemma update_dir_skips_unchanged_witness :
  update_dir [sample_log; sample_broken_mcap] (fun _ => true) sample_index
  = (Ret tt, {| state := state sample_index;
                state_path := Some (state sample_index) |}).
Proof.
  apply (update_dir_skips_unchanged [sample_log; sample_broken_mcap]
           (fun _ => true) sample_index).
  - intros e h He Hh Hc.
    unfold HANDLERS in Hh. rewrite !elem_of_cons, elem_of_nil in He.
    rewrite !elem_of_cons, elem_of_nil in Hh.
    destruct He as [->|[->|[]]];
      destruct Hh as [->|[->|[->|[->|[]]]]]; try discriminate Hc.
    + eexists _, _. split; [vm_compute; reflexivity|].
      split; [discriminate|]. split; reflexivity.
    + eexists _, _. split; [vm_compute; reflexivity|].
      split; [discriminate|]. split; reflexivity.
  - reflexivity.
Defined.

End FileState.

(** ** cos/mods/common/default/mod.py *)

Module DefaultMod.

Import Models.

Local Open Scope py_scope.

(** [class DefaultModConfig(BaseModel)], the fields [run] reads. *)
Record DefaultModConfig : Type := {
  enabled : bool;
  base_dirs : option (list string);
  ros2_customized_msgs_dirs : list string
}.

(** The names an instance of [FileStateHandler] resolves: those bound in
    the class body of file_state_handler.py (private names mangled) and
    the attributes set by [__init__]. *)
Definition FileStateHandler_attributes : list string :=
  ["state_path"; "_instance"; "_lock";
   "_FileStateHandler__register_file_handlers"; "get_instance";
   "load_state"; "save_state"; "_FileStateHandler__set_file_state";
   "_FileStateHandler__del_file_state"; "get_file_state";
   "_FileStateHandler__update_file_state";
   "_FileStateHandler__update_deleted_file_state"; "update_dir";
   "static_file_diagnosis"; "get_files";
   "state"; "update_lock"; "file_handlers"].

(** What the sweep does outside the state directory, in order. The last
    two are calls: [Ros2Handler.register_ros2_types] on the directories
    given and [Path.mkdir(parents=True, exist_ok=True)] on a directory,
    which may be there already. *)
Inductive effect : Type :=
| StartTaskHandler
| StartLogListener
| CopyTree (src dst : string)
| Copy (src dst : string)
| PrepareCut (src dst : string) (start_time end_time : Z)
| MakeArchive (src dst : string)
| ConvertToRecord (error_json_path : string)
| RegisterRos2Types (ros2_msg_dirs : list string)
| Mkdir (dir : string).

(** The file system and the clock as one sweep meets them:
    [datetime.now().timestamp()] and [time.time()] in microseconds, the
    draw of [random.randint(1, 1000)], the kinds of paths, and the copies
    that fail; what [register_ros2_types] does on the directories given,
    what opening and parsing the index file, if there is one, does when
    a new [FileStateHandler] loads it, and what [mkdir] does on a path.
    [DEFAULT_MOD_STATE_DIR] is the constant of cos/constant.py. *)
Record env : Type := {
  now_us : Z;
  randint : Z;
  is_file : string -> bool;
  is_dir : string -> bool;
  copy_raises : string -> bool;
  register_ros2_types : list string -> outcome unit;
  index_file_loads : outcome unit;
  mkdir_result : string -> outcome unit;
  DEFAULT_MOD_STATE_DIR : Path
}.

(** The JSON files of the mod's state directory by path, the file-state
    index singleton and the effects so far. [instance] tells whether
    [FileStateHandler._instance] is set; while it is not,
    [file_state_handler] shows the index file alone. *)
Record world : Type := {
  state_dir : gmap string json;
  instance : bool;
  file_state_handler : FileState.world;
  trace : list effect
}.

Definition perform (e : effect) (w : world) : world :=
  {| state_dir := state_dir w; instance := instance w;
     file_state_handler := file_state_handler w;
     trace := trace w ++ [e] |}.

Definition write_json (error_json_path : string) (content : json) (w : world) : world :=
  {| state_dir := <[error_json_path := content]> (state_dir w);
     instance := instance w;
     file_state_handler := file_state_handler w; trace := trace w |}.

(** A method of the singleton run on the index. *)
Definition on_index {A : Type} (m : M FileState.world A) : M world A :=
  fun w => let (r, index) := m (file_state_handler w) in
           (r, {| state_dir := state_dir w; instance := instance w;
                  file_state_handler := index; trace := trace w |}).

(** [FileStateHandler.__init__] up to [self.state = dict()]: the new
    object is bound to [_instance] first, so it stays bound when what
    follows raises. *)
Definition new_instance (w : world) : world :=
  {| state_dir := state_dir w; instance := true;
     file_state_handler :=
       {| FileState.state := ∅;
          FileState.state_path := FileState.state_path (file_state_handler w) |};
     trace := trace w |}.

Definition lift {A : Type} (o : outcome A) : M world A :=
  match o with
  | Ret a => ret a
  | Raise e => raise e
  end.

(** [file_state_handler.<name>]: looking a method up on the instance. *)
Definition getattr (name : string) : M world unit :=
  if bool_decide (name ∈ FileStateHandler_attributes) then ret tt
  else raise (AttributeError name).

(** [needle in s] for two strings. *)
Fixpoint str_in (needle s : string) : bool :=
  String.prefix needle s
  || match s with
     | EmptyString => false
     | String _ s' => str_in needle s'
     end.

(** [key in d] for a string [key]: among the keys of a dict, the members
    of a list or the substrings of a string; no other JSON value is
    iterable. *)
Definition py_in (key : string) (d : json) : M world bool :=
  match d with
  | JObj o => ret (match assoc key o with Some _ => true | None => false end)
  | JList l => ret (existsb (fun v => match v with
                                      | JStr s => String.eqb s key
                                      | _ => false
                                      end) l)
  | JStr s => ret (str_in key s)
  | _ => raise TypeError
  end.

(** [d[key]] for a string [key] *)
Definition index (d : json) (key : string) : M world json :=
  match d with
  | JObj o => match assoc key o with
              | Some v => ret v
              | None => raise (KeyError key)
              end
  | _ => raise TypeError
  end.

(** The value of an [int], a [bool] among them. *)
Definition number_of (v : json) : option Z :=
  match v with
  | JInt z => Some z
  | JBool b => Some (if b then 1 else 0)
  | _ => None
  end.

(** The operand of [<] against a [float]. *)
Definition as_number (v : json) : M world Z :=
  match number_of v with
  | Some z => ret z
  | None => raise TypeError
  end.

Definition as_int (v : json) : M world Z :=
  match v with
  | JInt z => ret z
  | _ => raise TypeError
  end.

Definition as_paths (v : json) : M world (list string) :=
  match v with
  | JList l =>
      (fix go (l : list json) : M world (list string) :=
         match l with
         | [] => ret []
         | JStr s :: l' => rest <- go l' ;; ret (s :: rest)
         | _ :: _ => raise TypeError
         end) l
  | _ => raise TypeError
  end.

(** [d[key] = value] *)
Definition setitem (key : string) (value : json) (d : json) : json :=
  match d with
  | JObj o => JObj (FileState.dict_set key value o)
  | _ => d
  end.

(** [os.path.splitext(name)[0]] *)
Fixpoint ext_length (rev_name : list ascii) (n : nat) : option nat :=
  match rev_name with
  | [] => None
  | c :: rest =>
      if Ascii.eqb c "."
      then if forallb (fun x => Ascii.eqb x ".") rest then None else Some (S n)
      else ext_length rest (S n)
  end.

Definition splitext_root (name : string) : string :=
  match ext_length (rev (list_ascii_of_string name)) 0 with
  | Some k => String.substring 0 (String.length name - k) name
  | None => name
  end.

Fixpoint fold_m {A B : Type} (f : A -> B -> M world A) (a : A) (l : list B)
    : M world A :=
  match l with
  | [] => ret a
  | x :: l' => a' <- f a x ;; fold_m f a' l'
  end.

Section Sweep.

Variable E : env.

(** [FileStateHandler.get_instance(ros2_msg_dirs)]: the singleton is made
    on the first call, by [__init__], which registers the ROS2 types and
    loads the index file. *)
Definition get_instance (ros2_msg_dirs : list string) : M world unit :=
  getattr "get_instance" ;;;
  w <- get ;;
  if instance w then ret tt
  else
    modify new_instance ;;;
    modify (perform (RegisterRos2Types ros2_msg_dirs)) ;;;
    lift (register_ros2_types E ros2_msg_dirs) ;;;
    w <- get ;;
    match FileState.state_path (file_state_handler w) with
    | Some _ => lift (index_file_loads E)
    | None => ret tt
    end ;;;
    on_index FileState.load_state.

(** [dir.mkdir(parents=True, exist_ok=True)] *)
Definition mkdir (dir : Path) : M world unit :=
  modify (perform (Mkdir (Path_str dir))) ;;;
  lift (mkdir_result E (Path_str dir)).

(** [file_state_handler.get_files(source_dirs, ...)]: the method is given
    the list of directories where it takes one directory. *)
Definition get_files (source_dirs : list Path) (start_time end_time : Z)
    (get_dir : bool) : M world (list string) :=
  getattr "get_files" ;;;
  w <- get ;;
  match FileState.get_files (FileState.AList source_dirs) start_time end_time
          get_dir (FileState.state (file_state_handler w)) with
  | Ret l => ret l
  | Raise e => raise e
  end.

(** The body of the [for file in raw_files] loop; the broad [except]
    logs and goes on. *)
Definition cut_file (temp_files_dir : Path) (start_time end_time : Z)
    (acc : list string * list string * list string * list string) (file : string)
    : M world (list string * list string * list string * list string) :=
  let '(bag_files, log_files, other_files, zips) := acc in
  let dst := Path_str (Path_join temp_files_dir (Path_name (Path_of_str file))) in
  try_except
    (if is_file E file then
       if endswith file ".bag" then
         (if copy_raises E file then raise (OtherError "OSError") else ret tt) ;;;
         modify (perform (Copy file dst)) ;;;
         ret (bag_files ++ [dst], log_files, other_files, zips)%list
       else if endswith file ".log" then
         (if copy_raises E file then raise (OtherError "OSError") else ret tt) ;;;
         modify (perform (PrepareCut file dst start_time end_time)) ;;;
         ret (bag_files, log_files ++ [dst], other_files, zips)%list
       else
         (if copy_raises E file then raise (OtherError "OSError") else ret tt) ;;;
         modify (perform (Copy file dst)) ;;;
         ret (bag_files, log_files, other_files ++ [dst], zips)%list
     else if is_dir E file then
       let dst_path :=
         Path_str (Path_with_suffix
                     (Path_join temp_files_dir (Path_name (Path_of_str file)))
                     ".zip") in
       (if copy_raises E file then raise (OtherError "OSError") else ret tt) ;;;
       modify (perform (MakeArchive file dst_path)) ;;;
       ret (bag_files, log_files, other_files, zips ++ [dst_path])%list
     else ret acc)
    (fun _ => ret acc).

(** The test of line 134,
    ["flag" not in error_json or error_json["flag"] or "cut" not in error_json],
    with the short-circuit of [or]. *)
Definition nothing_to_find (error_json : json) : M world bool :=
  has_flag <- py_in "flag" error_json ;;
  if negb has_flag then ret true
  else
    flag <- index error_json "flag" ;;
    if truthy flag then ret true
    else
      has_cut <- py_in "cut" error_json ;;
      ret (negb has_cut).

(** [DefaultMod.__find_files_and_update_error_json].  Nothing past the
    call of [update_dirs] is reached; there the start of the cut is taken
    as the integer that [get_files] and [prepare_cut] expect. *)
Definition find_files_and_update_error_json (error_json_path : string)
    (source_dirs : list Path) (temp_dir : Path) : M world unit :=
  w <- get ;;
  match state_dir w !! error_json_path with
  | None => raise FileNotFoundError
  | Some error_json =>
      skip <- nothing_to_find error_json ;;
      if (skip : bool) then ret tt
      else
        cut <- index error_json "cut" ;;
        cut_end <- index cut "end" ;;
        cut_end <- as_number cut_end ;;
        if now_us E <? cut_end * 1000000 then ret tt
        else
          start_time <- index cut "start" ;;
          let end_time := cut_end in
          get_instance [] ;;;
          getattr "update_dirs" ;;;
          start_time <- as_int start_time ;;
          let error_json_id :=
            splitext_root (Path_name (Path_of_str error_json_path)) in
          let temp_files_dir := Path_join temp_dir error_json_id in
          mkdir temp_files_dir ;;;
          raw_files <- get_files source_dirs start_time end_time false ;;
          extra <- index cut "extraFiles" ;;
          extra <- as_paths extra ;;
          let raw_files := (raw_files ++ extra)%list in
          raw_dirs <- get_files source_dirs start_time end_time true ;;
          dirs <- fold_m
                    (fun dirs dir_name =>
                       let cur_dir :=
                         Path_str (Path_join temp_files_dir
                                     (Path_name (Path_of_str dir_name))) in
                       (if copy_raises E dir_name
                        then raise (OtherError "OSError") else ret tt) ;;;
                       modify (perform (CopyTree dir_name cur_dir)) ;;;
                       ret (dirs ++ [cur_dir])%list)
                    [] raw_dirs ;;
          cut_files <- fold_m (cut_file temp_files_dir start_time end_time)
                         ([], [], [], []) raw_files ;;
          let '(bag_files, log_files, other_files, zips) := cut_files in
          let paths l := JList (List.map JStr l) in
          let error_json := setitem "bag" (paths bag_files) error_json in
          let error_json := setitem "log" (paths log_files) error_json in
          let error_json := setitem "files" (paths other_files) error_json in
          let error_json := setitem "dirs" (paths dirs) error_json in
          let error_json := setitem "zips" (paths zips) error_json in
          let error_json := setitem "flag" (JBool true) error_json in
          let error_json :=
            setitem "startTime" (JInt (now_us E / 1000 + randint E))
              error_json in
          let error_json :=
            setitem "paths_to_delete"
              (paths [Path_str temp_files_dir]) error_json in
          modify (write_json error_json_path error_json)
  end.

(** [DefaultMod.handle_error_json]: a JSON with a true [flag] and neither
    [uploaded] nor [skipped] is converted to a record state and marked
    uploaded; any other is skipped. *)
Definition handle_error_json (error_json_path : string) : M world unit :=
  w <- get ;;
  match state_dir w !! error_json_path with
  | None => raise FileNotFoundError
  | Some (JObj o) =>
      if truthy (default JNull (assoc "flag" o))
         && negb (bool_decide (is_Some (assoc "uploaded" o)))
         && negb (bool_decide (is_Some (assoc "skipped" o)))
      then
        modify (perform (ConvertToRecord error_json_path)) ;;;
        modify (write_json error_json_path
                  (setitem "uploaded" (JBool true) (JObj o)))
      else ret tt
  | Some _ => raise TypeError
  end.

(** [DefaultMod.__handle_upload_files], up to its first call on the
    index; the calls of [static_file_diagnosis] that follow are those of
    [FileState.static_file_diagnosis] on the children of the directories. *)
Definition handle_upload_files (source_dirs : list Path)
    (children : list FileState.dir_entry) : M world unit :=
  get_instance [] ;;;
  getattr "update_dirs" ;;;
  fold_m
    (fun (_ : unit) (entry : FileState.dir_entry) =>
       getattr "static_file_diagnosis" ;;;
       on_index (FileState.static_file_diagnosis entry))
    tt children.

(** [DefaultMod.run]: one sweep.  [temp_dir] is [DEFAULT_MOD_TEMP_DIR],
    [children] are the entries of the base directories; the JSON files of
    the state directory are visited in the order of [map_to_list].  The
    two threads are started, or found running; what they do is not part of
    the sweep. *)
Definition run (conf : DefaultModConfig) (temp_dir : Path)
    (children : list FileState.dir_entry) : M world unit :=
  if negb (enabled conf) then ret tt
  else
    modify (perform StartTaskHandler) ;;;
    match base_dirs conf with
    | None | Some [] => ret tt
    | Some dirs =>
        get_instance (ros2_customized_msgs_dirs conf) ;;;
        base_dirs <- fold_m
                       (fun (base_dirs : list Path) (base_dir_str : string) =>
                          let base_dir := Path_of_str base_dir_str in
                          mkdir base_dir ;;;
                          ret (base_dirs ++ [base_dir])%list)
                       [] dirs ;;
        mkdir (DEFAULT_MOD_STATE_DIR E) ;;;
        mkdir temp_dir ;;;
        modify (perform StartLogListener) ;;;
        handle_upload_files base_dirs children ;;;
        w <- get ;;
        fold_m
          (fun (_ : unit) (error_json_path : string) =>
             try_except
               (find_files_and_update_error_json error_json_path base_dirs temp_dir ;;;
                handle_error_json error_json_path)
               (fun _ => ret tt))
          tt (List.map fst (map_to_list (state_dir w)))
    end.

End Sweep.

(** *** A pending upload request whose window has ended *)

(** The request written for a cut of [1700000000, 1700000060]. *)
Definition pending_request : json :=
  JObj [("flag", JBool false); ("projectName", JStr "projects/p");
        ("record", JObj []);
        ("cut", JObj [("extraFiles", JList []); ("start", JInt 1700000000);
                      ("end", JInt 1700000060)])].

Definition pending_path : string := "/state/mods/default/0b7e.json".

(** A sweep two minutes after the window ended, over a base directory
    holding the log file of [FileState.sample_log], in a process that has
    its index singleton and may make its directories. *)
Definition sweep_env : env :=
  {| now_us := 1700000180000000; randint := 7;
     is_file := fun _ => true; is_dir := fun _ => false;
     copy_raises := fun _ => false;
     register_ros2_types := fun _ => Ret tt;
     index_file_loads := Ret tt;
     mkdir_result := fun _ => Ret tt;
     DEFAULT_MOD_STATE_DIR := Path_of_str "/state/mods/default" |}.

Definition sweep_world : world :=
  {| state_dir := {[ pending_path := pending_request ]};
     instance := true;
     file_state_handler := {| FileState.state := ∅; FileState.state_path := None |};
     trace := [] |}.

Definition sweep_conf : DefaultModConfig :=
  {| enabled := true; base_dirs := Some ["/data"];
     ros2_customized_msgs_dirs := [] |}.

(** *** Specification-side notions for the sweep *)

(** The requests on which [__find_files_and_update_error_json] returns at
    once: a dict without [flag], with a true [flag], without [cut], or
    with a cut whose [end] lies ahead of the clock; a list that does not
    hold ["flag"]; a string that does not contain it. *)
Definition returns_early (E : env) (error_json : json) : Prop :=
  match error_json with
  | JObj o =>
      assoc "flag" o = None
      \/ (exists flag, assoc "flag" o = Some flag /\ truthy flag = true)
      \/ assoc "cut" o = None
      \/ (exists c v z,
            assoc "cut" o = Some (JObj c) /\ assoc "end" c = Some v
            /\ number_of v = Some z /\ now_us E < z * 1000000)
  | JList l => JStr "flag" ∉ l
  | JStr s => str_in "flag" s = false
  | _ => False
  end.

(** The requests that are due: a dict with a false [flag] and a cut that
    gives a [start] and an [end] the clock has reached. *)
Definition due (E : env) (error_json : json) : Prop :=
  exists o c flag start_time v end_time,
    error_json = JObj o
    /\ assoc "flag" o = Some flag /\ truthy flag = false
    /\ assoc "cut" o = Some (JObj c)
    /\ assoc "start" c = Some start_time
    /\ assoc "end" c = Some v /\ number_of v = Some end_time
    /\ end_time * 1000000 <= now_us E.

(** The calls a sweep makes outside besides starting its two threads. *)
Definition prepares (e : effect) : Prop :=
  (exists ros2_msg_dirs, e = RegisterRos2Types ros2_msg_dirs)
  \/ (exists dir, e = Mkdir dir).

(** *** Properties of the sweep *)

(** With the singleton there, [get_instance] does nothing. *)
Lemma get_instance_idle (E : env) (ros2_msg_dirs : list string) (w : world) :
  instance w = true -> get_instance E ros2_msg_dirs w = (Ret tt, w).
Proof.
  intros Hi. unfold get_instance, bind at 1.
  change (getattr "get_instance" w) with (@ret world unit tt w).
  unfold ret at 1. unfold bind at 1, get at 1. rewrite Hi. reflexivity.
Qed.

Lemma getattr_update_dirs {A : Type} (k : unit -> M world A) :
  bind (getattr "update_dirs") k = raise (AttributeError "update_dirs").
Proof. reflexivity. Qed.

(** A request with a false [flag] whose cut has ended makes
    [__find_files_and_update_error_json] raise on the missing method, with
    nothing written. *)
Lemma find_files_raises_on_due_request (E : env) (w : world)
    (error_json_path : string) (source_dirs : list Path) (temp_dir : Path)
    (error_json : json) :
  state_dir w !! error_json_path = Some error_json ->
  due E error_json ->
  instance w = true ->
  find_files_and_update_error_json E error_json_path source_dirs temp_dir w
  = (Raise (AttributeError "update_dirs"), w).
Proof.
  intros Hfile (o & c & flag & start_time & v & end_time & -> & Hflag & Hfalse
                & Hcut & Hstart & Hend & Hnum & Hdue) Hi.
  unfold find_files_and_update_error_json, bind at 1, get at 1.
  rewrite Hfile.
  unfold bind at 1, nothing_to_find, bind at 1, py_in at 1, index at 1.
  rewrite Hflag. cbn [ret negb]. unfold bind at 1. cbn [ret].
  rewrite Hfalse. unfold bind at 1, py_in at 1. rewrite Hcut. cbn [ret negb].
  unfold bind at 1, index at 1. rewrite Hcut. cbn [ret].
  unfold bind at 1, index at 1. rewrite Hend. cbn [ret].
  unfold bind at 1, as_number at 1. rewrite Hnum. cbn [ret].
  replace (now_us E <? end_time * 1000000) with false
    by (symmetry; apply Z.ltb_ge; exact Hdue).
  unfold bind at 1, index at 1. rewrite Hstart. cbn [ret].
  unfold bind at 1. rewrite (get_instance_idle E [] w Hi).
  rewrite getattr_update_dirs. reflexivity.
Qed.

(** C1, on the code: for the pending request whose window ended two
    minutes ago, the materialization raises [AttributeError] at the call
    of [update_dirs], which [FileStateHandler] does not define, and the
    sweep raises the same error from [__handle_upload_files] before it
    visits the state directory; either way the JSON stays as it was, with
    [flag] false. *)
Theorem sweep_leaves_due_request_pending :
  find_files_and_update_error_json sweep_env pending_path
    [Path_of_str "/data"] (Path_of_str "/state/mods/default/tmp") sweep_world
  = (Raise (AttributeError "update_dirs"), sweep_world)
  /\ fst (run sweep_env sweep_conf (Path_of_str "/state/mods/default/tmp")
            [FileState.sample_log] sweep_world)
     = Raise (AttributeError "update_dirs")
  /\ state_dir (snd (run sweep_env sweep_conf
                       (Path_of_str "/state/mods/default/tmp")
                       [FileState.sample_log] sweep_world))
       !! pending_path
     = Some pending_request.
Proof.
  split; [|split].
  - eapply find_files_raises_on_due_request;
      [apply lookup_singleton_eq | | reflexivity].
    exists [("flag", JBool false); ("projectName", JStr "projects/p");
            ("record", JObj []);
            ("cut", JObj [("extraFiles", JList []); ("start", JInt 1700000000);
                          ("end", JInt 1700000060)])],
      [("extraFiles", JList []); ("start", JInt 1700000000);
       ("end", JInt 1700000060)],
      (JBool false), (JInt 1700000000), (JInt 1700000060), 1700000060.
    repeat split; vm_compute; discriminate.
  - reflexivity.
  - cbn. apply lookup_singleton_eq.
Qed.

(** *** Further properties of the sweep *)

(** What [get_instance] comes to. *)
Lemma get_instance_run (E : env) (ros2_msg_dirs : list string) (w : world) :
  get_instance E ros2_msg_dirs w
  = if instance w then (Ret tt, w)
    else
      let made := perform (RegisterRos2Types ros2_msg_dirs) (new_instance w) in
      match register_ros2_types E ros2_msg_dirs with
      | Raise e => (Raise e, made)
      | Ret _ =>
          match FileState.state_path (file_state_handler w),
                index_file_loads E with
          | Some _, Raise e => (Raise e, made)
          | _, _ => on_index FileState.load_state made
          end
      end.
Proof.
  unfold get_instance, bind at 1.
  change (getattr "get_instance" w) with (@ret world unit tt w).
  unfold ret at 1. unfold bind at 1, get at 1.
  destruct (instance w); [reflexivity|].
  unfold bind at 1, modify at 1. unfold bind at 1, modify at 1.
  unfold bind at 1, lift at 1.
  destruct (register_ros2_types E ros2_msg_dirs) as [[]|e]; [|reflexivity].
  unfold ret at 1. unfold bind at 1, bind at 1, get at 1.
  cbn [perform new_instance file_state_handler FileState.state_path].
  destruct (FileState.state_path (file_state_handler w)) as [saved|];
    [|reflexivity].
  unfold lift at 1. destruct (index_file_loads E) as [[]|e]; reflexivity.
Qed.

Section Frame.

(** The effects a computation may add. *)
Variable P : effect -> Prop.

(** From [w] to [w']: the request files and the index file stand, the
    singleton, once there, stays as it is, and the effects added are
    among [P]. *)
Definition frame (w w' : world) : Prop :=
  state_dir w' = state_dir w
  /\ FileState.state_path (file_state_handler w')
     = FileState.state_path (file_state_handler w)
  /\ (instance w = true ->
      instance w' = true /\ file_state_handler w' = file_state_handler w)
  /\ exists added, trace w' = (trace w ++ added)%list /\ Forall P added.

Lemma frame_refl (w : world) : frame w w.
Proof.
  repeat split; try reflexivity; auto.
  exists []. rewrite app_nil_r. split; [reflexivity | constructor].
Qed.

Lemma frame_trans (w1 w2 w3 : world) : frame w1 w2 -> frame w2 w3 -> frame w1 w3.
Proof.
  intros (Hd & Hp & Hi & a & Ha & HPa) (Hd' & Hp' & Hi' & b & Hb & HPb).
  split; [congruence|]. split; [congruence|]. split.
  - intros H. destruct (Hi H) as [H2 Hf]. destruct (Hi' H2) as [H3 Hf'].
    split; [exact H3 | congruence].
  - exists (a ++ b)%list. split.
    + rewrite Hb, Ha, app_assoc. reflexivity.
    + apply Forall_app. split; assumption.
Qed.

Lemma frame_perform (e : effect) (w : world) : P e -> frame w (perform e w).
Proof.
  intros He. repeat split; try reflexivity; auto.
  exists [e]. split; [reflexivity | repeat constructor; exact He].
Qed.

(** A computation that stays within the frame, also when it raises. *)
Definition framed {A : Type} (m : M world A) : Prop :=
  forall w, frame w (snd (m w)).

(** A computation that raises whatever the state. *)
Definition halts {A : Type} (m : M world A) : Prop :=
  forall w, exists e, fst (m w) = Raise e.

Lemma framed_ret {A : Type} (a : A) : framed (ret a).
Proof. intros w. apply frame_refl. Qed.

Lemma framed_raise {A : Type} (e : exn) : framed (@raise world A e).
Proof. intros w. apply frame_refl. Qed.

Lemma framed_lift {A : Type} (o : outcome A) : framed (lift o).
Proof. destruct o; intros w; apply frame_refl. Qed.

Lemma framed_perform (e : effect) : P e -> framed (modify (perform e)).
Proof. intros He w. apply frame_perform, He. Qed.

Lemma framed_bind {A B : Type} (m : M world A) (k : A -> M world B) :
  framed m -> (forall a, framed (k a)) -> framed (bind m k).
Proof.
  intros Hm Hk w. unfold bind. specialize (Hm w).
  destruct (m w) as [[a|e] w1]; cbn [snd] in Hm |- *; [|exact Hm].
  eapply frame_trans; [exact Hm | apply Hk].
Qed.

Lemma framed_bind_halts {A B : Type} (m : M world A) (k : A -> M world B) :
  framed m -> halts m -> framed (bind m k).
Proof.
  intros Hm Hh w. unfold bind. specialize (Hm w). destruct (Hh w) as [e He].
  destruct (m w) as [[a|e'] w1]; cbn [fst snd] in *; [discriminate | exact Hm].
Qed.

Lemma halts_raise {A : Type} (e : exn) : halts (@raise world A e).
Proof. intros w. exists e. reflexivity. Qed.

Lemma halts_bind_l {A B : Type} (m : M world A) (k : A -> M world B) :
  halts m -> halts (bind m k).
Proof.
  intros Hh w. unfold bind. destruct (Hh w) as [e He].
  destruct (m w) as [[a|e'] w1]; cbn [fst] in *; [discriminate | eauto].
Qed.

Lemma halts_bind_r {A B : Type} (m : M world A) (k : A -> M world B) :
  (forall a, halts (k a)) -> halts (bind m k).
Proof.
  intros Hk w. unfold bind. destruct (m w) as [[a|e] w1]; [apply Hk | eauto].
Qed.

Lemma framed_fold_m {A B : Type} (f : A -> B -> M world A) (l : list B) :
  (forall a x, framed (f a x)) -> forall a, framed (fold_m f a l).
Proof.
  intros Hf. induction l as [|x l IH]; intros a; cbn [fold_m].
  - apply framed_ret.
  - apply framed_bind; [apply Hf | exact IH].
Qed.

Lemma framed_get_instance (E : env) (ros2_msg_dirs : list string) :
  P (RegisterRos2Types ros2_msg_dirs) -> framed (get_instance E ros2_msg_dirs).
Proof.
  intros HP w. rewrite get_instance_run.
  destruct (instance w) eqn:Hi; [apply frame_refl|].
  assert (Hmade : frame w (perform (RegisterRos2Types ros2_msg_dirs)
                             (new_instance w))).
  { split; [reflexivity|]. split; [reflexivity|]. split; [congruence|].
    exists [RegisterRos2Types ros2_msg_dirs].
    split; [reflexivity | repeat constructor; exact HP]. }
  assert (Hloaded : frame w (snd (on_index FileState.load_state
                                    (perform (RegisterRos2Types ros2_msg_dirs)
                                       (new_instance w))))).
  { split; [reflexivity|]. split.
    - cbn. destruct (FileState.state_path (file_state_handler w)); reflexivity.
    - split; [congruence|].
      exists [RegisterRos2Types ros2_msg_dirs].
      split; [reflexivity | repeat constructor; exact HP]. }
  cbv zeta. destruct (register_ros2_types E ros2_msg_dirs) as [[]|e]; [|exact Hmade].
  destruct (FileState.state_path (file_state_handler w)) as [saved|];
    [|exact Hloaded].
  destruct (index_file_loads E) as [[]|e]; [exact Hloaded | exact Hmade].
Qed.

Lemma framed_mkdir (E : env) (dir : Path) :
  P (Mkdir (Path_str dir)) -> framed (mkdir E dir).
Proof.
  intros HP. apply framed_bind; [apply framed_perform, HP|].
  intros _. apply framed_lift.
Qed.

Lemma framed_handle_upload_files (E : env) (source_dirs : list Path)
    (children : list FileState.dir_entry) :
  P (RegisterRos2Types []) -> framed (handle_upload_files E source_dirs children).
Proof.
  intros HP. unfold handle_upload_files.
  apply framed_bind; [apply framed_get_instance, HP|]. intros _.
  rewrite getattr_update_dirs. apply framed_raise.
Qed.

Lemma halts_handle_upload_files (E : env) (source_dirs : list Path)
    (children : list FileState.dir_entry) :
  halts (handle_upload_files E source_dirs children).
Proof.
  unfold handle_upload_files. apply halts_bind_r. intros _.
  rewrite getattr_update_dirs. apply halts_raise.
Qed.

End Frame.

Lemma existsb_flag (l : list json) :
  existsb (fun v => match v with
                    | JStr s => String.eqb s "flag"
                    | _ => false
                    end) l = true
  <-> JStr "flag" ∈ l.
Proof.
  rewrite existsb_exists. split.
  - intros (v & Hin & Hv). destruct v; try discriminate.
    apply String.eqb_eq in Hv. subst. apply list_elem_of_In, Hin.
  - intros Hin. exists (JStr "flag"). split; [apply list_elem_of_In, Hin | reflexivity].
Qed.

(** The four ways [__find_files_and_update_error_json] ends: no file; a
    request it returns on, untouched; a malformed request it raises on,
    untouched; a due request, on which it goes on to [get_instance] and
    [update_dirs]. *)
Lemma find_files_cases (E : env) (error_json_path : string)
    (source_dirs : list Path) (temp_dir : Path) (w : world) :
  let r := find_files_and_update_error_json E error_json_path source_dirs
             temp_dir w in
  (state_dir w !! error_json_path = None /\ r = (Raise FileNotFoundError, w))
  \/ (exists error_json,
        state_dir w !! error_json_path = Some error_json
        /\ ((returns_early E error_json /\ r = (Ret tt, w))
            \/ (~ returns_early E error_json /\ ~ due E error_json
                /\ exists e, r = (Raise e, w))
            \/ (~ returns_early E error_json /\ due E error_json
                /\ r = bind (get_instance E [])
                         (fun _ => raise (AttributeError "update_dirs")) w))).
Proof.
  intros r.
  assert (Hr : r = find_files_and_update_error_json E error_json_path
                     source_dirs temp_dir w) by reflexivity.
  clearbody r. revert Hr.
  unfold find_files_and_update_error_json. unfold bind at 1. unfold get at 1.
  cbv beta iota.
  destruct (state_dir w !! error_json_path) as [error_json|] eqn:Hfile;
    [|intros ->; left; split; reflexivity].
  assert (Hnotdue : (forall o, error_json <> JObj o) -> ~ due E error_json).
  { intros Hne (o & ? & ? & ? & ? & ? & -> & _). exact (Hne o eq_refl). }
  unfold bind at 1, nothing_to_find, bind at 1, py_in at 1.
  destruct error_json as [|b|z|s|l|o].
  - intros ->. right. eexists. split; [reflexivity|].
    right. left. split; [intros []|]. split; [apply Hnotdue; discriminate|].
    eexists. reflexivity.
  - intros ->. right. eexists. split; [reflexivity|].
    right. left. split; [intros []|]. split; [apply Hnotdue; discriminate|].
    eexists. reflexivity.
  - intros ->. right. eexists. split; [reflexivity|].
    right. left. split; [intros []|]. split; [apply Hnotdue; discriminate|].
    eexists. reflexivity.
  - cbn [ret]. destruct (str_in "flag" s) eqn:Hin; cbn [negb];
      intros ->; right; eexists; (split; [reflexivity|]).
    + right. left. split; [cbn; congruence|].
      split; [apply Hnotdue; discriminate|]. eexists. reflexivity.
    + left. split; [exact Hin | reflexivity].
  - cbn [ret].
    destruct (existsb _ l) eqn:Hin; cbn [negb];
      intros ->; right; eexists; (split; [reflexivity|]).
    + right. left. split; [cbn; intros Hn; apply Hn, existsb_flag, Hin|].
      split; [apply Hnotdue; discriminate|]. eexists. reflexivity.
    + left. split; [|reflexivity]. cbn. intros Hn. apply existsb_flag in Hn.
      congruence.
  - clear Hnotdue. cbn [ret].
    destruct (assoc "flag" o) as [flag|] eqn:Hflag; cbn [negb].
    2:{ intros ->. right. eexists. split; [reflexivity|].
        left. split; [left; exact Hflag | reflexivity]. }
    unfold bind at 1, index at 1. rewrite Hflag. cbn [ret].
    destruct (truthy flag) eqn:Htruthy.
    { intros ->. right. eexists. split; [reflexivity|].
      left. split; [right; left; eauto | reflexivity]. }
    unfold bind at 1, py_in at 1. cbn [ret].
    destruct (assoc "cut" o) as [cut|] eqn:Hcut; cbn [negb].
    2:{ intros ->. right. eexists. split; [reflexivity|].
        left. split; [right; right; left; exact Hcut | reflexivity]. }
    unfold bind at 1, index at 1. rewrite Hcut. cbn [ret].
    unfold bind at 1, index at 1.
    assert (Hearly : (forall c v z, cut = JObj c -> assoc "end" c = Some v ->
                                    number_of v = Some z ->
                                    now_us E < z * 1000000 -> False) ->
                     ~ returns_early E (JObj o)).
    { intros HQ [H|[(f & H & Ht)|[H|(c & v & z & H & Hv & Hz & Hlt)]]];
        try congruence.
      rewrite Hcut in H. injection H as ->. eauto. }
    assert (Hdue : (forall c st v z, cut = JObj c -> assoc "start" c = Some st ->
                                     assoc "end" c = Some v ->
                                     number_of v = Some z ->
                                     z * 1000000 <= now_us E -> False) ->
                   ~ due E (JObj o)).
    { intros HQ (o' & c & f & st & v & z & Ho & Hf & Ht & Hc & Hst & Hv & Hz & Hle).
      injection Ho as <-. rewrite Hcut in Hc. injection Hc as ->. eauto. }
    destruct cut as [| | | | |c];
      try (intros ->; right; eexists; (split; [reflexivity|]); right; left;
           split; [apply Hearly; intros; discriminate|];
           split; [apply Hdue; intros; discriminate|]; eexists; reflexivity).
    destruct (assoc "end" c) as [v|] eqn:Hend.
    2:{ intros ->. right. eexists. split; [reflexivity|]. right. left.
        split; [apply Hearly; intros c' v z [= <-]; congruence|].
        split; [apply Hdue; intros c' st v z [= <-]; congruence|].
        eexists. reflexivity. }
    cbn [ret]. unfold bind at 1, as_number at 1.
    destruct (number_of v) as [z|] eqn:Hnum.
    2:{ intros ->. right. eexists. split; [reflexivity|]. right. left.
        split; [apply Hearly; intros c' v' z [= <-]; congruence|].
        split; [apply Hdue; intros c' st v' z [= <-]; congruence|].
        eexists. reflexivity. }
    cbn [ret]. destruct (now_us E <? z * 1000000) eqn:Hlt.
    { apply Z.ltb_lt in Hlt. intros ->. right. eexists. split; [reflexivity|].
      left. split; [right; right; right; exists c, v, z; auto | reflexivity]. }
    apply Z.ltb_ge in Hlt.
    assert (Hne : ~ returns_early E (JObj o)).
    { apply Hearly. intros c' v' z' [= <-] Hv' Hz' Hlt'.
      rewrite Hend in Hv'. injection Hv' as <-. rewrite Hnum in Hz'.
      injection Hz' as <-. lia. }
    unfold bind at 1, index at 1.
    destruct (assoc "start" c) as [st|] eqn:Hstart.
    2:{ intros ->. right. eexists. split; [reflexivity|]. right. left.
        split; [exact Hne|].
        split; [apply Hdue; intros c' st v' z' [= <-]; congruence|].
        eexists. reflexivity. }
    cbn [ret]. unfold bind at 1.
    intros ->. right. eexists. split; [reflexivity|].
    right. right. split; [exact Hne|]. split.
    { exists o, c, flag, st, v, z. auto 10. }
    reflexivity.
Qed.

(** X20. [__find_files_and_update_error_json] never materializes a
    request: for every request file, clock and file system it leaves the
    request files and the index file as they were and does nothing
    outside but, where the index singleton is yet to be made, register the
    ROS2 types; with the singleton there it changes nothing at all. It
    returns exactly on the requests of [returns_early] (flag missing or
    true, no cut, cut not ended, or a list or string without "flag"); on
    every other it raises, and on a due request it raises at
    [update_dirs] once the singleton is there or can be made. *)
Theorem find_files_changes_nothing :
  forall (E : env) (error_json_path : string) (source_dirs : list Path)
         (temp_dir : Path) (w : world),
    let r := find_files_and_update_error_json E error_json_path source_dirs
               temp_dir w in
    frame (fun e => e = RegisterRos2Types []) w (snd r)
    /\ (instance w = true -> snd r = w)
    /\ (fst r = Ret tt
        <-> exists error_json,
              state_dir w !! error_json_path = Some error_json
              /\ returns_early E error_json)
    /\ (forall error_json,
          state_dir w !! error_json_path = Some error_json ->
          due E error_json ->
          exists e,
            fst r = Raise e
            /\ (instance w = true
                \/ (register_ros2_types E [] = Ret tt
                    /\ index_file_loads E = Ret tt) ->
                e = AttributeError "update_dirs")).
Proof.
  intros E error_json_path source_dirs temp_dir w r.
  destruct (find_files_cases E error_json_path source_dirs temp_dir w)
    as [[Hfile Hr]|(error_json & Hfile
                    & [[Hearly Hr]|[(Hne & Hnd & e & Hr)|(Hne & Hd & Hr)]])];
    fold r in Hr; rewrite Hr; clear Hr; cbn [fst snd].
  - split; [apply frame_refl|]. split; [reflexivity|]. split.
    + split; [discriminate | intros (ej & Hj & _); congruence].
    + intros ej Hj. congruence.
  - split; [apply frame_refl|]. split; [reflexivity|]. split.
    + split; [eauto | reflexivity].
    + intros ej Hj Hd. rewrite Hfile in Hj. injection Hj as <-.
      exfalso. revert Hearly. destruct Hd as (o & c & f & st & v & z & -> & Hf & Ht
                                              & Hc & Hst & Hv & Hz & Hle).
      intros [H|[(f' & H & Ht')|[H|(c' & v' & z' & H & Hv' & Hz' & Hlt)]]];
        try congruence.
      rewrite Hc in H. injection H as <-. rewrite Hv in Hv'. injection Hv' as <-.
      rewrite Hz in Hz'. injection Hz' as <-. lia.
  - split; [apply frame_refl|]. split; [reflexivity|]. split.
    + split; [discriminate|]. intros (ej & Hj & He). rewrite Hfile in Hj.
      injection Hj as <-. contradiction.
    + intros ej Hj Hd. rewrite Hfile in Hj. injection Hj as <-. contradiction.
  - pose proof (framed_get_instance (fun e => e = RegisterRos2Types []) E []
                  eq_refl w) as Hframe.
    pose proof (get_instance_run E [] w) as Hrun.
    unfold bind, raise.
    destruct (get_instance E [] w) as [[[]|e] w1] eqn:Hget; cbn [fst snd] in *.
    + split; [exact Hframe|]. split.
      { intros Hi. rewrite Hi in Hrun. congruence. }
      split.
      * split; [discriminate|]. intros (ej & Hj & He). rewrite Hfile in Hj.
        injection Hj as <-. contradiction.
      * intros _ _ _. eexists. split; [reflexivity | reflexivity].
    + split; [exact Hframe|]. split.
      { intros Hi. rewrite Hi in Hrun. congruence. }
      split.
      * split; [discriminate|]. intros (ej & Hj & He). rewrite Hfile in Hj.
        injection Hj as <-. contradiction.
      * intros _ _ _. exists e. split; [reflexivity|].
        intros [Hi|[Hreg Hload]].
        -- rewrite Hi in Hrun. discriminate.
        -- destruct (instance w); [discriminate|].
           cbv zeta in Hrun. rewrite Hreg, Hload in Hrun.
           destruct (FileState.state_path (file_state_handler w));
             unfold on_index, FileState.load_state, modify in Hrun;
             discriminate.
Qed.

(** The pending request of the sweep is due, and the singleton is there:
    the materialization raises at [update_dirs] and leaves all as it was. *)
Lemma find_files_changes_nothing_witness :
  snd (find_files_and_update_error_json sweep_env pending_path
         [Path_of_str "/data"] (Path_of_str "/state/mods/default/tmp")
         sweep_world)
  = sweep_world.
Proof.
  exact (proj1 (proj2 (find_files_changes_nothing sweep_env pending_path
                         [Path_of_str "/data"]
                         (Path_of_str "/state/mods/default/tmp") sweep_world))
           eq_refl).
Defined.

(** X21. One sweep of the default mod, whatever its configuration, the
    clock, the file system and the requests waiting, changes no request
    file and not the index file, leaves the index singleton, when there is
    one, as it is, and does nothing outside but start the task handler and
    the log listener, register the ROS2 types and make directories. It
    returns exactly when the mod is disabled or has no base directories;
    otherwise it raises, at the latest at [update_dirs], before it looks
    at a file or a request. *)
Theorem run_changes_no_request :
  forall (E : env) (conf : DefaultModConfig) (temp_dir : Path)
         (children : list FileState.dir_entry) (w : world),
    let r := run E conf temp_dir children w in
    frame (fun e => e = StartTaskHandler \/ e = StartLogListener \/ prepares e)
      w (snd r)
    /\ (fst r = Ret tt
        <-> enabled conf = false \/ base_dirs conf = None
            \/ base_dirs conf = Some [])
    /\ (instance w = true ->
        (forall dir, mkdir_result E dir = Ret tt) ->
        enabled conf = true ->
        (exists dir dirs, base_dirs conf = Some (dir :: dirs)) ->
        fst r = Raise (AttributeError "update_dirs")).
Proof.
  intros E conf temp_dir children w r. subst r.
  set (P := fun e => e = StartTaskHandler \/ e = StartLogListener \/ prepares e).
  set (make_dirs := fold_m
                      (fun (base_dirs : list Path) (base_dir_str : string) =>
                         (mkdir E (Path_of_str base_dir_str) ;;;
                          ret (base_dirs ++ [Path_of_str base_dir_str])%list)%py)).
  assert (Hmake : forall dirs acc, framed P (make_dirs acc dirs)).
  { intros dirs. apply framed_fold_m. intros a x.
    apply framed_bind; [|intros _; apply framed_ret].
    apply framed_mkdir. right. right. right. eauto. }
  assert (Hmkdir : forall dir, framed P (mkdir E dir)).
  { intros dir. apply framed_mkdir. right. right. right. eauto. }
  assert (Hreg : forall dirs, P (RegisterRos2Types dirs)).
  { intros dirs. right. right. left. eauto. }
  unfold run.
  destruct (enabled conf) eqn:Hen; cbn [negb].
  2:{ split; [apply frame_refl|]. split; [split; auto|]. discriminate. }
  destruct (base_dirs conf) as [[|d ds]|] eqn:Hdirs.
  - split; [apply (frame_perform P); left; reflexivity|].
    split; [split; auto|]. intros _ _ _ (dir & dirs & H). discriminate.
  - fold (make_dirs [] (d :: ds)).
    split; [|split].
    + apply framed_bind; [apply framed_perform; left; reflexivity|]. intros _.
      apply framed_bind; [apply framed_get_instance, Hreg|]. intros _.
      apply framed_bind; [apply Hmake|]. intros base_dirs.
      apply framed_bind; [apply Hmkdir|]. intros _.
      apply framed_bind; [apply Hmkdir|]. intros _.
      apply framed_bind; [apply framed_perform; right; left; reflexivity|].
      intros _.
      apply framed_bind_halts;
        [apply framed_handle_upload_files, Hreg | apply halts_handle_upload_files].
    + split.
      * intros Hret. exfalso.
        assert (Hh : halts (modify (perform StartTaskHandler) ;;;
                            get_instance E (ros2_customized_msgs_dirs conf) ;;;
                            base_dirs <- make_dirs [] (d :: ds) ;;
                            mkdir E (DEFAULT_MOD_STATE_DIR E) ;;;
                            mkdir E temp_dir ;;;
                            modify (perform StartLogListener) ;;;
                            handle_upload_files E base_dirs children ;;;
                            w <- get ;;
                            fold_m
                              (fun (_ : unit) (error_json_path : string) =>
                                 try_except
                                   (find_files_and_update_error_json E
                                      error_json_path base_dirs temp_dir ;;;
                                    handle_error_json error_json_path)
                                   (fun _ => ret tt))
                              tt (List.map fst (map_to_list (state_dir w))))%py).
        { do 6 (apply halts_bind_r; intros ?).
          apply halts_bind_l, halts_handle_upload_files. }
        destruct (Hh w) as [e He]. rewrite He in Hret. discriminate.
      * intros [H|[H|H]]; discriminate.
    + intros Hi Hok _ _.
      assert (Hmade : forall dirs acc w1,
                 exists acc' w2, make_dirs acc dirs w1 = (Ret acc', w2)
                                 /\ instance w2 = instance w1).
      { induction dirs as [|x dirs IH]; intros acc w1; cbn [make_dirs fold_m].
        - eauto.
        - unfold make_dirs. cbn [fold_m]. unfold bind at 1, bind at 1, mkdir at 1.
          unfold bind at 1, modify at 1. rewrite Hok. cbn [lift ret].
          destruct (IH (acc ++ [Path_of_str x])%list
                      (perform (Mkdir (Path_str (Path_of_str x))) w1))
            as (acc' & w2 & Heq & Hin).
          exists acc', w2. split; [exact Heq | exact Hin]. }
      unfold bind at 1, modify at 1. unfold bind at 1.
      rewrite get_instance_idle by exact Hi.
      unfold bind at 1.
      destruct (Hmade (d :: ds) [] (perform StartTaskHandler w))
        as (acc' & w2 & -> & Hi2).
      unfold bind at 1, mkdir at 1, bind at 1, modify at 1. rewrite Hok.
      cbn [lift ret].
      unfold bind at 1, mkdir at 1, bind at 1, modify at 1. rewrite Hok.
      cbn [lift ret].
      unfold bind at 1, modify at 1. unfold bind at 1, handle_upload_files.
      unfold bind at 1. rewrite get_instance_idle by (cbn; rewrite Hi2; exact Hi).
      rewrite getattr_update_dirs. reflexivity.
  - split; [apply (frame_perform P); left; reflexivity|].
    split; [split; auto|]. intros _ _ _ (dir & dirs & H). discriminate.
Qed.

(** The sweep over the pending request: the singleton is left as it was
    and the sweep raises at [update_dirs]. *)
Lemma run_changes_no_request_witness :
  fst (run sweep_env sweep_conf (Path_of_str "/state/mods/default/tmp")
         [FileState.sample_log] sweep_world)
  = Raise (AttributeError "update_dirs").
Proof.
  apply (run_changes_no_request sweep_env sweep_conf
           (Path_of_str "/state/mods/default/tmp") [FileState.sample_log]
           sweep_world).
  - reflexivity.
  - intros dir. reflexivity.
  - reflexivity.
  - exists "/data", []. reflexivity.
Defined.

End DefaultMod.

(** ** cos/mods/common/default/log_utils.py *)

Module LogUtils.

Local Open Scope py_scope.

(** Text is a list of characters.  The model covers text whose characters
    take one byte each and that holds no carriage return, so that a byte
    offset in the file is an index in the text read from it. *)
Abbreviation text := (list ascii).

Definition code (c : ascii) : nat := nat_of_ascii c.

Definition between (lo hi : nat) (c : ascii) : bool :=
  (lo <=? code c)%nat && (code c <=? hi)%nat.

(** *** The regular expressions of the module, as [re] runs them *)

(** The character sets the patterns use: [\d], [\s], [[a-zA-Z]], [.] and a
    literal character. *)
Inductive charset : Type :=
| CDigit
| CSpace
| CAlpha
| CAny
| CChar (c : ascii).

Definition in_set (cs : charset) (c : ascii) : bool :=
  match cs with
  | CDigit => between 48 57 c
  | CSpace => between 9 13 c || between 28 32 c
  | CAlpha => between 65 90 c || between 97 122 c
  | CAny => negb (code c =? 10)%nat
  | CChar c' => Ascii.eqb c c'
  end.

(** A set with its greedy repetition [{at_least, at_most}]; [+] has no
    upper bound. *)
Record atom : Type := {
  set : charset;
  at_least : nat;
  at_most : option nat
}.

Abbreviation regex := (list atom).

(** Reading a decimal number at the head of a pattern. *)
Fixpoint read_nat (acc : nat) (s : text) : nat * text :=
  match s with
  | c :: s' => if between 48 57 c then read_nat (10 * acc + (code c - 48)) s'
               else (acc, s)
  | [] => (acc, s)
  end.

(** The quantifier at the head of a pattern: [{n}], [{m,n}], [+] or none. *)
Definition read_quantifier (s : text) : option (nat * option nat * text) :=
  match s with
  | "{"%char :: s1 =>
      let (m, s2) := read_nat 0 s1 in
      match s2 with
      | "}"%char :: s3 => Some (m, Some m, s3)
      | ","%char :: s3 =>
          let (n, s4) := read_nat 0 s3 in
          match s4 with
          | "}"%char :: s5 => Some (m, Some n, s5)
          | _ => None
          end
      | _ => None
      end
  | "+"%char :: s1 => Some (1%nat, None, s1)
  | _ => Some (1%nat, Some 1%nat, s)
  end.

(** [re.compile] on the subset of patterns the module writes. *)
Fixpoint compile_from (fuel : nat) (s : text) : option regex :=
  match fuel with
  | O => match s with [] => Some [] | _ => None end
  | S fuel' =>
      match s with
      | [] => Some []
      | _ =>
          let head :=
            match s with
            | "\"%char :: "d"%char :: s' => Some (CDigit, s')
            | "\"%char :: "s"%char :: s' => Some (CSpace, s')
            | "\"%char :: _ => None
            | "."%char :: s' => Some (CAny, s')
            | "["%char :: "a"%char :: "-"%char :: "z"%char :: "A"%char
                :: "-"%char :: "Z"%char :: "]"%char :: s' => Some (CAlpha, s')
            | "["%char :: _ => None
            | c :: s' => Some (CChar c, s')
            | [] => None
            end in
          match head with
          | None => None
          | Some (cs, s') =>
              match read_quantifier s' with
              | None => None
              | Some (m, n, s'') =>
                  match compile_from fuel' s'' with
                  | None => None
                  | Some r => Some ({| set := cs; at_least := m; at_most := n |} :: r)
                  end
              end
          end
      end
  end.

Definition compile (pattern : string) : regex :=
  let s := list_ascii_of_string pattern in
  default [] (compile_from (length s) s).

(** The number of leading characters of [s] in the set, up to the bound. *)
Fixpoint run_length (cs : charset) (bound : option nat) (s : text) : nat :=
  match s with
  | c :: s' =>
      if in_set cs c then
        match bound with
        | Some O => O
        | Some (S b) => S (run_length cs (Some b) s')
        | None => S (run_length cs None s')
        end
      else O
  | [] => O
  end.

(** Matching at the head of [s]: each atom takes as many characters as it
    can and gives them back one at a time while the rest fails; the text
    matched is returned. *)
Fixpoint match_here (r : regex) (s : text) {struct r} : option text :=
  match r with
  | [] => Some []
  | a :: r' =>
      (fix give_back (k : nat) {struct k} : option text :=
         if (k <? at_least a)%nat then None
         else match match_here r' (drop k s) with
              | Some m => Some (take k s ++ m)%list
              | None => match k with
                        | O => None
                        | S k' => give_back k'
                        end
              end)
        (run_length (set a) (at_most a) s)
  end.

(** [regex.search(s)]: the leftmost match; [group()] is the text. *)
Fixpoint search (r : regex) (s : text) : option text :=
  match match_here r s with
  | Some m => Some m
  | None => match s with
            | [] => None
            | _ :: s' => search r s'
            end
  end.

(** *** [datetime], as far as the module uses it *)

(** A [datetime]; the ones the module builds all carry the fixed offset
    [timezone(timedelta(hours=8))]. *)
Record datetime : Type := {
  year : Z;
  month : Z;
  day : Z;
  hour : Z;
  minute : Z;
  second : Z;
  microsecond : Z
}.

Definition is_leap (y : Z) : bool :=
  (y mod 4 =? 0) && (negb (y mod 100 =? 0) || (y mod 400 =? 0)).

Definition days_in_month (y m : Z) : Z :=
  if m =? 2 then (if is_leap y then 29 else 28)
  else if (m =? 4) || (m =? 6) || (m =? 9) || (m =? 11) then 30
  else 31.

(** The checks of the [datetime] constructor and of [replace]. *)
Definition checked (d : datetime) : outcome datetime :=
  if (1 <=? year d) && (year d <=? 9999)
     && (1 <=? month d) && (month d <=? 12)
     && (1 <=? day d) && (day d <=? days_in_month (year d) (month d))
     && (0 <=? hour d) && (hour d <=? 23)
     && (0 <=? minute d) && (minute d <=? 59)
     && (0 <=? second d) && (second d <=? 59)
     && (0 <=? microsecond d) && (microsecond d <=? 999999)
  then Ret d else Raise ValueError.

(** Days from 1970-01-01 to a date of the proleptic Gregorian calendar,
    and back. *)
Definition days_from_civil (y m d : Z) : Z :=
  let y := if m <=? 2 then y - 1 else y in
  let era := y / 400 in
  let yoe := y - era * 400 in
  let doy := (153 * (if m >? 2 then m - 3 else m + 9) + 2) / 5 + d - 1 in
  let doe := yoe * 365 + yoe / 4 - yoe / 100 + doy in
  era * 146097 + doe - 719468.

Definition civil_from_days (z : Z) : Z * Z * Z :=
  let z := z + 719468 in
  let era := z / 146097 in
  let doe := z - era * 146097 in
  let yoe := (doe - doe / 1460 + doe / 36524 - doe / 146096) / 365 in
  let doy := doe - (365 * yoe + yoe / 4 - yoe / 100) in
  let mp := (5 * doy + 2) / 153 in
  let d := doy - (153 * mp + 2) / 5 + 1 in
  let m := if mp <? 10 then mp + 3 else mp - 9 in
  let y := yoe + era * 400 in
  (if m <=? 2 then y + 1 else y, m, d).

(** Microseconds from 1970-01-01T00:00:00 on the datetime's own clock. *)
Definition wall_us (d : datetime) : Z :=
  ((days_from_civil (year d) (month d) (day d) * 86400
    + hour d * 3600 + minute d * 60 + second d) * 1000000) + microsecond d.

(** [a < b] for two datetimes with the same offset. *)
Definition dt_lt (a b : datetime) : bool := wall_us a <? wall_us b.

(** [d + timedelta(days=n)] *)
Definition add_days (d : datetime) (n : Z) : outcome datetime :=
  let '(y, m, dd) :=
    civil_from_days (days_from_civil (year d) (month d) (day d) + n) in
  if (1 <=? y) && (y <=? 9999)
  then Ret {| year := y; month := m; day := dd; hour := hour d;
              minute := minute d; second := second d;
              microsecond := microsecond d |}
  else Raise (OtherError "OverflowError").

(** [d.replace(year=y, month=m, day=dd)] and [d.replace(year=y)] *)
Definition replace_date (d : datetime) (y m dd : Z) : outcome datetime :=
  checked {| year := y; month := m; day := dd; hour := hour d;
             minute := minute d; second := second d;
             microsecond := microsecond d |}.

Definition replace_year (d : datetime) (y : Z) : outcome datetime :=
  replace_date d y (month d) (day d).

(** [int(d.timestamp())] for a datetime at UTC+08:00: the seconds since
    the epoch, truncated toward zero. *)
Definition timestamp (d : datetime) : Z :=
  Z.quot (wall_us d - 8 * 3600 * 1000000) 1000000.

(** *** [datetime.strptime] on the directives of the module's formats *)

Inductive directive : Type :=
| DirY
| Dirm
| Dird
| DirH
| DirM
| DirS
| Dirf
| Dirb
| DirSpace
| DirChar (c : ascii).

(** Reading a format: [%] and a letter is a directive, white space
    stands for [\s+], any other character for itself. *)
Fixpoint parse_format (s : text) : option (list directive) :=
  match s with
  | [] => Some []
  | "%"%char :: c :: s' =>
      match (if Ascii.eqb c "Y" then Some DirY
             else if Ascii.eqb c "m" then Some Dirm
             else if Ascii.eqb c "d" then Some Dird
             else if Ascii.eqb c "H" then Some DirH
             else if Ascii.eqb c "M" then Some DirM
             else if Ascii.eqb c "S" then Some DirS
             else if Ascii.eqb c "f" then Some Dirf
             else if Ascii.eqb c "b" then Some Dirb
             else None), parse_format s' with
      | Some d, Some ds => Some (d :: ds)
      | _, _ => None
      end
  | c :: s' =>
      match parse_format s' with
      | Some ds => Some ((if in_set CSpace c then DirSpace else DirChar c) :: ds)
      | None => None
      end
  end.

Definition to_lower (c : ascii) : ascii :=
  if between 65 90 c then ascii_of_nat (code c + 32) else c.

Definition is_char (c : ascii) : ascii -> bool := fun x => Ascii.eqb x c.

Definition digit : ascii -> bool := between 48 57.

Definition month_abbreviations : list string :=
  ["jan"; "feb"; "mar"; "apr"; "may"; "jun";
   "jul"; "aug"; "sep"; "oct"; "nov"; "dec"].

(** The alternatives of a directive's group in the regular expression
    [strptime] builds, in the order it tries them; each is a sequence of
    character tests. *)
Definition alternatives (d : directive) : list (list (ascii -> bool)) :=
  match d with
  | DirY => [[digit; digit; digit; digit]]
  | Dirm => [[is_char "1"; between 48 50]; [is_char "0"; between 49 57];
             [between 49 57]]
  | Dird => [[is_char "3"; between 48 49]; [between 49 50; digit];
             [is_char "0"; between 49 57]; [between 49 57];
             [is_char " "; between 49 57]]
  | DirH => [[is_char "2"; between 48 51]; [between 48 49; digit]; [digit]]
  | DirM => [[between 48 53; digit]; [digit]]
  | DirS => [[is_char "6"; between 48 49]; [between 48 53; digit]; [digit]]
  | Dirf => [repeat digit 6; repeat digit 5; repeat digit 4;
             repeat digit 3; repeat digit 2; repeat digit 1]
  | Dirb => List.map (fun name =>
                        List.map (fun c x => Ascii.eqb (to_lower x) c)
                          (list_ascii_of_string name))
              month_abbreviations
  | DirSpace => []
  | DirChar c => [[fun x => Ascii.eqb (to_lower x) (to_lower c)]]
  end.

(** The characters of [s] that pass the tests in turn, with what follows. *)
Fixpoint take_tests (tests : list (ascii -> bool)) (s : text) : option (text * text) :=
  match tests with
  | [] => Some ([], s)
  | t :: tests' =>
      match s with
      | c :: s' =>
          if t c then
            match take_tests tests' s' with
            | Some (m, rest) => Some (c :: m, rest)
            | None => None
            end
          else None
      | [] => None
      end
  end.

(** The ways a directive can match at the head of [s], best first. *)
Definition candidates (d : directive) (s : text) : list (text * text) :=
  match d with
  | DirSpace =>
      List.map (fun k => (take k s, drop k s))
        (rev (seq 1 (run_length CSpace None s)))
  | _ => omap (fun tests => take_tests tests s) (alternatives d)
  end.

(** [int(s)] for the digits among the characters matched. *)
Definition int_of (m : text) : Z :=
  fold_left (fun acc c => if digit c then 10 * acc + Z.of_nat (code c - 48) else acc)
    m 0.

Fixpoint index_of (name : text) (names : list string) (i : Z) : Z :=
  match names with
  | [] => 0
  | n :: names' => if bool_decide (list_ascii_of_string n = name) then i
                   else index_of name names' (i + 1)
  end.

(** Recording what a directive matched. *)
Definition store (d : directive) (m : text) (acc : datetime) : datetime :=
  let upd y mo dd h mi s us :=
    {| year := y; month := mo; day := dd; hour := h; minute := mi;
       second := s; microsecond := us |} in
  match d with
  | DirY => upd (int_of m) (month acc) (day acc) (hour acc) (minute acc)
              (second acc) (microsecond acc)
  | Dirm => upd (year acc) (int_of m) (day acc) (hour acc) (minute acc)
              (second acc) (microsecond acc)
  | Dirb => upd (year acc) (index_of (List.map to_lower m) month_abbreviations 1)
              (day acc) (hour acc) (minute acc) (second acc) (microsecond acc)
  | Dird => upd (year acc) (month acc) (int_of m) (hour acc) (minute acc)
              (second acc) (microsecond acc)
  | DirH => upd (year acc) (month acc) (day acc) (int_of m) (minute acc)
              (second acc) (microsecond acc)
  | DirM => upd (year acc) (month acc) (day acc) (hour acc) (int_of m)
              (second acc) (microsecond acc)
  | DirS => upd (year acc) (month acc) (day acc) (hour acc) (minute acc)
              (int_of m) (microsecond acc)
  | Dirf => upd (year acc) (month acc) (day acc) (hour acc) (minute acc)
              (second acc) (int_of (m ++ repeat "0"%char (6 - length m)))
  | DirSpace | DirChar _ => acc
  end.

(** Matching the directives in turn, with backtracking over their
    alternatives; what is left of the text is returned. *)
Fixpoint strp (ds : list directive) (s : text) (acc : datetime) {struct ds}
    : option (datetime * text) :=
  match ds with
  | [] => Some (acc, s)
  | d :: ds' =>
      (fix first (cands : list (text * text)) : option (datetime * text) :=
         match cands with
         | [] => None
         | (m, rest) :: cands' =>
             match strp ds' rest (store d m acc) with
             | Some r => Some r
             | None => first cands'
             end
         end) (candidates d s)
  end.

(** [datetime.strptime(s, format)]: a [ValueError] when the text does not
    match, when text remains after the match, or when the fields are not a
    date and time; fields not given default to 1900-01-01 00:00:00. *)
Definition strptime (s : text) (format : string) : outcome datetime :=
  match parse_format (list_ascii_of_string format) with
  | None => Raise ValueError
  | Some ds =>
      match strp ds s {| year := 1900; month := 1; day := 1; hour := 0;
                         minute := 0; second := 0; microsecond := 0 |} with
      | Some (d, []) => checked d
      | _ => Raise ValueError
      end
  end.

(** *** The functions of log_utils.py *)

Definition hint_options : list (regex * string) :=
  [(compile "\d{4}-\d{2}-\d{2}\s+\d{2}:\d{2}:\d{2}", "%Y-%m-%d %H:%M:%S");
   (compile "\d{4}/\d{2}/\d{2}\s+\d{2}:\d{2}:\d{2}", "%Y/%m/%d %H:%M:%S");
   (compile "\d{10}", "%Y%m%d%H")].

Definition ts_schema : list (regex * string) :=
  [(compile "\d{4}-\d{2}-\d{2}\s+\d{2}:\d{2}:\d{2}.\d{3}", "%Y-%m-%d %H:%M:%S.%f");
   (compile "\d{4}-\d{2}-\d{2}\s+\d{2}:\d{2}:\d{2},\d{3}", "%Y-%m-%d %H:%M:%S,%f");
   (compile "\d{4}\s+\d{2}:\d{2}:\d{2}.\d{6}", "%m%d %H:%M:%S.%f");
   (compile "[a-zA-Z]{3}\s+\d{1,2}\s+\d{2}:\d{2}:\d{2}", "%b %d %H:%M:%S");
   (compile "\d{2}:\d{2}:\d{2}.\d{3}", "%H:%M:%S.%f")].

(** A log file: its name and the text read from it.  The encoding
    [get_file_encoding] finds is taken to be utf8. *)
Record file : Type := {
  name : string;
  content : text
}.

(** [file_path.stat().st_size] *)
Definition st_size (f : file) : Z := Z.of_nat (length (content f)).

(** [f.seek(offset); f.read(n)] *)
Definition read (f : file) (offset n : Z) : text :=
  take (Z.to_nat n) (drop (Z.to_nat offset) (content f)).

(** [f.readline()] at the start of the file. *)
Fixpoint readline (s : text) : text :=
  match s with
  | [] => []
  | c :: s' => if (code c =? 10)%nat then [c] else c :: readline s'
  end.

(** [get_hint_from_text] *)
Fixpoint get_hint_from_text_in (options : list (regex * string)) (s : text)
    : outcome (option datetime) :=
  match options with
  | [] => Ret None
  | (regex, date_format) :: options' =>
      match search regex s with
      | Some time_candidate =>
          match strptime time_candidate date_format with
          | Ret d => Ret (Some d)
          | Raise ValueError => get_hint_from_text_in options' s
          | Raise e => Raise e
          end
      | None => get_hint_from_text_in options' s
      end
  end.

Definition get_hint_from_text (s : text) : outcome (option datetime) :=
  get_hint_from_text_in hint_options s.

(** [get_timestamp_hint_from_file] *)
Definition get_timestamp_hint_from_file (f : file) : outcome (option datetime) :=
  match get_hint_from_text (list_ascii_of_string (name f)) with
  | Raise e => Raise e
  | Ret (Some filename_hint) => Ret (Some filename_hint)
  | Ret None => get_hint_from_text (readline (content f))
  end.

(** [needle in s] *)
Fixpoint is_prefix (needle s : text) : bool :=
  match needle, s with
  | [], _ => true
  | a :: needle', b :: s' => Ascii.eqb a b && is_prefix needle' s'
  | _ :: _, [] => false
  end.

Fixpoint contains (needle s : text) : bool :=
  is_prefix needle s
  || match s with
     | [] => false
     | _ :: s' => contains needle s'
     end.

Definition format_has (d : string) (date_format : string) : bool :=
  contains (list_ascii_of_string d) (list_ascii_of_string date_format).

(** [get_timestamp_with_hint]; [now] is [datetime.now()]. *)
Definition get_timestamp_with_hint (now : datetime) (dt : datetime)
    (hint : option datetime) (date_format : string) : outcome datetime :=
  match hint with
  | Some hint =>
      if negb (format_has "%d" date_format) then
        match replace_date dt (year hint) (month hint) (day hint) with
        | Raise e => Raise e
        | Ret candidate =>
            if dt_lt candidate hint then add_days candidate 1 else Ret candidate
        end
      else if negb (format_has "%Y" date_format) then
        match replace_year dt (year hint) with
        | Raise e => Raise e
        | Ret candidate =>
            if dt_lt candidate hint then replace_year candidate (year hint + 1)
            else Ret candidate
        end
      else Ret dt
  | None =>
      if negb (format_has "%d" date_format) then
        match replace_date dt (year now) (month now) (day now) with
        | Raise e => Raise e
        | Ret candidate =>
            if dt_lt now candidate then add_days candidate (-1) else Ret candidate
        end
      else if negb (format_has "%Y" date_format) then
        match replace_year dt (year now) with
        | Raise e => Raise e
        | Ret candidate =>
            if dt_lt now candidate then replace_year candidate (year now - 1)
            else Ret candidate
        end
      else Ret dt
  end.

(** [get_timestamp_from_line] *)
Fixpoint get_timestamp_from_line_in (schema : list (regex * string))
    (now : datetime) (line : text) (hint : option datetime)
    : outcome (option datetime) :=
  match schema with
  | [] => Ret None
  | (regex, date_format) :: schema' =>
      match search regex line with
      | Some time_candidate =>
          match
            match strptime time_candidate date_format with
            | Ret parsed_time =>
                get_timestamp_with_hint now parsed_time hint date_format
            | Raise e => Raise e
            end
          with
          | Ret d => Ret (Some d)
          | Raise ValueError => get_timestamp_from_line_in schema' now line hint
          | Raise e => Raise e
          end
      | None => get_timestamp_from_line_in schema' now line hint
      end
  end.

Definition get_timestamp_from_line (now : datetime) (line : text)
    (hint : option datetime) : outcome (option datetime) :=
  get_timestamp_from_line_in ts_schema now line hint.

Definition CHUNK_SIZE : Z := 16 * 1024.
Definition BUFFER_SIZE : Z := 512.
Definition ATTEMPT_LIMIT : Z := 5.

(** The line boundaries of [str.splitlines] among one-byte characters:
    line feed, vertical tab, form feed, carriage return and the file,
    group and record separators. *)
Definition is_linebreak (c : ascii) : bool :=
  between 10 13 c || between 28 30 c.

(** [s.splitlines()], with the line being read in [cur], reversed; a
    carriage return and the line feed after it are one boundary. *)
Fixpoint splitlines_from (cur : text) (s : text) : list text :=
  match s with
  | [] => match cur with [] => [] | _ => [rev cur] end
  | c :: s' =>
      if is_linebreak c then
        rev cur ::
        match s' with
        | c' :: s'' =>
            if (code c =? 13)%nat && (code c' =? 10)%nat
            then splitlines_from [] s''
            else splitlines_from [] s'
        | [] => []
        end
      else splitlines_from (c :: cur) s'
  end.

Definition splitlines (s : text) : list text := splitlines_from [] s.

(** The [for line in reversed(chunk.splitlines())] loop of
    [get_end_timestamp]. *)
Fixpoint last_timestamp (now : datetime) (hint : option datetime)
    (lines : list text) : outcome (option Z) :=
  match lines with
  | [] => Ret None
  | line :: lines' =>
      match get_timestamp_from_line now line hint with
      | Raise e => Raise e
      | Ret (Some timestamp_candidate) => Ret (Some (timestamp timestamp_candidate))
      | Ret None => last_timestamp now hint lines'
      end
  end.

(** The [for attempt in range(ATTEMPT_LIMIT)] loop of [get_end_timestamp]. *)
Fixpoint end_attempts (now : datetime) (f : file) (hint : option datetime)
    (attempts : list Z) : outcome (option Z) :=
  match attempts with
  | [] => Ret None
  | attempt :: attempts' =>
      let end_offset := st_size f - attempt * CHUNK_SIZE in
      let start_offset := Z.max 0 (end_offset - CHUNK_SIZE - BUFFER_SIZE) in
      if end_offset <=? 0 then Ret None
      else
        let chunk := read f start_offset (CHUNK_SIZE + BUFFER_SIZE) in
        match last_timestamp now hint (rev (splitlines chunk)) with
        | Raise e => Raise e
        | Ret (Some t) => Ret (Some t)
        | Ret None => end_attempts now f hint attempts'
        end
  end.

(** [get_end_timestamp] *)
Definition get_end_timestamp (now : datetime) (f : file) : outcome (option Z) :=
  match get_timestamp_hint_from_file f with
  | Raise e => Raise e
  | Ret hint => end_attempts now f hint (seqZ 0 ATTEMPT_LIMIT)
  end.

(** The [for attempt in range(ATTEMPT_LIMIT)] loop of
    [get_start_timestamp]. *)
Fixpoint start_attempts (now : datetime) (f : file) (hint : option datetime)
    (attempts : list Z) : outcome (option Z) :=
  match attempts with
  | [] => Ret None
  | attempt :: attempts' =>
      let start_offset := attempt * CHUNK_SIZE in
      if start_offset >=? st_size f then Ret None
      else
        let chunk := read f start_offset (CHUNK_SIZE + BUFFER_SIZE) in
        match get_timestamp_from_line now chunk hint with
        | Raise e => Raise e
        | Ret (Some timestamp_candidate) =>
            Ret (Some (timestamp timestamp_candidate))
        | Ret None => start_attempts now f hint attempts'
        end
  end.

(** [get_start_timestamp] *)
Definition get_start_timestamp (now : datetime) (f : file) : outcome (option Z) :=
  match get_timestamp_hint_from_file f with
  | Raise e => Raise e
  | Ret hint => start_attempts now f hint (seqZ 0 ATTEMPT_LIMIT)
  end.

(** The log file [f] of the directory [dir] as the file-state index sees
    it; the readers of the other handlers do not apply to it. *)
Definition log_entry (now : datetime) (dir : string) (f : file) : FileState.dir_entry :=
  {| FileState.path := String.append dir (String.append "/" (name f));
     FileState.name := name f;
     FileState.entry_is_file := true;
     FileState.entry_is_dir := false;
     FileState.st_size := Ret (st_size f);
     FileState.start_timestamp := get_start_timestamp now f;
     FileState.end_timestamp := get_end_timestamp now f;
     FileState.mcap_summary := Raise (OtherError "not an mcap file");
     FileState.ros1_reader := Raise (OtherError "not a bag");
     FileState.ros2_reader := Raise (OtherError "not a bag");
     FileState.children := [];
     FileState.diagnosis := Ret tt |}.

(** *** Scenario S-1 *)

Definition s1_first_line : text :=
  list_ascii_of_string "2024-01-15 12:00:00,123 INFO start".

Definition s1_last_line : text :=
  list_ascii_of_string "2024-01-15 12:05:42.000 INFO done".

Definition newline : ascii := ascii_of_nat 10.

(** The text starts with the line [l], and ends with the line [l],
    followed or not by a last line feed. *)
Definition starts_with_line (l s : text) : Prop :=
  exists rest, s = (l ++ newline :: rest)%list.

Definition ends_with_line (l s : text) : Prop :=
  exists pre, s = (pre ++ newline :: l)%list
              \/ s = (pre ++ newline :: l ++ [newline])%list.

(** The smallest file of S-1: its two lines. *)
Definition s1_file : file :=
  {| name := "svc_20240115_12.log";
     content := (s1_first_line ++ newline :: s1_last_line ++ [newline])%list |}.

(** A clock for [datetime.now()]. *)
Definition s1_now : datetime :=
  {| year := 2024; month := 1; day := 16; hour := 9; minute := 0;
     second := 0; microsecond := 0 |}.

(** The hint of S-1, read from the first line: 2024-01-15 12:00:00. *)
Definition s1_hint : datetime :=
  {| year := 2024; month := 1; day := 15; hour := 12; minute := 0;
     second := 0; microsecond := 0 |}.

(** The index entry of a log file with the given times. *)
Definition timed_entry (f : file) (start_time end_time : Z) : list (string * json) :=
  [("size", JInt (st_size f)); ("start_time", JInt start_time);
   ("end_time", JInt end_time)].

(** *** Properties of the extraction *)

Lemma s1_hint_from_file (f : file) :
  name f = "svc_20240115_12.log" ->
  starts_with_line s1_first_line (content f) ->
  get_timestamp_hint_from_file f = Ret (Some s1_hint).
Proof.
  destruct f as [n c]. cbn. intros -> [rest ->]. vm_compute. reflexivity.
Qed.

Lemma s1_start_timestamp (now : datetime) (f : file) :
  name f = "svc_20240115_12.log" ->
  starts_with_line s1_first_line (content f) ->
  get_start_timestamp now f = Ret (Some 1705291200).
Proof.
  destruct f as [n c]. cbn. intros -> [rest ->]. vm_compute. reflexivity.
Qed.

(** Past a line feed, [splitlines] starts a new line. *)
Lemma splitlines_from_newline (n : nat) :
  forall (p cur rest : text),
    (length p <= n)%nat ->
    exists L, splitlines_from cur (p ++ newline :: rest)
              = (L ++ splitlines_from [] rest)%list.
Proof.
  assert (Hnil : forall cur rest,
             exists L, splitlines_from cur (newline :: rest)
                       = (L ++ splitlines_from [] rest)%list).
  { intros cur rest. exists [rev cur]. destruct rest; reflexivity. }
  induction n as [|n IH]; intros p cur rest Hlen.
  - destruct p; [apply Hnil | cbn in Hlen; lia].
  - destruct p as [|c p]; [apply Hnil|]. cbn in Hlen.
    cbn [app splitlines_from]. destruct (is_linebreak c).
    + destruct p as [|c' p].
      * cbn [app]. destruct ((code c =? 13)%nat && (code newline =? 10)%nat).
        -- exists [rev cur]. reflexivity.
        -- destruct (Hnil [] rest) as [L HL]. exists (rev cur :: L).
           rewrite HL. reflexivity.
      * cbn [app]. cbn in Hlen.
        destruct ((code c =? 13)%nat && (code c' =? 10)%nat).
        -- destruct (IH p [] rest ltac:(lia)) as [L HL].
           exists (rev cur :: L). rewrite HL. reflexivity.
        -- destruct (IH (c' :: p) [] rest ltac:(cbn; lia)) as [L HL].
           exists (rev cur :: L). cbn [app] in HL. rewrite HL. reflexivity.
    + apply IH. lia.
Qed.

(** The chunk [get_end_timestamp] reads first ends with the last line of
    S-1, which is therefore the first line it examines. *)
Lemma s1_last_chunk_lines (f : file) :
  ends_with_line s1_last_line (content f) ->
  exists ls,
    rev (splitlines (read f (Z.max 0 (st_size f - 0 * CHUNK_SIZE
                                      - CHUNK_SIZE - BUFFER_SIZE))
                       (CHUNK_SIZE + BUFFER_SIZE)))
    = s1_last_line :: ls.
Proof.
  intros [pre Hc].
  assert (Hshape : exists t, content f = (pre ++ newline :: t)%list
                             /\ (length t <= 40)%nat
                             /\ splitlines_from [] t = [s1_last_line]).
  { destruct Hc as [Hc|Hc]; eexists; (split; [exact Hc|]);
      split; vm_compute; try reflexivity; lia. }
  destruct Hshape as (t & Ht & Hlen & Hsplit).
  unfold read, st_size, splitlines, CHUNK_SIZE, BUFFER_SIZE. rewrite Ht.
  rewrite length_app. cbn [length].
  set (k := Z.to_nat (Z.max _ _)).
  assert (Hk : (k <= length pre)%nat) by (subst k; lia).
  rewrite drop_app_le by exact Hk.
  rewrite take_ge
    by (rewrite length_app, length_drop; cbn [length]; subst k; lia).
  destruct (splitlines_from_newline (length (drop k pre)) (drop k pre) [] t
              ltac:(lia)) as [L HL].
  rewrite HL, Hsplit, rev_app_distr. cbn. eauto.
Qed.

Lemma s1_last_line_timestamp (now : datetime) :
  get_timestamp_from_line now s1_last_line (Some s1_hint)
  = Ret (Some {| year := 2024; month := 1; day := 15; hour := 12;
                 minute := 5; second := 42; microsecond := 0 |}).
Proof. vm_compute. reflexivity. Qed.

Lemma s1_end_timestamp (now : datetime) (f : file) :
  name f = "svc_20240115_12.log" ->
  starts_with_line s1_first_line (content f) ->
  ends_with_line s1_last_line (content f) ->
  get_end_timestamp now f = Ret (Some 1705291542).
Proof.
  intros Hname Hstart Hend. unfold get_end_timestamp.
  rewrite (s1_hint_from_file f Hname Hstart).
  replace (seqZ 0 ATTEMPT_LIMIT) with [0; 1; 2; 3; 4] by reflexivity.
  cbn [end_attempts].
  destruct (st_size f - 0 * CHUNK_SIZE <=? 0) eqn:Hsize.
  - exfalso. apply Z.leb_le in Hsize. destruct Hstart as [rest Hrest].
    unfold st_size in Hsize. rewrite Hrest in Hsize.
    rewrite length_app in Hsize. cbn in Hsize. lia.
  - destruct (s1_last_chunk_lines f Hend) as [ls Hls]. rewrite Hls.
    cbn [last_timestamp]. rewrite s1_last_line_timestamp. reflexivity.
Qed.

(** C3, as stated, fails on the code: for the two-line file of S-1 the
    extraction does not yield 1705305600 and 1705305942. *)
Lemma s1_times_are_not_the_stated_ones :
  get_start_timestamp s1_now s1_file <> Ret (Some 1705305600)
  /\ get_end_timestamp s1_now s1_file <> Ret (Some 1705305942).
Proof. split; vm_compute; discriminate. Qed.

(** C3, amended. For a log file named svc_20240115_12.log whose text
    starts with the line "2024-01-15 12:00:00,123 INFO start" and ends
    with the line "2024-01-15 12:05:42.000 INFO done", the extraction, read
    at UTC+08:00, gives 1705291200 and 1705291542, and the log handler
    writes the index entry with this [start_time] and [end_time]. *)
Theorem s1_log_timestamps :
  forall (now : datetime) (dir : string) (f : file) (w : FileState.world),
    name f = "svc_20240115_12.log" ->
    starts_with_line s1_first_line (content f) ->
    ends_with_line s1_last_line (content f) ->
    get_start_timestamp now f = Ret (Some 1705291200)
    /\ get_end_timestamp now f = Ret (Some 1705291542)
    /\ FileState.state
         (snd (FileState.update_path_state FileState.LogHandler
                 (log_entry now dir f) w))
       !! FileState.path (log_entry now dir f)
       = Some (timed_entry f 1705291200 1705291542).
Proof.
  intros now dir f w Hname Hstart Hend.
  pose proof (s1_start_timestamp now f Hname Hstart) as Hs.
  pose proof (s1_end_timestamp now f Hname Hstart Hend) as He.
  split; [exact Hs|]. split; [exact He|].
  cbn. rewrite Hs, He. cbn. apply lookup_insert_eq.
Qed.

(** The two-line file of S-1 meets the hypotheses of the amended C3. *)
Lemma s1_log_timestamps_witness :
  get_start_timestamp s1_now s1_file = Ret (Some 1705291200)
  /\ get_end_timestamp s1_now s1_file = Ret (Some 1705291542)
  /\ FileState.state
       (snd (FileState.update_path_state FileState.LogHandler
               (log_entry s1_now "/data" s1_file)
               {| FileState.state := ∅; FileState.state_path := None |}))
     !! FileState.path (log_entry s1_now "/data" s1_file)
     = Some (timed_entry s1_file 1705291200 1705291542).
Proof.
  apply (s1_log_timestamps s1_now "/data" s1_file).
  - reflexivity.
  - exists (s1_last_line ++ [newline])%list. reflexivity.
  - exists s1_first_line. right. reflexivity.
Defined.

(** *** Further properties of the extraction *)

(** No character of the text is a decimal digit. *)
Definition digit_free (s : text) : bool := forallb (fun c => negb (digit c)) s.

(** Every byte of the file is an ASCII character. *)
Definition is_ascii (s : text) : bool := forallb (fun c => (code c <? 128)%nat) s.

(** Some atom of the expression must take a digit. *)
Definition needs_digit (r : regex) : bool :=
  existsb (fun a => match set a with
                    | CDigit => (1 <=? at_least a)%nat
                    | _ => false
                    end) r.

Lemma digit_free_app (a b : text) :
  digit_free (a ++ b) = digit_free a && digit_free b.
Proof. apply forallb_app. Qed.

Lemma digit_free_take (n : nat) (s : text) :
  digit_free s = true -> digit_free (take n s) = true.
Proof.
  revert n. induction s as [|c s IH]; intros [|n] H; try reflexivity.
  cbn in *. apply andb_prop in H as [Hc Hs]. rewrite Hc. exact (IH n Hs).
Qed.

Lemma digit_free_drop (n : nat) (s : text) :
  digit_free s = true -> digit_free (drop n s) = true.
Proof.
  revert n. induction s as [|c s IH]; intros [|n] H; try reflexivity; [exact H|].
  cbn in *. apply andb_prop in H as [_ Hs]. exact (IH n Hs).
Qed.

Lemma digit_free_rev (s : text) : digit_free (rev s) = digit_free s.
Proof.
  induction s as [|c s IH]; [reflexivity|].
  cbn [rev]. rewrite digit_free_app, IH. cbn. rewrite andb_true_r. apply andb_comm.
Qed.

(** The backtracking loop of [match_here] for one atom, by itself. *)
Definition give_back (a : atom) (rest : text -> option text) (s : text)
    : nat -> option text :=
  fix give_back (k : nat) : option text :=
    if (k <? at_least a)%nat then None
    else match rest (drop k s) with
         | Some m => Some (take k s ++ m)%list
         | None => match k with
                   | O => None
                   | S k' => give_back k'
                   end
         end.

Lemma match_here_cons (a : atom) (r : regex) (s : text) :
  match_here (a :: r) s
  = give_back a (match_here r) s (run_length (set a) (at_most a) s).
Proof. reflexivity. Qed.

Lemma give_back_some (a : atom) (rest : text -> option text) (s : text)
    (k : nat) (m : text) :
  give_back a rest s k = Some m ->
  exists k' m', (at_least a <= k' <= k)%nat
                /\ rest (drop k' s) = Some m'
                /\ m = (take k' s ++ m')%list.
Proof.
  induction k as [|k IH]; cbn [give_back].
  - destruct (0 <? at_least a)%nat eqn:Hlt; [discriminate|].
    apply Nat.ltb_ge in Hlt.
    destruct (rest (drop 0 s)) as [m'|] eqn:Hrest; [|discriminate].
    intros [= <-]. exists 0%nat, m'. repeat split; auto; lia.
  - destruct (S k <? at_least a)%nat eqn:Hlt; [discriminate|].
    apply Nat.ltb_ge in Hlt.
    destruct (rest (drop (S k) s)) as [m'|] eqn:Hrest.
    + intros [= <-]. exists (S k), m'. repeat split; auto; lia.
    + intros H. destruct (IH H) as (k' & m' & Hk & Hr & Hm).
      exists k', m'. repeat split; auto; lia.
Qed.

Lemma run_length_head (cs : charset) (bound : option nat) (s : text) :
  (0 < run_length cs bound s)%nat ->
  exists c s', s = c :: s' /\ in_set cs c = true.
Proof.
  destruct s as [|c s']; cbn; [lia|].
  destruct (in_set cs c) eqn:Hc; [eauto | lia].
Qed.

(** What an expression that needs a digit matches holds a digit, and is
    the head of the text. *)
Lemma match_here_digit (r : regex) :
  forall (s m : text),
    match_here r s = Some m ->
    (exists rest, s = (m ++ rest)%list)
    /\ (needs_digit r = true -> digit_free m = false).
Proof.
  induction r as [|a r IH]; intros s m H.
  - injection H as <-. split; [exists s; reflexivity | discriminate].
  - rewrite match_here_cons in H.
    destruct (give_back_some _ _ _ _ _ H) as (k & m' & [Hlo Hhi] & Hrest & ->).
    destruct (IH _ _ Hrest) as [[rest Hs] Hdigit]. split.
    + exists rest. rewrite <- app_assoc, <- Hs. symmetry. apply take_drop.
    + intros Hneeds. rewrite digit_free_app. cbn [needs_digit existsb] in Hneeds.
      apply orb_prop in Hneeds as [Ha|Hr];
        [|fold (needs_digit r) in Hr; rewrite (Hdigit Hr); apply andb_false_r].
      destruct (set a) eqn:Hset; try discriminate. apply Nat.leb_le in Ha.
      destruct (run_length_head CDigit (at_most a) s ltac:(lia))
        as (c & s' & -> & Hc).
      destruct k as [|k]; [lia|]. cbn in *. unfold digit. rewrite Hc. reflexivity.
Qed.

Lemma search_digit_free (r : regex) (s : text) :
  needs_digit r = true -> digit_free s = true -> search r s = None.
Proof.
  intros Hr. induction s as [|c s IH]; intros Hs; cbn [search].
  - destruct (match_here r []) as [m|] eqn:Hm; [|reflexivity].
    destruct (match_here_digit r _ _ Hm) as [[rest Hrest] Hd].
    specialize (Hd Hr). destruct m; [discriminate Hd | discriminate Hrest].
  - destruct (match_here r (c :: s)) as [m|] eqn:Hm.
    + destruct (match_here_digit r _ _ Hm) as [[rest Hrest] Hd].
      specialize (Hd Hr). rewrite Hrest, digit_free_app, Hd in Hs. discriminate.
    + apply IH. cbn in Hs. apply andb_prop in Hs as [_ Hs]. exact Hs.
Qed.

Lemma schema_digit_free (schema : list (regex * string)) (now : datetime)
    (line : text) (hint : option datetime) :
  forallb (fun rf => needs_digit (fst rf)) schema = true ->
  digit_free line = true ->
  get_timestamp_from_line_in schema now line hint = Ret None.
Proof.
  intros Hschema Hline. induction schema as [|[r f] schema IH]; [reflexivity|].
  cbn in Hschema. apply andb_prop in Hschema as [Hr Hschema].
  cbn [get_timestamp_from_line_in]. rewrite (search_digit_free r line Hr Hline).
  exact (IH Hschema).
Qed.

Lemma line_digit_free (now : datetime) (line : text) (hint : option datetime) :
  digit_free line = true -> get_timestamp_from_line now line hint = Ret None.
Proof. apply schema_digit_free. reflexivity. Qed.

Lemma splitlines_digit_free (n : nat) :
  forall (s cur : text),
    (length s <= n)%nat ->
    digit_free cur = true -> digit_free s = true ->
    Forall (fun l => digit_free l = true) (splitlines_from cur s).
Proof.
  induction n as [|n IH]; intros s cur Hlen Hcur Hs.
  - destruct s; [|cbn in Hlen; lia]. cbn.
    destruct cur; constructor; [rewrite digit_free_rev; exact Hcur | constructor].
  - destruct s as [|c s]; cbn [splitlines_from].
    + destruct cur; constructor; [rewrite digit_free_rev; exact Hcur | constructor].
    + cbn in Hlen, Hs. apply andb_prop in Hs as [Hc Hs].
      destruct (is_linebreak c).
      * constructor; [rewrite digit_free_rev; exact Hcur|].
        destruct s as [|c' s']; [constructor|].
        cbn in Hlen, Hs. apply andb_prop in Hs as [Hc' Hs'].
        destruct (_ && _).
        -- apply IH; [lia | reflexivity | exact Hs'].
        -- apply IH; [cbn; lia | reflexivity | cbn; rewrite Hc'; exact Hs'].
      * apply IH; [lia | cbn; rewrite Hc; exact Hcur | exact Hs].
Qed.

Lemma last_timestamp_digit_free (now : datetime) (hint : option datetime)
    (lines : list text) :
  Forall (fun l => digit_free l = true) lines ->
  last_timestamp now hint lines = Ret None.
Proof.
  induction 1 as [|line lines Hline _ IH]; [reflexivity|].
  cbn [last_timestamp]. rewrite (line_digit_free now line hint Hline). exact IH.
Qed.

Lemma read_digit_free (f : file) (offset n : Z) :
  digit_free (content f) = true -> digit_free (read f offset n) = true.
Proof. intros H. unfold read. apply digit_free_take, digit_free_drop, H. Qed.

(** [strptime] raises nothing but [ValueError], so the search for a hint
    never raises. *)
Lemma hint_from_text_returns (options : list (regex * string)) (s : text) :
  exists h, get_hint_from_text_in options s = Ret h.
Proof.
  induction options as [|[r fmt] options IH]; cbn [get_hint_from_text_in]; [eauto|].
  destruct (search r s) as [m|]; [|exact IH].
  unfold strptime. destruct (parse_format _) as [ds|]; [|exact IH].
  destruct (strp ds m _) as [[d [|? ?]]|]; try exact IH.
  unfold checked. destruct (_ && _); [eauto | exact IH].
Qed.

Lemma hint_from_file_returns (f : file) :
  exists h, get_timestamp_hint_from_file f = Ret h.
Proof.
  unfold get_timestamp_hint_from_file, get_hint_from_text.
  destruct (hint_from_text_returns hint_options (list_ascii_of_string (name f)))
    as [[h|] ->]; [eauto|].
  apply hint_from_text_returns.
Qed.

(** X22. A log file of ASCII text that holds no decimal digit has no
    timestamp, whatever its name and size: [get_start_timestamp] and
    [get_end_timestamp] both return [None], without raising, and the log
    handler writes the entry marked unsupported. ASCII bytes are one
    character each and decode alike under every encoding that
    [get_file_encoding] may find, so the strict decoding of the first line
    cannot fail. *)
Theorem log_without_digits_is_unsupported :
  forall (now : datetime) (dir : string) (f : file) (w : FileState.world),
    is_ascii (content f) = true ->
    digit_free (content f) = true ->
    get_start_timestamp now f = Ret None
    /\ get_end_timestamp now f = Ret None
    /\ FileState.update_path_state FileState.LogHandler (log_entry now dir f) w
       = FileState.set_file_state (FileState.path (log_entry now dir f))
           (FileState.unsupported_state (st_size f)) w.
Proof.
  intros now dir f w _ Hfree.
  destruct (hint_from_file_returns f) as [hint Hhint].
  assert (Hstart : get_start_timestamp now f = Ret None).
  { unfold get_start_timestamp. rewrite Hhint.
    induction (seqZ 0 ATTEMPT_LIMIT) as [|attempt attempts IH]; [reflexivity|].
    cbn [start_attempts]. destruct (_ >=? _); [reflexivity|].
    rewrite (line_digit_free now _ hint (read_digit_free f _ _ Hfree)). exact IH. }
  assert (Hend : get_end_timestamp now f = Ret None).
  { unfold get_end_timestamp. rewrite Hhint.
    induction (seqZ 0 ATTEMPT_LIMIT) as [|attempt attempts IH]; [reflexivity|].
    cbn [end_attempts]. destruct (_ <=? _); [reflexivity|].
    rewrite last_timestamp_digit_free; [exact IH|].
    apply Forall_rev. unfold splitlines.
    match goal with
    | |- Forall _ (splitlines_from [] ?chunk) =>
        apply (splitlines_digit_free (length chunk));
          [lia | reflexivity | apply read_digit_free, Hfree]
    end. }
  split; [exact Hstart|]. split; [exact Hend|].
  cbn. rewrite Hstart. reflexivity.
Qed.

(** Notes kept in a file named like a log. *)
Definition plain_notes : file :=
  {| name := "notes_20240115_12.log";
     content := list_ascii_of_string "started the robot; all fine" |}.

Lemma log_without_digits_is_unsupported_witness :
  get_start_timestamp s1_now plain_notes = Ret None
  /\ get_end_timestamp s1_now plain_notes = Ret None.
Proof.
  pose proof (log_without_digits_is_unsupported s1_now "/data" plain_notes
                {| FileState.state := ∅; FileState.state_path := None |}
                eq_refl eq_refl) as H.
  split; [exact (proj1 H) | exact (proj1 (proj2 H))].
Defined.

(** *** Lines that give the time alone *)

(** The microseconds of a datetime since its midnight. *)
Definition time_of_day_us (d : datetime) : Z :=
  (hour d * 3600 + minute d * 60 + second d) * 1000000 + microsecond d.

Lemma wall_us_split (d : datetime) :
  wall_us d
  = days_from_civil (year d) (month d) (day d) * 86400000000 + time_of_day_us d.
Proof. unfold wall_us, time_of_day_us. lia. Qed.

(** The year and the day of the year that [civil_from_days] finds for a
    day of a 400-year era are within an era and a year. *)
Definition doe_ok (doe : Z) : bool :=
  let yoe := (doe - doe / 1460 + doe / 36524 - doe / 146096) / 365 in
  let doy := doe - (365 * yoe + yoe / 4 - yoe / 100) in
  (0 <=? yoe) && (yoe <=? 399) && (0 <=? doy) && (doy <=? 365).

(** [doe_ok] on the [fuel] days from [doe] on. *)
Fixpoint doe_ok_from (fuel : nat) (doe : Z) : bool :=
  match fuel with
  | O => true
  | S fuel' => doe_ok doe && doe_ok_from fuel' (doe + 1)
  end.

Lemma doe_ok_from_spec (fuel : nat) :
  forall (doe k : Z),
    doe_ok_from fuel doe = true ->
    doe <= k < doe + Z.of_nat fuel ->
    doe_ok k = true.
Proof.
  induction fuel as [|fuel IH]; intros doe k H Hk; [lia|].
  cbn [doe_ok_from] in H. apply andb_prop in H as [H0 H].
  destruct (Z.eq_dec k doe) as [->|Hne]; [exact H0|].
  apply (IH (doe + 1) k H). lia.
Qed.

Lemma doe_ok_all : doe_ok_from (Z.to_nat 146097) 0 = true.
Proof. vm_compute. reflexivity. Qed.

Lemma doe_ok_bounds (doe : Z) :
  0 <= doe < 146097 -> doe_ok doe = true.
Proof.
  intros H. apply (doe_ok_from_spec (Z.to_nat 146097) 0 doe doe_ok_all). lia.
Qed.

(** The date [civil_from_days] gives for a day is a date of that day. *)
Lemma days_from_civil_from_days (z : Z) :
  let '(y, m, d) := civil_from_days z in days_from_civil y m d = z.
Proof.
  unfold civil_from_days.
  set (z1 := z + 719468).
  set (era := z1 / 146097).
  set (doe := z1 - era * 146097).
  assert (Hdoe : 0 <= doe < 146097).
  { subst doe era. pose proof (Z.mod_pos_bound z1 146097 ltac:(lia)) as Hm.
    rewrite Z.mod_eq in Hm by lia. lia. }
  pose proof (doe_ok_bounds doe Hdoe) as Hok. unfold doe_ok in Hok.
  set (yoe := (doe - doe / 1460 + doe / 36524 - doe / 146096) / 365) in *.
  set (doy := doe - (365 * yoe + yoe / 4 - yoe / 100)) in *.
  cbv zeta in Hok.
  apply andb_prop in Hok as [Hok Hdoy2]. apply andb_prop in Hok as [Hok Hdoy1].
  apply andb_prop in Hok as [Hyoe1 Hyoe2].
  apply Z.leb_le in Hyoe1, Hyoe2, Hdoy1, Hdoy2.
  set (mp := (5 * doy + 2) / 153).
  assert (Hmp : 0 <= mp <= 11).
  { subst mp. split.
    - apply Z.div_pos; lia.
    - apply Z.lt_succ_r, Z.div_lt_upper_bound; lia. }
  set (step := (153 * mp + 2) / 5).
  cbv zeta.
  assert (Hera : (yoe + era * 400) / 400 = era).
  { rewrite Z.div_add by lia. rewrite Z.div_small by lia. lia. }
  unfold days_from_civil.
  destruct (mp <? 10) eqn:Hlt.
  - apply Z.ltb_lt in Hlt.
    replace (mp + 3 <=? 2) with false by (symmetry; apply Z.leb_gt; lia).
    replace (mp + 3 >? 2) with true by (symmetry; apply Z.gtb_lt; lia).
    cbv zeta. rewrite Hera.
    replace (mp + 3 - 3) with mp by lia. fold step.
    replace (yoe + era * 400 - era * 400) with yoe by lia.
    subst doy doe z1. lia.
  - apply Z.ltb_ge in Hlt.
    replace (mp - 9 <=? 2) with true by (symmetry; apply Z.leb_le; lia).
    replace (mp - 9 >? 2) with false
      by (symmetry; rewrite Z.gtb_ltb; apply Z.ltb_ge; lia).
    cbv zeta. replace (yoe + era * 400 + 1 - 1) with (yoe + era * 400) by lia.
    rewrite Hera. replace (mp - 9 + 9) with mp by lia. fold step.
    replace (yoe + era * 400 - era * 400) with yoe by lia.
    subst doy doe z1. lia.
Qed.

(** The bounds [checked] accepts. *)
Lemma checked_inv (d d' : datetime) :
  checked d = Ret d' ->
  d' = d
  /\ 0 <= hour d <= 23 /\ 0 <= minute d <= 59 /\ 0 <= second d <= 59
  /\ 0 <= microsecond d <= 999999.
Proof.
  unfold checked. destruct (_ && _) eqn:H; [|discriminate]. intros [= <-].
  repeat (apply andb_prop in H as [H ?]).
  repeat match goal with
         | H : (_ <=? _) = true |- _ => apply Z.leb_le in H
         end.
  repeat split; lia.
Qed.

Lemma time_of_day_bounds (d : datetime) :
  checked d = Ret d -> 0 <= time_of_day_us d < 86400000000.
Proof.
  intros H. apply checked_inv in H as (_ & Hh & Hm & Hs & Hu).
  unfold time_of_day_us. lia.
Qed.

(** X23. For a line that gives the time alone (a format without [%d]) and
    a hint, [get_timestamp_with_hint] returns the first instant at or
    after the hint that shows this time of day: the time is the line's,
    and the instant is not before the hint and less than 24 hours after
    it. Otherwise it raises, and then it is [OverflowError], from the day
    added. *)
Theorem time_only_line_follows_hint :
  forall (now dt hint : datetime) (date_format : string),
    format_has "%d" date_format = false ->
    checked dt = Ret dt ->
    checked hint = Ret hint ->
    match get_timestamp_with_hint now dt (Some hint) date_format with
    | Ret r =>
        time_of_day_us r = time_of_day_us dt
        /\ wall_us hint <= wall_us r < wall_us hint + 86400000000
    | Raise e => e = OtherError "OverflowError"
    end.
Proof.
  intros now dt hint date_format Hfmt Hdt Hhint.
  unfold get_timestamp_with_hint. rewrite Hfmt. cbn [negb].
  pose proof (time_of_day_bounds dt Hdt) as Htod.
  pose proof (time_of_day_bounds hint Hhint) as Htoh.
  set (c := {| year := year hint; month := month hint; day := day hint;
               hour := hour dt; minute := minute dt; second := second dt;
               microsecond := microsecond dt |}).
  assert (Hc : replace_date dt (year hint) (month hint) (day hint) = Ret c).
  { unfold replace_date. fold c. unfold checked in *. cbn [year month day hour
      minute second microsecond c].
    destruct (_ && _) eqn:H1 in Hdt; [|discriminate].
    destruct (_ && _) eqn:H2 in Hhint; [|discriminate].
    repeat (apply andb_prop in H1 as [H1 ?]).
    repeat (apply andb_prop in H2 as [H2 ?]).
    repeat match goal with
           | H : _ = true |- _ => rewrite H
           end.
    reflexivity. }
  rewrite Hc.
  assert (Hwc : wall_us c
                = days_from_civil (year hint) (month hint) (day hint) * 86400000000
                  + time_of_day_us dt) by (rewrite wall_us_split; reflexivity).
  pose proof (wall_us_split hint) as Hwh.
  unfold dt_lt. destruct (wall_us c <? wall_us hint) eqn:Hlt.
  - apply Z.ltb_lt in Hlt. unfold add_days.
    pose proof (days_from_civil_from_days
                  (days_from_civil (year c) (month c) (day c) + 1)) as Hround.
    destruct (civil_from_days _) as [[y m] dd].
    destruct (_ && _); [|reflexivity].
    split; [reflexivity|]. rewrite (wall_us_split {| year := y |}).
    cbn [year month day]. rewrite Hround. cbn [year month day c].
    change (time_of_day_us _) with (time_of_day_us dt) at 1.
    change (time_of_day_us _) with (time_of_day_us dt) at 2.
    lia.
  - apply Z.ltb_ge in Hlt. split; [reflexivity|]. lia.
Qed.

(** The last line of S-1 with its date cut off, read with the hint of S-1. *)
Lemma time_only_line_follows_hint_witness :
  match get_timestamp_with_hint s1_now
          {| year := 1900; month := 1; day := 1; hour := 12; minute := 5;
             second := 42; microsecond := 0 |}
          (Some s1_hint) "%H:%M:%S.%f" with
  | Ret r =>
      time_of_day_us r
      = time_of_day_us {| year := 1900; month := 1; day := 1; hour := 12;
                          minute := 5; second := 42; microsecond := 0 |}
      /\ wall_us s1_hint <= wall_us r < wall_us s1_hint + 86400000000
  | Raise e => e = OtherError "OverflowError"
  end.
Proof.
  apply (time_only_line_follows_hint s1_now
           {| year := 1900; month := 1; day := 1; hour := 12; minute := 5;
              second := 42; microsecond := 0 |}
           s1_hint "%H:%M:%S.%f"); reflexivity.
Defined.

End LogUtils.
